(** * Credential and protocol-parameter generation of the core configuration dialog

    A shallow embedding of [CoreConfigModal] (the configuration editor of the
    dashboard): the VLESS parameter encoder, the key material generators with
    their text encodings, the per-dialog cache of generated values, and the
    extraction of inbound tags from the edited JSON document.

    JavaScript strings are sequences of UTF-16 code units; they are modelled
    as lists of [N].  [Uint8Array] contents are lists of [byte]. *)

From Stdlib Require Import List NArith ZArith Bool String Ascii Lia Arith.
From Stdlib.Strings Require Import Byte.
Import ListNotations.

Local Open Scope N_scope.
Local Open Scope list_scope.

(** ** JavaScript strings *)

Module JsString.

Definition jsstring := list N.

(** A source literal, one code unit per character. *)
Definition js (s : string) : jsstring :=
  map N_of_ascii (list_ascii_of_string s).

Fixpoint eqb (a b : jsstring) : bool :=
  match a, b with
  | [], [] => true
  | x :: a', y :: b' => (x =? y) && eqb a' b'
  | _, _ => false
  end.

(** ECMAScript WhiteSpace and LineTerminator code points, the ones
    [String.prototype.trim] strips. *)
Definition isWhiteSpace (c : N) : bool :=
  match c with
  | 9 | 10 | 11 | 12 | 13 | 32 | 160 | 5760
  | 8192 | 8193 | 8194 | 8195 | 8196 | 8197 | 8198 | 8199 | 8200 | 8201 | 8202
  | 8232 | 8233 | 8239 | 8287 | 12288 | 65279 => true
  | _ => false
  end.

Fixpoint dropWhile {A} (f : A -> bool) (l : list A) : list A :=
  match l with
  | [] => []
  | x :: l' => if f x then dropWhile f l' else l
  end.

Definition trimStart (s : jsstring) : jsstring := dropWhile isWhiteSpace s.
Definition trimEnd (s : jsstring) : jsstring := rev (dropWhile isWhiteSpace (rev s)).

(** [s.trim()] *)
Definition trim (s : jsstring) : jsstring := trimEnd (trimStart s).

(** [s.split(sep)] for a separator of one code unit: never an empty array,
    the empty string splits into one empty piece. *)
Fixpoint split (sep : N) (s : jsstring) : list jsstring :=
  match s with
  | [] => [[]]
  | c :: s' =>
      if c =? sep then [] :: split sep s'
      else match split sep s' with
           | [] => [[c]]
           | p :: ps => (c :: p) :: ps
           end
  end.

(** [parts.join(sep)] on an array of strings. *)
Fixpoint join (sep : jsstring) (parts : list jsstring) : jsstring :=
  match parts with
  | [] => []
  | [p] => p
  | p :: rest => p ++ sep ++ join sep rest
  end.

(** [s.padStart(len, fill)] for a filler of one code unit. *)
Definition padStart (len : nat) (fill : N) (s : jsstring) : jsstring :=
  repeat fill (len - List.length s) ++ s.

Definition dot : N := 46.

End JsString.
Import JsString.

(** ** Constants of the dialog *)

Record ShadowsocksMethod := {
  ss_value : jsstring;
  ss_label : jsstring;
  ss_length : nat
}.

Definition SHADOWSOCKS_ENCRYPTION_METHODS : list ShadowsocksMethod :=
  [ {| ss_value := js "2022-blake3-aes-128-gcm"; ss_label := js "2022-blake3-aes-128-gcm"; ss_length := 16 |};
    {| ss_value := js "2022-blake3-aes-256-gcm"; ss_label := js "2022-blake3-aes-256-gcm"; ss_length := 32 |} ].

Inductive VlessVariant := x25519_variant | mlkem768_variant.

Record SelectOption := {
  opt_value : jsstring;
  opt_label : jsstring;
  opt_translationKey : jsstring
}.

Definition DEFAULT_VLESS_HANDSHAKE : jsstring := js "mlkem768x25519plus".
Definition DEFAULT_VLESS_ENCRYPTION : jsstring := js "native".
Definition DEFAULT_VLESS_PADDING : jsstring := js "100-111-1111.75-0-111.50-0-3333".
Definition DEFAULT_VLESS_SERVER_TICKET : jsstring := js "600s".

Definition VLESS_RESUME_OPTIONS : list SelectOption :=
  [ {| opt_value := js "0rtt"; opt_label := js "0rtt";
       opt_translationKey := js "coreConfigModal.vlessResumeOption0rtt" |};
    {| opt_value := js "1rtt"; opt_label := js "1rtt";
       opt_translationKey := js "coreConfigModal.vlessResumeOption1rtt" |} ].

(** [options[0].value].  The source reads it off a non-empty tuple, where
    the second branch is never taken. *)
Definition firstValue (options : list SelectOption) : jsstring :=
  match options with
  | o :: _ => opt_value o
  | [] => []
  end.

(** [VLESS_RESUME_OPTIONS[0].value] *)
Definition DEFAULT_VLESS_RESUME : jsstring := firstValue VLESS_RESUME_OPTIONS.

Record VlessBuilderOptions := {
  handshakeMethod : jsstring;
  encryptionMethod : jsstring;
  serverTicket : jsstring;
  clientTicket : jsstring;
  serverPadding : jsstring;
  clientPadding : jsstring;
  includeServerPadding : bool;
  includeClientPadding : bool
}.

Definition createDefaultVlessOptions : VlessBuilderOptions :=
  {| handshakeMethod := DEFAULT_VLESS_HANDSHAKE;
     encryptionMethod := DEFAULT_VLESS_ENCRYPTION;
     serverTicket := DEFAULT_VLESS_SERVER_TICKET;
     clientTicket := DEFAULT_VLESS_RESUME;
     serverPadding := DEFAULT_VLESS_PADDING;
     clientPadding := DEFAULT_VLESS_PADDING;
     includeServerPadding := false;
     includeClientPadding := false |}.

(** ** The VLESS protocol parameter encoder *)

Module Encoder.

(** [value.split('.').map(s => s.trim()).filter(s => s.length > 0)] *)
Definition sanitizeSegments (value : jsstring) : list jsstring :=
  filter (fun segment => (0 <? List.length segment)%nat) (map trim (split dot value)).

(** [value] is [string | undefined]; [!value] holds for [undefined] and for
    the empty string. *)
Definition normalizeOption (value : option jsstring) (fallback : jsstring) : jsstring :=
  match value with
  | None => fallback
  | Some [] => fallback
  | Some v =>
      let trimmed := trim v in
      if (0 <? List.length trimmed)%nat then trimmed else fallback
  end.

Record BuildArgs := {
  ticketValue : jsstring;
  paddingValue : jsstring;
  includePadding : bool;
  authParam : jsstring;
  fallbackTicket : jsstring
}.

(** [buildConfig] closes over the two normalized methods. *)
Definition buildConfig (handshake encryption : jsstring) (a : BuildArgs) : jsstring :=
  let segments := [handshake; encryption; normalizeOption (Some (ticketValue a)) (fallbackTicket a)] in
  let segments :=
    if includePadding a
    then segments ++ sanitizeSegments (normalizeOption (Some (paddingValue a)) DEFAULT_VLESS_PADDING)
    else segments in
  let segments := segments ++ [authParam a] in
  join [dot] segments.

Record VariantStrings := {
  decryption : jsstring;
  encryption : jsstring
}.

Record VlessResult := {
  x25519 : VariantStrings;
  mlkem768 : VariantStrings;
  options : VlessBuilderOptions
}.

(** The four encoded keys of one generation call. *)
Record VlessKeys := {
  x25519ServerKey : jsstring;
  x25519ClientKey : jsstring;
  mlkem768ServerKey : jsstring;
  mlkem768ClientKey : jsstring
}.

(** The part of [generateVLESSEncryption] after key generation: the four
    [buildConfig] calls and the result object.  The enumeration of the
    resumption options, a constant of the source, is an argument here, and
    [DEFAULT_VLESS_RESUME] is read off it as the source reads it off
    [VLESS_RESUME_OPTIONS]: what the encoder takes from the enumeration can
    then be stated for every enumeration. *)
Definition buildVlessResultOver (resumeOptions : list SelectOption)
    (vlessOptions : VlessBuilderOptions) (k : VlessKeys) : VlessResult :=
  let DEFAULT_VLESS_RESUME := firstValue resumeOptions in
  let handshake := normalizeOption (Some (handshakeMethod vlessOptions)) DEFAULT_VLESS_HANDSHAKE in
  let encryptionM := normalizeOption (Some (encryptionMethod vlessOptions)) DEFAULT_VLESS_ENCRYPTION in
  let x25519Decryption := buildConfig handshake encryptionM
    {| ticketValue := serverTicket vlessOptions;
       paddingValue := serverPadding vlessOptions;
       includePadding := includeServerPadding vlessOptions;
       authParam := x25519ServerKey k;
       fallbackTicket := DEFAULT_VLESS_SERVER_TICKET |} in
  let x25519Encryption := buildConfig handshake encryptionM
    {| ticketValue := clientTicket vlessOptions;
       paddingValue := clientPadding vlessOptions;
       includePadding := includeClientPadding vlessOptions;
       authParam := x25519ClientKey k;
       fallbackTicket := DEFAULT_VLESS_RESUME |} in
  let mlkem768Decryption := buildConfig handshake encryptionM
    {| ticketValue := serverTicket vlessOptions;
       paddingValue := serverPadding vlessOptions;
       includePadding := includeServerPadding vlessOptions;
       authParam := mlkem768ServerKey k;
       fallbackTicket := DEFAULT_VLESS_SERVER_TICKET |} in
  let mlkem768Encryption := buildConfig handshake encryptionM
    {| ticketValue := clientTicket vlessOptions;
       paddingValue := clientPadding vlessOptions;
       includePadding := includeClientPadding vlessOptions;
       authParam := mlkem768ClientKey k;
       fallbackTicket := DEFAULT_VLESS_RESUME |} in
  {| x25519 := {| decryption := x25519Decryption; encryption := x25519Encryption |};
     mlkem768 := {| decryption := mlkem768Decryption; encryption := mlkem768Encryption |};
     options := vlessOptions |}.

(** The encoder of the source: over [VLESS_RESUME_OPTIONS]. *)
Definition buildVlessResult (vlessOptions : VlessBuilderOptions) (k : VlessKeys) : VlessResult :=
  buildVlessResultOver VLESS_RESUME_OPTIONS vlessOptions k.

End Encoder.
Import Encoder.

(** ** Text encoding layer *)

Module Base64.

Definition stdAlphabet : jsstring :=
  js "ABCDEFGHIJKLMNOPQRSTUVWXYZabcdefghijklmnopqrstuvwxyz0123456789+/".

Definition urlSafeAlphabet : jsstring :=
  js "ABCDEFGHIJKLMNOPQRSTUVWXYZabcdefghijklmnopqrstuvwxyz0123456789-_".

(** The padding character [=]. *)
Definition pad : N := 61.

Definition encodeSextet (alphabet : jsstring) (n : N) : N :=
  nth (N.to_nat n) alphabet 0.

(** RFC 4648 encoding with padding, three octets to four characters. *)
Fixpoint encode (alphabet : jsstring) (data : list N) : jsstring :=
  let e := encodeSextet alphabet in
  match data with
  | [] => []
  | [a] => [e (a / 4); e ((a mod 4) * 16); pad; pad]
  | [a; b] => [e (a / 4); e ((a mod 4) * 16 + b / 16); e ((b mod 16) * 4); pad]
  | a :: b :: c :: rest =>
      e (a / 4) :: e ((a mod 4) * 16 + b / 16) :: e ((b mod 16) * 4 + c / 64) :: e (c mod 64)
        :: encode alphabet rest
  end.

(** [String.fromCharCode(...bytes)] *)
Definition fromCharCode (bytes : list byte) : jsstring := map Byte.to_N bytes.

(** [btoa]: standard base64 of a binary string; a code unit above 255 is an
    [InvalidCharacterError], rendered as [None]. *)
Definition btoa (s : jsstring) : option jsstring :=
  if forallb (fun c => c <? 256) s then Some (encode stdAlphabet s) else None.

(** [encodeURLSafe] of the base64 library: URL-safe alphabet, padded. *)
Definition encodeURLSafe (bytes : list byte) : jsstring :=
  encode urlSafeAlphabet (map Byte.to_N bytes).

(** [s.replace(/=/g, '')] and [s.replace(/\n/g, '')] *)
Definition removeAll (c : N) (s : jsstring) : jsstring :=
  filter (fun x => negb (x =? c)) s.

Fixpoint indexOf (c : N) (s : jsstring) : option N :=
  match s with
  | [] => None
  | x :: s' => if x =? c then Some 0
               else match indexOf c s' with
                    | Some i => Some (N.succ i)
                    | None => None
                    end
  end.

Definition decodeSextet (c : N) : option N := indexOf c stdAlphabet.

(** Standard base64 decoding (RFC 4648, padded input), the inverse used to
    state the key-length property of generated passwords; the dialog itself
    never decodes. *)
Fixpoint decode (s : jsstring) : option (list N) :=
  match s with
  | [] => Some []
  | a :: b :: c :: d :: rest =>
      match decodeSextet a, decodeSextet b with
      | Some x, Some y =>
          if (c =? pad) && (d =? pad) then
            match rest with
            | [] => Some [x * 4 + y / 16]
            | _ => None
            end
          else
            match decodeSextet c with
            | Some z =>
                if d =? pad then
                  match rest with
                  | [] => Some [x * 4 + y / 16; (y mod 16) * 16 + z / 4]
                  | _ => None
                  end
                else
                  match decodeSextet d, decode rest with
                  | Some w, Some tl =>
                      Some (x * 4 + y / 16 :: (y mod 16) * 16 + z / 4 :: (z mod 4) * 64 + w :: tl)
                  | _, _ => None
                  end
            | None => None
            end
      | _, _ => None
      end
  | _ => None
  end.

End Base64.

(** ** Hexadecimal short identifiers *)

Module Hex.

Definition hexDigit (n : N) : N :=
  if n <? 10 then 48 + n else 87 + n.

(** [byte.toString(16)] for an element of a [Uint8Array]: one or two digits. *)
Definition toString16 (b : byte) : jsstring :=
  let n := Byte.to_N b in
  if n <? 16 then [hexDigit n] else [hexDigit (n / 16); hexDigit (n mod 16)].

(** [Array.from(bytes).map(b => b.toString(16).padStart(2, '0')).join('')] *)
Definition hexOfBytes (bytes : list byte) : jsstring :=
  join [] (map (fun b => padStart 2 48 (toString16 b)) bytes).

End Hex.

(** ** JSON documents *)

Module Json.

(** A JSON number as written: sign, decimal mantissa and power of ten.
    Only whether it converts to zero is ever observed. *)
Record number := {
  num_neg : bool;
  num_mantissa : N;
  num_exp10 : Z
}.

#[local] Set Warnings "-register-all".

Inductive value :=
| JNull
| JBool (b : bool)
| JNumber (n : number)
| JString (s : jsstring)
| JArray (elems : list value)
| JObject (members : list (jsstring * value)).

(** *** Lexer: one code unit at a time *)

Inductive token :=
| TLBrace | TRBrace | TLBracket | TRBracket | TColon | TComma
| TString (s : jsstring)
| TNumber (n : number)
| TTrue | TFalse | TNull.

Definition isJsonWs (c : N) : bool :=
  match c with
  | 9 | 10 | 13 | 32 => true
  | _ => false
  end.

Definition isDigit (c : N) : bool := (48 <=? c) && (c <=? 57).

(** Characters that may occur in a number: digits, sign, point, exponent. *)
Definition isNumberChar (c : N) : bool :=
  isDigit c || match c with 43 | 45 | 46 | 69 | 101 => true | _ => false end.

Definition hexValue (c : N) : option N :=
  if isDigit c then Some (c - 48)
  else if (97 <=? c) && (c <=? 102) then Some (c - 87)
  else if (65 <=? c) && (c <=? 70) then Some (c - 55)
  else None.

Fixpoint span (f : N -> bool) (s : jsstring) : jsstring * jsstring :=
  match s with
  | [] => ([], [])
  | c :: r => if f c then let (p, q) := span f r in (c :: p, q) else ([], s)
  end.

Definition digitsValue (ds : jsstring) : N :=
  fold_left (fun acc d => acc * 10 + (d - 48)) ds 0.

(** The JSON number grammar: an optional minus sign; an integer part that
    is 0 or starts with a non-zero digit; an optional fraction, a point and
    at least one digit; an optional exponent, e or E, an optional sign and
    at least one digit. *)
Definition parseNumber (s : jsstring) : option number :=
  let (neg, s1) := match s with 45 :: r => (true, r) | _ => (false, s) end in
  let (ip, s2) := span isDigit s1 in
  match ip with
  | [] => None
  | 48 :: _ :: _ => None
  | _ =>
      let frac :=
        match s2 with
        | 46 :: r => let (fp, s3) := span isDigit r in
                     match fp with [] => None | _ => Some (fp, s3) end
        | _ => Some ([], s2)
        end in
      match frac with
      | None => None
      | Some (fp, s3) =>
          let expo :=
            match s3 with
            | [] => Some 0%Z
            | c :: r =>
                if (c =? 101) || (c =? 69) then
                  let (eneg, r1) :=
                    match r with
                    | 45 :: r' => (true, r')
                    | 43 :: r' => (false, r')
                    | _ => (false, r)
                    end in
                  let (ep, r2) := span isDigit r1 in
                  match ep, r2 with
                  | _ :: _, [] =>
                      let e := Z.of_N (digitsValue ep) in
                      Some (if eneg then (- e)%Z else e)
                  | _, _ => None
                  end
                else None
            end in
          match expo with
          | None => None
          | Some e =>
              Some {| num_neg := neg;
                      num_mantissa := digitsValue (ip ++ fp);
                      num_exp10 := (e - Z.of_nat (List.length fp))%Z |}
          end
      end
  end.

Inductive lexmode :=
| LTop
| LString (acc : jsstring)
| LEscape (acc : jsstring)
| LUnicode (acc : jsstring) (digits : list N)
| LNumber (acc : jsstring)
| LLiteral (expected : jsstring) (t : token).

Definition lexstate := (lexmode * list token)%type.

(** A code unit met between tokens.  Accumulators are kept reversed. *)
Definition lexTop (toks : list token) (c : N) : option lexstate :=
  if isJsonWs c then Some (LTop, toks)
  else match c with
       | 123 => Some (LTop, TLBrace :: toks)
       | 125 => Some (LTop, TRBrace :: toks)
       | 91 => Some (LTop, TLBracket :: toks)
       | 93 => Some (LTop, TRBracket :: toks)
       | 58 => Some (LTop, TColon :: toks)
       | 44 => Some (LTop, TComma :: toks)
       | 34 => Some (LString [], toks)
       | 116 => Some (LLiteral (js "rue") TTrue, toks)
       | 102 => Some (LLiteral (js "alse") TFalse, toks)
       | 110 => Some (LLiteral (js "ull") TNull, toks)
       | _ => if isDigit c || (c =? 45) then Some (LNumber [c], toks) else None
       end.

Definition lexStep (st : lexstate) (c : N) : option lexstate :=
  let (m, toks) := st in
  match m with
  | LTop => lexTop toks c
  | LString acc =>
      if c =? 34 then Some (LTop, TString (rev acc) :: toks)
      else if c =? 92 then Some (LEscape acc, toks)
      else if c <? 32 then None
      else Some (LString (c :: acc), toks)
  | LEscape acc =>
      match c with
      | 34 | 92 | 47 => Some (LString (c :: acc), toks)
      | 98 => Some (LString (8 :: acc), toks)
      | 102 => Some (LString (12 :: acc), toks)
      | 110 => Some (LString (10 :: acc), toks)
      | 114 => Some (LString (13 :: acc), toks)
      | 116 => Some (LString (9 :: acc), toks)
      | 117 => Some (LUnicode acc [], toks)
      | _ => None
      end
  | LUnicode acc ds =>
      match hexValue c with
      | None => None
      | Some h =>
          match ds with
          | [h3; h2; h1] => Some (LString (((h1 * 16 + h2) * 16 + h3) * 16 + h :: acc), toks)
          | _ => Some (LUnicode acc (h :: ds), toks)
          end
      end
  | LNumber acc =>
      if isNumberChar c then Some (LNumber (c :: acc), toks)
      else match parseNumber (rev acc) with
           | Some n => lexTop (TNumber n :: toks) c
           | None => None
           end
  | LLiteral expected t =>
      match expected with
      | [] => None
      | [x] => if c =? x then Some (LTop, t :: toks) else None
      | x :: rest => if c =? x then Some (LLiteral rest t, toks) else None
      end
  end.

Definition lexEnd (st : lexstate) : option (list token) :=
  let (m, toks) := st in
  match m with
  | LTop => Some (rev toks)
  | LNumber acc =>
      match parseNumber (rev acc) with
      | Some n => Some (rev (TNumber n :: toks))
      | None => None
      end
  | _ => None
  end.

Fixpoint lexRun (st : lexstate) (s : jsstring) : option (list token) :=
  match s with
  | [] => lexEnd st
  | c :: r =>
      match lexStep st c with
      | Some st' => lexRun st' r
      | None => None
      end
  end.

Definition lex (s : jsstring) : option (list token) := lexRun (LTop, []) s.

(** *** Parser: a pushdown machine over the tokens *)

(** An open container: its completed entries (reversed) and, for an object,
    the key whose value is being read. *)
Inductive frame :=
| FArray (elems : list value)
| FObject (members : list (jsstring * value)) (key : option jsstring).

Inductive pmode :=
| PValue        (* a value must follow *)
| PArrayStart   (* after '[': a value or ']' *)
| PObjectStart  (* after '{': a key or '}' *)
| PKey          (* after ',' in an object: a key *)
| PColon        (* after a key: ':' *)
| PAfter        (* after an entry: ',' or the closing bracket *)
| PDone (v : value).

Definition pstate := (pmode * list frame)%type.

(** A value is complete: it is the document, or an entry of the innermost
    open container. *)
Definition reduce (v : value) (stack : list frame) : option pstate :=
  match stack with
  | [] => Some (PDone v, [])
  | FArray elems :: st => Some (PAfter, FArray (v :: elems) :: st)
  | FObject members (Some k) :: st => Some (PAfter, FObject ((k, v) :: members) None :: st)
  | FObject _ None :: _ => None
  end.

Definition startValue (t : token) (stack : list frame) : option pstate :=
  match t with
  | TLBracket => Some (PArrayStart, FArray [] :: stack)
  | TLBrace => Some (PObjectStart, FObject [] None :: stack)
  | TString s => reduce (JString s) stack
  | TNumber n => reduce (JNumber n) stack
  | TTrue => reduce (JBool true) stack
  | TFalse => reduce (JBool false) stack
  | TNull => reduce JNull stack
  | _ => None
  end.

Definition expectKey (t : token) (stack : list frame) : option pstate :=
  match t, stack with
  | TString k, FObject members None :: st => Some (PColon, FObject members (Some k) :: st)
  | _, _ => None
  end.

Definition parseStep (st : pstate) (t : token) : option pstate :=
  let (m, stack) := st in
  match m with
  | PValue => startValue t stack
  | PArrayStart =>
      match t, stack with
      | TRBracket, FArray [] :: st' => reduce (JArray []) st'
      | _, _ => startValue t stack
      end
  | PObjectStart =>
      match t, stack with
      | TRBrace, FObject [] None :: st' => reduce (JObject []) st'
      | _, _ => expectKey t stack
      end
  | PKey => expectKey t stack
  | PColon =>
      match t with
      | TColon => Some (PValue, stack)
      | _ => None
      end
  | PAfter =>
      match t, stack with
      | TComma, FArray _ :: _ => Some (PValue, stack)
      | TRBracket, FArray elems :: st' => reduce (JArray (rev elems)) st'
      | TComma, FObject _ None :: _ => Some (PKey, stack)
      | TRBrace, FObject members None :: st' => reduce (JObject (rev members)) st'
      | _, _ => None
      end
  | PDone _ => None
  end.

Fixpoint parseRun (st : pstate) (ts : list token) : option value :=
  match ts with
  | [] => match st with
          | (PDone v, []) => Some v
          | _ => None
          end
  | t :: r =>
      match parseStep st t with
      | Some st' => parseRun st' r
      | None => None
      end
  end.

(** [JSON.parse(text)]; [None] is the [SyntaxError]. *)
Definition parse (text : jsstring) : option value :=
  match lex text with
  | Some ts => parseRun (PValue, []) ts
  | None => None
  end.

(** *** The operations the dialog applies to a parsed document *)

(** [Number] conversion yields zero exactly when the decimal is zero or at
    most half the least subnormal, [2^-1075]. *)
Definition numberIsZero (n : number) : bool :=
  (num_mantissa n =? 0)
  || ((num_exp10 n <? 0)%Z
      && (Z.of_N (num_mantissa n) * 2 ^ 1075 <=? 10 ^ (- num_exp10 n))%Z).

(** Truthiness of a parsed value, or of [undefined] ([None]). *)
Definition toBoolean (v : option value) : bool :=
  match v with
  | None => false
  | Some JNull => false
  | Some (JBool b) => b
  | Some (JNumber n) => negb (numberIsZero n)
  | Some (JString s) => (0 <? List.length s)%nat
  | Some (JArray _) => true
  | Some (JObject _) => true
  end.

Definition isArray (v : option value) : bool :=
  match v with
  | Some (JArray _) => true
  | _ => false
  end.

(** A duplicated key keeps its last value. *)
Fixpoint lookup (k : jsstring) (members : list (jsstring * value)) : option value :=
  match members with
  | [] => None
  | (k', v) :: rest =>
      match lookup k rest with
      | Some v' => Some v'
      | None => if JsString.eqb k' k then Some v else None
      end
  end.

Inductive access (A : Type) :=
| Got (a : A)
| TypeError.
Arguments Got {A} a.
Arguments TypeError {A}.

(** [v.name] for a name no prototype defines ([inbounds], [tag]): reading
    it off [null] throws, primitives and arrays give [undefined]. *)
Definition getProperty (v : value) (name : jsstring) : access (option value) :=
  match v with
  | JNull => TypeError
  | JObject members => Got (lookup name members)
  | _ => Got None
  end.

End Json.

(** ** The dialog: state, effects and handlers *)

Module Dialog.

Import Base64 Hex.

Record ValidationResult := {
  isValid : bool;
  error : option jsstring
}.

(** The [type] argument of [showResultDialog]; also names the credential
    kinds. *)
Inductive ResultType := keyPair | shortId | shadowsocksPassword | mldsa65 | vlessEncryption.

Record KeyPairValue := {
  publicKey : jsstring;
  privateKey : jsstring
}.

Record ShadowsocksValue := {
  password : jsstring;
  ss_encryptionMethod : jsstring
}.

Record Mldsa65Value := {
  seed : jsstring;
  verify : jsstring
}.

(** The payload shown by the results dialog, one shape per type. *)
Inductive ResultData :=
| DataKeyPair (v : KeyPairValue)
| DataShortId (v : jsstring)
| DataShadowsocks (v : ShadowsocksValue)
| DataMldsa65 (v : Mldsa65Value)
| DataVless (v : VlessResult).

(** A handle on the mounted editor widget. *)
Definition Editor := nat.

(** The [useState] cells of the component. *)
Record State := {
  validation : ValidationResult;
  isEditorReady : bool;
  isEditorFullscreen : bool;
  inboundTags : list jsstring;
  isGeneratingKeyPair : bool;
  isGeneratingShortId : bool;
  isGeneratingVLESSEncryption : bool;
  selectedEncryptionMethod : jsstring;
  isGeneratingShadowsocksPassword : bool;
  isGeneratingMldsa65 : bool;
  selectedVlessVariant : VlessVariant;
  vlessOptions : VlessBuilderOptions;
  isVlessAdvancedModalOpen : bool;
  editorInstance : option Editor;
  isResultsDialogOpen : bool;
  resultType : option ResultType;
  resultData : option ResultData;
  generatedKeyPair : option KeyPairValue;
  generatedShortId : option jsstring;
  generatedShadowsocksPassword : option ShadowsocksValue;
  generatedMldsa65 : option Mldsa65Value;
  generatedVLESS : option VlessResult
}.

(** The setters of the cells: each replaces one field. *)
Definition setValidation (v : ValidationResult) (s : State) : State :=
  Build_State v (isEditorReady s) (isEditorFullscreen s) (inboundTags s) (isGeneratingKeyPair s)
    (isGeneratingShortId s) (isGeneratingVLESSEncryption s) (selectedEncryptionMethod s)
    (isGeneratingShadowsocksPassword s) (isGeneratingMldsa65 s) (selectedVlessVariant s)
    (vlessOptions s) (isVlessAdvancedModalOpen s) (editorInstance s) (isResultsDialogOpen s)
    (resultType s) (resultData s) (generatedKeyPair s) (generatedShortId s)
    (generatedShadowsocksPassword s) (generatedMldsa65 s) (generatedVLESS s).

Definition setIsEditorReady (v : bool) (s : State) : State :=
  Build_State (validation s) v (isEditorFullscreen s) (inboundTags s) (isGeneratingKeyPair s)
    (isGeneratingShortId s) (isGeneratingVLESSEncryption s) (selectedEncryptionMethod s)
    (isGeneratingShadowsocksPassword s) (isGeneratingMldsa65 s) (selectedVlessVariant s)
    (vlessOptions s) (isVlessAdvancedModalOpen s) (editorInstance s) (isResultsDialogOpen s)
    (resultType s) (resultData s) (generatedKeyPair s) (generatedShortId s)
    (generatedShadowsocksPassword s) (generatedMldsa65 s) (generatedVLESS s).

Definition setIsEditorFullscreen (v : bool) (s : State) : State :=
  Build_State (validation s) (isEditorReady s) v (inboundTags s) (isGeneratingKeyPair s)
    (isGeneratingShortId s) (isGeneratingVLESSEncryption s) (selectedEncryptionMethod s)
    (isGeneratingShadowsocksPassword s) (isGeneratingMldsa65 s) (selectedVlessVariant s)
    (vlessOptions s) (isVlessAdvancedModalOpen s) (editorInstance s) (isResultsDialogOpen s)
    (resultType s) (resultData s) (generatedKeyPair s) (generatedShortId s)
    (generatedShadowsocksPassword s) (generatedMldsa65 s) (generatedVLESS s).

Definition setInboundTags (v : list jsstring) (s : State) : State :=
  Build_State (validation s) (isEditorReady s) (isEditorFullscreen s) v (isGeneratingKeyPair s)
    (isGeneratingShortId s) (isGeneratingVLESSEncryption s) (selectedEncryptionMethod s)
    (isGeneratingShadowsocksPassword s) (isGeneratingMldsa65 s) (selectedVlessVariant s)
    (vlessOptions s) (isVlessAdvancedModalOpen s) (editorInstance s) (isResultsDialogOpen s)
    (resultType s) (resultData s) (generatedKeyPair s) (generatedShortId s)
    (generatedShadowsocksPassword s) (generatedMldsa65 s) (generatedVLESS s).

Definition setIsGeneratingKeyPair (v : bool) (s : State) : State :=
  Build_State (validation s) (isEditorReady s) (isEditorFullscreen s) (inboundTags s) v
    (isGeneratingShortId s) (isGeneratingVLESSEncryption s) (selectedEncryptionMethod s)
    (isGeneratingShadowsocksPassword s) (isGeneratingMldsa65 s) (selectedVlessVariant s)
    (vlessOptions s) (isVlessAdvancedModalOpen s) (editorInstance s) (isResultsDialogOpen s)
    (resultType s) (resultData s) (generatedKeyPair s) (generatedShortId s)
    (generatedShadowsocksPassword s) (generatedMldsa65 s) (generatedVLESS s).

Definition setIsGeneratingShortId (v : bool) (s : State) : State :=
  Build_State (validation s) (isEditorReady s) (isEditorFullscreen s) (inboundTags s)
    (isGeneratingKeyPair s) v (isGeneratingVLESSEncryption s) (selectedEncryptionMethod s)
    (isGeneratingShadowsocksPassword s) (isGeneratingMldsa65 s) (selectedVlessVariant s)
    (vlessOptions s) (isVlessAdvancedModalOpen s) (editorInstance s) (isResultsDialogOpen s)
    (resultType s) (resultData s) (generatedKeyPair s) (generatedShortId s)
    (generatedShadowsocksPassword s) (generatedMldsa65 s) (generatedVLESS s).

Definition setIsGeneratingVLESSEncryption (v : bool) (s : State) : State :=
  Build_State (validation s) (isEditorReady s) (isEditorFullscreen s) (inboundTags s)
    (isGeneratingKeyPair s) (isGeneratingShortId s) v (selectedEncryptionMethod s)
    (isGeneratingShadowsocksPassword s) (isGeneratingMldsa65 s) (selectedVlessVariant s)
    (vlessOptions s) (isVlessAdvancedModalOpen s) (editorInstance s) (isResultsDialogOpen s)
    (resultType s) (resultData s) (generatedKeyPair s) (generatedShortId s)
    (generatedShadowsocksPassword s) (generatedMldsa65 s) (generatedVLESS s).

Definition setSelectedEncryptionMethod (v : jsstring) (s : State) : State :=
  Build_State (validation s) (isEditorReady s) (isEditorFullscreen s) (inboundTags s)
    (isGeneratingKeyPair s) (isGeneratingShortId s) (isGeneratingVLESSEncryption s) v
    (isGeneratingShadowsocksPassword s) (isGeneratingMldsa65 s) (selectedVlessVariant s)
    (vlessOptions s) (isVlessAdvancedModalOpen s) (editorInstance s) (isResultsDialogOpen s)
    (resultType s) (resultData s) (generatedKeyPair s) (generatedShortId s)
    (generatedShadowsocksPassword s) (generatedMldsa65 s) (generatedVLESS s).

Definition setIsGeneratingShadowsocksPassword (v : bool) (s : State) : State :=
  Build_State (validation s) (isEditorReady s) (isEditorFullscreen s) (inboundTags s)
    (isGeneratingKeyPair s) (isGeneratingShortId s) (isGeneratingVLESSEncryption s)
    (selectedEncryptionMethod s) v (isGeneratingMldsa65 s) (selectedVlessVariant s)
    (vlessOptions s) (isVlessAdvancedModalOpen s) (editorInstance s) (isResultsDialogOpen s)
    (resultType s) (resultData s) (generatedKeyPair s) (generatedShortId s)
    (generatedShadowsocksPassword s) (generatedMldsa65 s) (generatedVLESS s).

Definition setIsGeneratingMldsa65 (v : bool) (s : State) : State :=
  Build_State (validation s) (isEditorReady s) (isEditorFullscreen s) (inboundTags s)
    (isGeneratingKeyPair s) (isGeneratingShortId s) (isGeneratingVLESSEncryption s)
    (selectedEncryptionMethod s) (isGeneratingShadowsocksPassword s) v (selectedVlessVariant s)
    (vlessOptions s) (isVlessAdvancedModalOpen s) (editorInstance s) (isResultsDialogOpen s)
    (resultType s) (resultData s) (generatedKeyPair s) (generatedShortId s)
    (generatedShadowsocksPassword s) (generatedMldsa65 s) (generatedVLESS s).

Definition setSelectedVlessVariant (v : VlessVariant) (s : State) : State :=
  Build_State (validation s) (isEditorReady s) (isEditorFullscreen s) (inboundTags s)
    (isGeneratingKeyPair s) (isGeneratingShortId s) (isGeneratingVLESSEncryption s)
    (selectedEncryptionMethod s) (isGeneratingShadowsocksPassword s) (isGeneratingMldsa65 s) v
    (vlessOptions s) (isVlessAdvancedModalOpen s) (editorInstance s) (isResultsDialogOpen s)
    (resultType s) (resultData s) (generatedKeyPair s) (generatedShortId s)
    (generatedShadowsocksPassword s) (generatedMldsa65 s) (generatedVLESS s).

Definition setVlessOptions (v : VlessBuilderOptions) (s : State) : State :=
  Build_State (validation s) (isEditorReady s) (isEditorFullscreen s) (inboundTags s)
    (isGeneratingKeyPair s) (isGeneratingShortId s) (isGeneratingVLESSEncryption s)
    (selectedEncryptionMethod s) (isGeneratingShadowsocksPassword s) (isGeneratingMldsa65 s)
    (selectedVlessVariant s) v (isVlessAdvancedModalOpen s) (editorInstance s)
    (isResultsDialogOpen s) (resultType s) (resultData s) (generatedKeyPair s) (generatedShortId
    s) (generatedShadowsocksPassword s) (generatedMldsa65 s) (generatedVLESS s).

Definition setIsVlessAdvancedModalOpen (v : bool) (s : State) : State :=
  Build_State (validation s) (isEditorReady s) (isEditorFullscreen s) (inboundTags s)
    (isGeneratingKeyPair s) (isGeneratingShortId s) (isGeneratingVLESSEncryption s)
    (selectedEncryptionMethod s) (isGeneratingShadowsocksPassword s) (isGeneratingMldsa65 s)
    (selectedVlessVariant s) (vlessOptions s) v (editorInstance s) (isResultsDialogOpen s)
    (resultType s) (resultData s) (generatedKeyPair s) (generatedShortId s)
    (generatedShadowsocksPassword s) (generatedMldsa65 s) (generatedVLESS s).

Definition setEditorInstance (v : option Editor) (s : State) : State :=
  Build_State (validation s) (isEditorReady s) (isEditorFullscreen s) (inboundTags s)
    (isGeneratingKeyPair s) (isGeneratingShortId s) (isGeneratingVLESSEncryption s)
    (selectedEncryptionMethod s) (isGeneratingShadowsocksPassword s) (isGeneratingMldsa65 s)
    (selectedVlessVariant s) (vlessOptions s) (isVlessAdvancedModalOpen s) v
    (isResultsDialogOpen s) (resultType s) (resultData s) (generatedKeyPair s) (generatedShortId
    s) (generatedShadowsocksPassword s) (generatedMldsa65 s) (generatedVLESS s).

Definition setIsResultsDialogOpen (v : bool) (s : State) : State :=
  Build_State (validation s) (isEditorReady s) (isEditorFullscreen s) (inboundTags s)
    (isGeneratingKeyPair s) (isGeneratingShortId s) (isGeneratingVLESSEncryption s)
    (selectedEncryptionMethod s) (isGeneratingShadowsocksPassword s) (isGeneratingMldsa65 s)
    (selectedVlessVariant s) (vlessOptions s) (isVlessAdvancedModalOpen s) (editorInstance s) v
    (resultType s) (resultData s) (generatedKeyPair s) (generatedShortId s)
    (generatedShadowsocksPassword s) (generatedMldsa65 s) (generatedVLESS s).

Definition setResultType (v : option ResultType) (s : State) : State :=
  Build_State (validation s) (isEditorReady s) (isEditorFullscreen s) (inboundTags s)
    (isGeneratingKeyPair s) (isGeneratingShortId s) (isGeneratingVLESSEncryption s)
    (selectedEncryptionMethod s) (isGeneratingShadowsocksPassword s) (isGeneratingMldsa65 s)
    (selectedVlessVariant s) (vlessOptions s) (isVlessAdvancedModalOpen s) (editorInstance s)
    (isResultsDialogOpen s) v (resultData s) (generatedKeyPair s) (generatedShortId s)
    (generatedShadowsocksPassword s) (generatedMldsa65 s) (generatedVLESS s).

Definition setResultData (v : option ResultData) (s : State) : State :=
  Build_State (validation s) (isEditorReady s) (isEditorFullscreen s) (inboundTags s)
    (isGeneratingKeyPair s) (isGeneratingShortId s) (isGeneratingVLESSEncryption s)
    (selectedEncryptionMethod s) (isGeneratingShadowsocksPassword s) (isGeneratingMldsa65 s)
    (selectedVlessVariant s) (vlessOptions s) (isVlessAdvancedModalOpen s) (editorInstance s)
    (isResultsDialogOpen s) (resultType s) v (generatedKeyPair s) (generatedShortId s)
    (generatedShadowsocksPassword s) (generatedMldsa65 s) (generatedVLESS s).

Definition setGeneratedKeyPair (v : option KeyPairValue) (s : State) : State :=
  Build_State (validation s) (isEditorReady s) (isEditorFullscreen s) (inboundTags s)
    (isGeneratingKeyPair s) (isGeneratingShortId s) (isGeneratingVLESSEncryption s)
    (selectedEncryptionMethod s) (isGeneratingShadowsocksPassword s) (isGeneratingMldsa65 s)
    (selectedVlessVariant s) (vlessOptions s) (isVlessAdvancedModalOpen s) (editorInstance s)
    (isResultsDialogOpen s) (resultType s) (resultData s) v (generatedShortId s)
    (generatedShadowsocksPassword s) (generatedMldsa65 s) (generatedVLESS s).

Definition setGeneratedShortId (v : option jsstring) (s : State) : State :=
  Build_State (validation s) (isEditorReady s) (isEditorFullscreen s) (inboundTags s)
    (isGeneratingKeyPair s) (isGeneratingShortId s) (isGeneratingVLESSEncryption s)
    (selectedEncryptionMethod s) (isGeneratingShadowsocksPassword s) (isGeneratingMldsa65 s)
    (selectedVlessVariant s) (vlessOptions s) (isVlessAdvancedModalOpen s) (editorInstance s)
    (isResultsDialogOpen s) (resultType s) (resultData s) (generatedKeyPair s) v
    (generatedShadowsocksPassword s) (generatedMldsa65 s) (generatedVLESS s).

Definition setGeneratedShadowsocksPassword (v : option ShadowsocksValue) (s : State) : State :=
  Build_State (validation s) (isEditorReady s) (isEditorFullscreen s) (inboundTags s)
    (isGeneratingKeyPair s) (isGeneratingShortId s) (isGeneratingVLESSEncryption s)
    (selectedEncryptionMethod s) (isGeneratingShadowsocksPassword s) (isGeneratingMldsa65 s)
    (selectedVlessVariant s) (vlessOptions s) (isVlessAdvancedModalOpen s) (editorInstance s)
    (isResultsDialogOpen s) (resultType s) (resultData s) (generatedKeyPair s) (generatedShortId
    s) v (generatedMldsa65 s) (generatedVLESS s).

Definition setGeneratedMldsa65 (v : option Mldsa65Value) (s : State) : State :=
  Build_State (validation s) (isEditorReady s) (isEditorFullscreen s) (inboundTags s)
    (isGeneratingKeyPair s) (isGeneratingShortId s) (isGeneratingVLESSEncryption s)
    (selectedEncryptionMethod s) (isGeneratingShadowsocksPassword s) (isGeneratingMldsa65 s)
    (selectedVlessVariant s) (vlessOptions s) (isVlessAdvancedModalOpen s) (editorInstance s)
    (isResultsDialogOpen s) (resultType s) (resultData s) (generatedKeyPair s) (generatedShortId
    s) (generatedShadowsocksPassword s) v (generatedVLESS s).

Definition setGeneratedVLESS (v : option VlessResult) (s : State) : State :=
  Build_State (validation s) (isEditorReady s) (isEditorFullscreen s) (inboundTags s)
    (isGeneratingKeyPair s) (isGeneratingShortId s) (isGeneratingVLESSEncryption s)
    (selectedEncryptionMethod s) (isGeneratingShadowsocksPassword s) (isGeneratingMldsa65 s)
    (selectedVlessVariant s) (vlessOptions s) (isVlessAdvancedModalOpen s) (editorInstance s)
    (isResultsDialogOpen s) (resultType s) (resultData s) (generatedKeyPair s) (generatedShortId
    s) (generatedShadowsocksPassword s) (generatedMldsa65 s) v.

Definition initialState : State :=
  {| validation := {| isValid := true; error := None |};
     isEditorReady := false;
     isEditorFullscreen := false;
     inboundTags := [];
     isGeneratingKeyPair := false;
     isGeneratingShortId := false;
     isGeneratingVLESSEncryption := false;
     selectedEncryptionMethod := js "2022-blake3-aes-128-gcm";
     isGeneratingShadowsocksPassword := false;
     isGeneratingMldsa65 := false;
     selectedVlessVariant := x25519_variant;
     vlessOptions := createDefaultVlessOptions;
     isVlessAdvancedModalOpen := false;
     editorInstance := None;
     isResultsDialogOpen := false;
     resultType := None;
     resultData := None;
     generatedKeyPair := None;
     generatedShortId := None;
     generatedShadowsocksPassword := None;
     generatedMldsa65 := None;
     generatedVLESS := None |}.

(** What a [throw] carries: an [Error] with its message, or anything else. *)
Inductive exn :=
| JsError (message : jsstring)
| NonError.

(** Text handed to a toast: a translation key, or a literal message. *)
Inductive Message :=
| T (key : jsstring)
| Literal (text : jsstring).

Inductive Toast :=
| toast_success (m : Message)
| toast_error (m : Message).

(** The collaborators outside the component.  [scalarMultBase] is the
    X25519 base-point multiplication, [deriveKeyPair] the ML-KEM-768
    derivation of (public, secret) from a seed, which may reject.
    [generateMldsa65] (utils/mldsa65) is not among the sources at hand: from
    the random bytes available it either yields seed and verification key or
    throws, and leaves the bytes it did not use. *)
Record Platform := {
  scalarMultBase : list byte -> list byte;
  deriveKeyPair : list byte -> exn + (list byte * list byte);
  generateMldsa65 : list byte -> (exn + Mldsa65Value) * list byte
}.

(** The component in its environment.  [entropy] holds the bytes the random
    source will deliver, in order; [toasts] the notifications shown, oldest
    first; [generationCalls] records every entry into a generation handler,
    oldest first (it exists only to count invocations). *)
Record World := {
  state : State;
  entropy : list byte;
  toasts : list Toast;
  generationCalls : list ResultType;
  platform : Platform
}.

Definition mapState (f : State -> State) (w : World) : World :=
  {| state := f (state w); entropy := entropy w; toasts := toasts w;
     generationCalls := generationCalls w; platform := platform w |}.

Definition setEntropy (e : list byte) (w : World) : World :=
  {| state := state w; entropy := e; toasts := toasts w;
     generationCalls := generationCalls w; platform := platform w |}.

Definition addToast (t : Toast) (w : World) : World :=
  {| state := state w; entropy := entropy w; toasts := toasts w ++ [t];
     generationCalls := generationCalls w; platform := platform w |}.

Definition addCall (k : ResultType) (w : World) : World :=
  {| state := state w; entropy := entropy w; toasts := toasts w;
     generationCalls := generationCalls w ++ [k]; platform := platform w |}.

(** *** Statements with completions *)

(** How a block ends: normally, by [return], or by a throw. *)
Inductive completion (A : Type) :=
| Normal (a : A)
| Returned
| Thrown (e : exn).
Arguments Normal {A} a.
Arguments Returned {A}.
Arguments Thrown {A} e.

Definition M (A : Type) := World -> completion A * World.

Definition ret {A} (a : A) : M A := fun w => (Normal a, w).

Definition bind {A B} (c : M A) (k : A -> M B) : M B :=
  fun w =>
    match c w with
    | (Normal a, w') => k a w'
    | (Returned, w') => (Returned, w')
    | (Thrown e, w') => (Thrown e, w')
    end.

Notation "x <- c ;; k" := (bind c (fun x => k))
  (at level 61, c at next level, right associativity).
Notation "c ;; k" := (bind c (fun _ => k))
  (at level 61, right associativity).

Definition throw {A} (e : exn) : M A := fun w => (Thrown e, w).
Definition return_ {A} : M A := fun w => (Returned, w).
Definition get : M World := fun w => (Normal w, w).
Definition update (f : State -> State) : M unit := fun w => (Normal tt, mapState f w).

(** [try { body } catch (e) { handler } finally { finalizer }]: the finalizer
    always runs; its own abrupt completion, if any, wins. *)
Definition tryCatchFinally (body : M unit) (handler : exn -> M unit) (finalizer : M unit) : M unit :=
  fun w =>
    let (c1, w1) := body w in
    let (c2, w2) := match c1 with
                    | Thrown e => handler e w1
                    | _ => (c1, w1)
                    end in
    let (c3, w3) := finalizer w2 in
    match c3 with
    | Normal _ => (c2, w3)
    | _ => (c3, w3)
    end.

Definition tryCatch (body : M unit) (handler : exn -> M unit) : M unit :=
  fun w =>
    match body w with
    | (Thrown e, w1) => handler e w1
    | r => r
    end.

(** A call statement [f()] of an [async] function whose promise is dropped:
    the caller goes on whatever the completion. *)
Definition call (f : M unit) : M unit :=
  fun w => (Normal tt, snd (f w)).

Definition exec (f : M unit) (w : World) : World := snd (f w).

(** *** Platform operations *)

(** [crypto.getRandomValues] on a fresh [Uint8Array(n)]; throws when the
    source cannot serve the request. *)
Definition getRandomValues (n : nat) : M (list byte) :=
  fun w =>
    if (n <=? List.length (entropy w))%nat
    then (Normal (firstn n (entropy w)), setEntropy (skipn n (entropy w)) w)
    else (Thrown (JsError (js "random source unavailable")), w).

Record RawKeyPair := {
  rawPublicKey : list byte;
  secretKey : list byte
}.

(** [generateKeyPair] of the X25519 library: 32 random bytes are the secret
    key, the public key is its base-point multiple. *)
Definition generateKeyPair : M RawKeyPair :=
  randomSeed <- getRandomValues 32 ;;
  p <- (fun w => (Normal (platform w), w)) ;;
  ret {| rawPublicKey := scalarMultBase p randomSeed; secretKey := randomSeed |}.

Definition toast (t : Toast) : M unit := fun w => (Normal tt, addToast t w).

(** Ghost step at the entry of a generation handler. *)
Definition invoked (k : ResultType) : M unit := fun w => (Normal tt, addCall k w).

(** *** Handlers *)

Definition showResultDialog (type : ResultType) (data : ResultData) : M unit :=
  update (setResultType (Some type)) ;;
  update (setResultData (Some data)) ;;
  update (setIsResultsDialogOpen true).

(** Each generation handler is [try { ... } catch { ... } finally { ... }];
    the [try] block is named apart so that its completion can be spoken of. *)

Definition generatePrivateAndPublicKey_try : M unit :=
  update (setIsGeneratingKeyPair true) ;;
  keyPairRaw <- generateKeyPair ;;
  let formattedKeyPair :=
    {| privateKey := removeAll 10 (removeAll 61 (encodeURLSafe (secretKey keyPairRaw)));
       publicKey := removeAll 10 (removeAll 61 (encodeURLSafe (rawPublicKey keyPairRaw))) |} in
  update (setGeneratedKeyPair (Some formattedKeyPair)) ;;
  showResultDialog keyPair (DataKeyPair formattedKeyPair) ;;
  toast (toast_success (T (js "coreConfigModal.keyPairGenerated"))).

Definition generatePrivateAndPublicKey : M unit :=
  invoked keyPair ;;
  tryCatchFinally
    generatePrivateAndPublicKey_try
    (fun _ => toast (toast_error (T (js "coreConfigModal.keyPairGenerationFailed"))))
    (update (setIsGeneratingKeyPair false)).

Definition generateShortId_try : M unit :=
  update (setIsGeneratingShortId true) ;;
  randomBytes <- getRandomValues 8 ;;
  let shortIdValue := hexOfBytes randomBytes in
  update (setGeneratedShortId (Some shortIdValue)) ;;
  showResultDialog shortId (DataShortId shortIdValue) ;;
  toast (toast_success (T (js "coreConfigModal.shortIdGenerated"))).

Definition generateShortId : M unit :=
  invoked shortId ;;
  tryCatchFinally
    generateShortId_try
    (fun _ => toast (toast_error (T (js "coreConfigModal.shortIdGenerationFailed"))))
    (update (setIsGeneratingShortId false)).

Definition generateShadowsocksPassword_try (value : jsstring) : M unit :=
  update (setIsGeneratingShadowsocksPassword true) ;;
  match find (fun m => JsString.eqb (ss_value m) value) SHADOWSOCKS_ENCRYPTION_METHODS with
  | None => return_
  | Some method =>
      randomBytes <- getRandomValues (ss_length method) ;;
      match btoa (fromCharCode randomBytes) with
      | None => throw (JsError (js "InvalidCharacterError"))
      | Some passwordValue =>
          let result := {| password := passwordValue; ss_encryptionMethod := ss_label method |} in
          update (setGeneratedShadowsocksPassword (Some result)) ;;
          showResultDialog shadowsocksPassword (DataShadowsocks result) ;;
          toast (toast_success (T (js "coreConfigModal.shadowsocksPasswordGenerated")))
      end
  end.

Definition generateShadowsocksPassword (value : jsstring) : M unit :=
  invoked shadowsocksPassword ;;
  tryCatchFinally
    (generateShadowsocksPassword_try value)
    (fun _ => toast (toast_error (T (js "coreConfigModal.shadowsocksPasswordGenerationFailed"))))
    (update (setIsGeneratingShadowsocksPassword false)).

(** [await generateMldsa65()] *)
Definition awaitGenerateMldsa65 : M Mldsa65Value :=
  fun w =>
    match generateMldsa65 (platform w) (entropy w) with
    | (inr v, rest) => (Normal v, setEntropy rest w)
    | (inl e, rest) => (Thrown e, setEntropy rest w)
    end.

Definition handleGenerateMldsa65_try : M unit :=
  update (setIsGeneratingMldsa65 true) ;;
  result <- awaitGenerateMldsa65 ;;
  update (setGeneratedMldsa65 (Some result)) ;;
  showResultDialog mldsa65 (DataMldsa65 result) ;;
  toast (toast_success (T (js "coreConfigModal.mldsa65Generated"))).

(** [error instanceof Error ? error.message : t(...)] *)
Definition handleGenerateMldsa65_catch (e : exn) : M unit :=
  let message :=
    match e with
    | JsError m => Literal m
    | NonError => T (js "coreConfigModal.mldsa65GenerationFailed")
    end in
  toast (toast_error message).

Definition handleGenerateMldsa65 : M unit :=
  invoked mldsa65 ;;
  tryCatchFinally
    handleGenerateMldsa65_try
    handleGenerateMldsa65_catch
    (update (setIsGeneratingMldsa65 false)).

(** [await mlkem768.deriveKeyPair(seed)], keeping the first component. *)
Definition awaitDeriveKeyPair (mlkemSeed : list byte) : M (list byte) :=
  fun w =>
    match deriveKeyPair (platform w) mlkemSeed with
    | inr (client, _) => (Normal client, w)
    | inl e => (Thrown e, w)
    end.

Definition generateVLESSEncryption_try : M unit :=
  update (setIsGeneratingVLESSEncryption true) ;;
  x25519KeyPair <- generateKeyPair ;;
  let x25519Server := removeAll 61 (encodeURLSafe (secretKey x25519KeyPair)) in
  let x25519Client := removeAll 61 (encodeURLSafe (rawPublicKey x25519KeyPair)) in
  mlkem768Seed <- getRandomValues 64 ;;
  mlkem768Client <- awaitDeriveKeyPair mlkem768Seed ;;
  let mlkem768Server := removeAll 61 (encodeURLSafe mlkem768Seed) in
  let mlkem768ClientK := removeAll 61 (encodeURLSafe mlkem768Client) in
  w <- get ;;
  let data := buildVlessResult (vlessOptions (state w))
    {| x25519ServerKey := x25519Server; x25519ClientKey := x25519Client;
       mlkem768ServerKey := mlkem768Server; mlkem768ClientKey := mlkem768ClientK |} in
  update (setGeneratedVLESS (Some data)) ;;
  showResultDialog vlessEncryption (DataVless data) ;;
  toast (toast_success (T (js "coreConfigModal.vlessEncryptionGenerated"))).

Definition generateVLESSEncryption : M unit :=
  invoked vlessEncryption ;;
  tryCatchFinally
    generateVLESSEncryption_try
    (fun _ => toast (toast_error (T (js "coreConfigModal.vlessEncryptionGenerationFailed"))))
    (update (setIsGeneratingVLESSEncryption false)).

(** The effect keyed on [isDialogOpen] ("cleanup on modal close").  It ends
    with the source's remark: generated values are not cleared, they are
    kept for reuse. *)
Definition cleanupOnClose (isDialogOpen : bool) : M unit :=
  if negb isDialogOpen then
    update (setIsEditorFullscreen false) ;;
    update (setIsResultsDialogOpen false) ;;
    update (setResultType None) ;;
    update (setResultData None) ;;
    update (setSelectedVlessVariant x25519_variant) ;;
    update (setVlessOptions createDefaultVlessOptions) ;;
    update (setValidation {| isValid := true; error := None |}) ;;
    update (setEditorInstance None) ;;
    update (setIsEditorReady false)
  else ret tt.

Definition viewKeyPair : M unit :=
  w <- get ;;
  match generatedKeyPair (state w) with
  | Some v => showResultDialog keyPair (DataKeyPair v)
  | None => call generatePrivateAndPublicKey
  end.

(** [if (generatedShortId)]: the empty string counts as absent. *)
Definition viewShortId : M unit :=
  w <- get ;;
  match generatedShortId (state w) with
  | Some (c :: v) => showResultDialog shortId (DataShortId (c :: v))
  | _ => call generateShortId
  end.

Definition viewShadowsocksPassword : M unit :=
  w <- get ;;
  match generatedShadowsocksPassword (state w) with
  | Some v => showResultDialog shadowsocksPassword (DataShadowsocks v)
  | None => call (generateShadowsocksPassword (selectedEncryptionMethod (state w)))
  end.

Definition viewMldsa65 : M unit :=
  w <- get ;;
  match generatedMldsa65 (state w) with
  | Some v => showResultDialog mldsa65 (DataMldsa65 v)
  | None => call handleGenerateMldsa65
  end.

Definition viewVLESS : M unit :=
  w <- get ;;
  match generatedVLESS (state w) with
  | Some v => showResultDialog vlessEncryption (DataVless v)
  | None => update (setIsVlessAdvancedModalOpen true)
  end.

(** The [onClick] of the results dialog's regenerate button. *)
Definition regenerateClick : M unit :=
  w <- get ;;
  match resultType (state w) with
  | Some keyPair => call generatePrivateAndPublicKey
  | Some shortId => call generateShortId
  | Some shadowsocksPassword =>
      call (generateShadowsocksPassword (selectedEncryptionMethod (state w)))
  | Some mldsa65 => call handleGenerateMldsa65
  | Some vlessEncryption =>
      update (setIsVlessAdvancedModalOpen true) ;;
      update (setIsResultsDialogOpen false)
  | None => ret tt
  end.

Definition handleVlessVariantChange (value : jsstring) : M unit :=
  if JsString.eqb value (js "x25519") then update (setSelectedVlessVariant x25519_variant)
  else if JsString.eqb value (js "mlkem768") then update (setSelectedVlessVariant mlkem768_variant)
  else ret tt.

(** *** Inbound tags of the edited document *)

Import Json.

Definition liftAccess {A} (a : access A) : M A :=
  match a with
  | Got x => ret x
  | TypeError => throw (JsError (js "TypeError"))
  end.

Definition JSON_parse (text : jsstring) : M value :=
  match parse text with
  | Some v => ret v
  | None => throw (JsError (js "SyntaxError"))
  end.

(** The filter callback:
    [typeof inbound.tag === 'string' && inbound.tag.trim() !== ''] *)
Definition hasTag (inbound : value) : access bool :=
  match getProperty inbound (js "tag") with
  | TypeError => TypeError
  | Got (Some (JString s)) => Got (negb (JsString.eqb (trim s) []))
  | Got _ => Got false
  end.

(** [Array.prototype.filter] with a callback that may throw. *)
Fixpoint filterAccess {A} (f : A -> access bool) (l : list A) : access (list A) :=
  match l with
  | [] => Got []
  | x :: r =>
      match f x with
      | TypeError => TypeError
      | Got keep =>
          match filterAccess f r with
          | TypeError => TypeError
          | Got r' => Got (if keep then x :: r' else r')
          end
      end
  end.

(** The map callback [inbound => inbound.tag].  The filter has kept only
    elements whose tag is a string; anything else would give no text. *)
Definition tagOf (inbound : value) : jsstring :=
  match getProperty inbound (js "tag") with
  | Got (Some (JString s)) => s
  | _ => []
  end.

(** The function wrapped by [debounce(..., 300)]; the delay only schedules
    it. *)
Definition debouncedConfigChange (value : jsstring) : M unit :=
  tryCatch
    (parsedConfig <- JSON_parse value ;;
     inbounds <- liftAccess (getProperty parsedConfig (js "inbounds")) ;;
     if toBoolean inbounds && isArray inbounds then
       match inbounds with
       | Some (JArray elems) =>
           kept <- liftAccess (filterAccess hasTag elems) ;;
           update (setInboundTags (map tagOf kept))
       | _ => update (setInboundTags [])
       end
     else update (setInboundTags []))
    (fun _ => update (setInboundTags [])).

(** The effect on the [config] field: a non-empty text is handed to the
    debounced function. *)
Definition configEffect (configValue : jsstring) : M unit :=
  match configValue with
  | [] => ret tt
  | _ => debouncedConfigChange configValue
  end.

(** *** Kinds, uniformly *)

(** The cache cell of a kind, as the payload the results dialog would show. *)
Definition cached (k : ResultType) (s : State) : option ResultData :=
  match k with
  | keyPair => option_map DataKeyPair (generatedKeyPair s)
  | shortId => option_map DataShortId (generatedShortId s)
  | shadowsocksPassword => option_map DataShadowsocks (generatedShadowsocksPassword s)
  | mldsa65 => option_map DataMldsa65 (generatedMldsa65 s)
  | vlessEncryption => option_map DataVless (generatedVLESS s)
  end.

(** Empties the cache cell of a kind. *)
Definition forget (k : ResultType) (s : State) : State :=
  match k with
  | keyPair => setGeneratedKeyPair None s
  | shortId => setGeneratedShortId None s
  | shadowsocksPassword => setGeneratedShadowsocksPassword None s
  | mldsa65 => setGeneratedMldsa65 None s
  | vlessEncryption => setGeneratedVLESS None s
  end.

Definition generating (k : ResultType) (s : State) : bool :=
  match k with
  | keyPair => isGeneratingKeyPair s
  | shortId => isGeneratingShortId s
  | shadowsocksPassword => isGeneratingShadowsocksPassword s
  | mldsa65 => isGeneratingMldsa65 s
  | vlessEncryption => isGeneratingVLESSEncryption s
  end.

(** The generation handler of a kind, as the buttons call it. *)
Definition generate (k : ResultType) : M unit :=
  match k with
  | keyPair => generatePrivateAndPublicKey
  | shortId => generateShortId
  | shadowsocksPassword =>
      fun w => generateShadowsocksPassword (selectedEncryptionMethod (state w)) w
  | mldsa65 => handleGenerateMldsa65
  | vlessEncryption => generateVLESSEncryption
  end.

(** The [try] block of the generation handler of a kind. *)
Definition tryBlock (k : ResultType) : M unit :=
  match k with
  | keyPair => generatePrivateAndPublicKey_try
  | shortId => generateShortId_try
  | shadowsocksPassword =>
      fun w => generateShadowsocksPassword_try (selectedEncryptionMethod (state w)) w
  | mldsa65 => handleGenerateMldsa65_try
  | vlessEncryption => generateVLESSEncryption_try
  end.

(** The [catch] block of the generation handler of a kind. *)
Definition catchBlock (k : ResultType) (e : exn) : M unit :=
  match k with
  | keyPair => toast (toast_error (T (js "coreConfigModal.keyPairGenerationFailed")))
  | shortId => toast (toast_error (T (js "coreConfigModal.shortIdGenerationFailed")))
  | shadowsocksPassword =>
      toast (toast_error (T (js "coreConfigModal.shadowsocksPasswordGenerationFailed")))
  | mldsa65 => handleGenerateMldsa65_catch e
  | vlessEncryption =>
      toast (toast_error (T (js "coreConfigModal.vlessEncryptionGenerationFailed")))
  end.

(** The setter of the in-progress flag of a kind. *)
Definition setGenerating (k : ResultType) (b : bool) (s : State) : State :=
  match k with
  | keyPair => setIsGeneratingKeyPair b s
  | shortId => setIsGeneratingShortId b s
  | shadowsocksPassword => setIsGeneratingShadowsocksPassword b s
  | mldsa65 => setIsGeneratingMldsa65 b s
  | vlessEncryption => setIsGeneratingVLESSEncryption b s
  end.

Definition kindOf (d : ResultData) : ResultType :=
  match d with
  | DataKeyPair _ => keyPair
  | DataShortId _ => shortId
  | DataShadowsocks _ => shadowsocksPassword
  | DataMldsa65 _ => mldsa65
  | DataVless _ => vlessEncryption
  end.

(** Puts a value into the cache cell of its kind. *)
Definition store (d : ResultData) (s : State) : State :=
  match d with
  | DataKeyPair v => setGeneratedKeyPair (Some v) s
  | DataShortId v => setGeneratedShortId (Some v) s
  | DataShadowsocks v => setGeneratedShadowsocksPassword (Some v) s
  | DataMldsa65 v => setGeneratedMldsa65 (Some v) s
  | DataVless v => setGeneratedVLESS (Some v) s
  end.

(** The state change of [showResultDialog]. *)
Definition shown (d : ResultData) (s : State) : State :=
  setIsResultsDialogOpen true (setResultData (Some d) (setResultType (Some (kindOf d)) s)).

(** The view handler of a kind. *)
Definition view (k : ResultType) : M unit :=
  match k with
  | keyPair => viewKeyPair
  | shortId => viewShortId
  | shadowsocksPassword => viewShadowsocksPassword
  | mldsa65 => viewMldsa65
  | vlessEncryption => viewVLESS
  end.

(** Number of entries into the generation handler of a kind so far. *)
Definition calls (k : ResultType) (w : World) : nat :=
  List.length (filter (fun k' => match k, k' with
                                 | keyPair, keyPair | shortId, shortId
                                 | shadowsocksPassword, shadowsocksPassword
                                 | mldsa65, mldsa65 | vlessEncryption, vlessEncryption => true
                                 | _, _ => false
                                 end) (generationCalls w)).

(** The notification that reports a successful generation of a kind. *)
Definition successToast (k : ResultType) : Toast :=
  toast_success (T (js match k with
                       | keyPair => "coreConfigModal.keyPairGenerated"
                       | shortId => "coreConfigModal.shortIdGenerated"
                       | shadowsocksPassword => "coreConfigModal.shadowsocksPasswordGenerated"
                       | mldsa65 => "coreConfigModal.mldsa65Generated"
                       | vlessEncryption => "coreConfigModal.vlessEncryptionGenerated"
                       end)).

(** A validation marker of the editor; only its message is read. *)
Record Marker := {
  marker_message : jsstring
}.

(** [handleEditorValidation].  The [config] text comes from the form, which
    lives outside the component: it is an argument.  Toast options (duration,
    position) are not modelled. *)
Definition handleEditorValidation (formConfig : jsstring) (markers : list Marker) : M unit :=
  match markers with
  | first :: _ =>
      update (setValidation {| isValid := false; error := Some (marker_message first) |}) ;;
      toast (toast_error (Literal (marker_message first)))
  | [] =>
      tryCatch
        (JSON_parse formConfig ;;
         update (setValidation {| isValid := true; error := None |}))
        (fun e =>
           let errorMessage :=
             match e with
             | JsError m => m
             | NonError => js "Invalid JSON"
             end in
           update (setValidation {| isValid := false; error := Some errorMessage |}) ;;
           toast (toast_error (Literal errorMessage)))
  end.

(** [handleToggleFullscreen]: the cell is negated; the layout calls that
    follow act on the editor object, not on the cells. *)
Definition handleToggleFullscreen : M unit :=
  update (fun s => setIsEditorFullscreen (negb (isEditorFullscreen s)) s).

(** [handleEditorDidMount]: the editor is ready and its handle is kept; the
    layout calls that follow act on the editor object. *)
Definition handleEditorDidMount (editor : Editor) : M unit :=
  update (setIsEditorReady true) ;;
  update (setEditorInstance (Some editor)).

(** *** What can happen to the mounted dialog *)

Inductive Action :=
| ClickViewKeyPair
| ClickViewMldsa65
| ClickViewShortId
| ClickViewShadowsocksPassword
| ClickViewVLESS
| ClickRegenerate
| ClickGenerateVLESS
| CloseResults
| SelectEncryptionMethod (value : jsstring)
| ChangeVlessVariant (value : jsstring)
| EditVlessOptions (o : VlessBuilderOptions)
| SetAdvancedModalOpen (open : bool)
| DialogOpenChanged (isDialogOpen : bool)
| ConfigChanged (text : jsstring)
| Outside (e : list byte) (p : Platform)
| ResultsOpenChanged (open : bool)
| ToggleFullscreen
| EditorDidMount (editor : Editor)
| EditorValidation (formConfig : jsstring) (markers : list Marker).

(** One event.  The selectors and the [onOpenChange] of the two inner
    dialogs are given the setters themselves, so they store whatever value
    they are called with; [Outside] lets the random source and the platform
    move on. *)
Definition step (a : Action) (w : World) : World :=
  match a with
  | ClickViewKeyPair => exec viewKeyPair w
  | ClickViewMldsa65 => exec viewMldsa65 w
  | ClickViewShortId => exec viewShortId w
  | ClickViewShadowsocksPassword => exec viewShadowsocksPassword w
  | ClickViewVLESS => exec viewVLESS w
  | ClickRegenerate => exec regenerateClick w
  | ClickGenerateVLESS => exec generateVLESSEncryption w
  | CloseResults => exec (update (setIsResultsDialogOpen false)) w
  | SelectEncryptionMethod value => exec (update (setSelectedEncryptionMethod value)) w
  | ChangeVlessVariant value => exec (handleVlessVariantChange value) w
  | EditVlessOptions o => exec (update (setVlessOptions o)) w
  | SetAdvancedModalOpen open => exec (update (setIsVlessAdvancedModalOpen open)) w
  | DialogOpenChanged isDialogOpen => exec (cleanupOnClose isDialogOpen) w
  | ConfigChanged text => exec (configEffect text) w
  | Outside e p =>
      {| state := state w; entropy := e; toasts := toasts w;
         generationCalls := generationCalls w; platform := p |}
  | ResultsOpenChanged open => exec (update (setIsResultsDialogOpen open)) w
  | ToggleFullscreen => exec handleToggleFullscreen w
  | EditorDidMount editor => exec (handleEditorDidMount editor) w
  | EditorValidation formConfig markers => exec (handleEditorValidation formConfig markers) w
  end.

Definition initialWorld (e : list byte) (p : Platform) : World :=
  {| state := initialState; entropy := e; toasts := []; generationCalls := []; platform := p |}.

(** The worlds the mounted dialog can be in between events, each handler
    having run to its end. *)
Inductive reachable : World -> Prop :=
| reachable_initial : forall e p, reachable (initialWorld e p)
| reachable_step : forall a w, reachable w -> reachable (step a w).

End Dialog.

(** ** The encoder as the specification describes it

    These definitions follow the wording of the specification; the
    properties below compare them with [buildVlessResult]. *)

Module Described.

Inductive Role := Server | Client.

Definition ticketOf (o : VlessBuilderOptions) (r : Role) : jsstring :=
  match r with Server => serverTicket o | Client => clientTicket o end.

Definition paddingOf (o : VlessBuilderOptions) (r : Role) : jsstring :=
  match r with Server => serverPadding o | Client => clientPadding o end.

Definition includeOf (o : VlessBuilderOptions) (r : Role) : bool :=
  match r with Server => includeServerPadding o | Client => includeClientPadding o end.

(** The server falls back to the default ticket, the client to the first
    of the enumerated resumption options. *)
Definition fallbackTicketOf (r : Role) : option jsstring :=
  match r with
  | Server => Some DEFAULT_VLESS_SERVER_TICKET
  | Client => nth_error (map opt_value VLESS_RESUME_OPTIONS) 0
  end.

Definition tokenOf (k : VlessKeys) (v : VlessVariant) (r : Role) : jsstring :=
  match v, r with
  | x25519_variant, Server => x25519ServerKey k
  | x25519_variant, Client => x25519ClientKey k
  | mlkem768_variant, Server => mlkem768ServerKey k
  | mlkem768_variant, Client => mlkem768ClientKey k
  end.

(** The string of a variant and role in a result: [decryption] is the
    server's, [encryption] the client's. *)
Definition output (res : VlessResult) (v : VlessVariant) (r : Role) : jsstring :=
  let strings := match v with x25519_variant => x25519 res | mlkem768_variant => mlkem768 res end in
  match r with Server => decryption strings | Client => encryption strings end.

(** Empty or white space only. *)
Definition blank (s : jsstring) : bool := forallb isWhiteSpace s.

(** "if absent or empty after trimming, substitute the default" *)
Definition orDefault (s : jsstring) (fallback : jsstring) : jsstring :=
  if blank s then fallback else trim s.

Definition pieces (s : jsstring) : list jsstring :=
  filter (fun p => negb (JsString.eqb p [])) (map trim (split dot s)).

(** Padding pieces, the default padding standing in for a blank string. *)
Definition paddingPieces (padding : jsstring) : list jsstring :=
  pieces (if blank padding then DEFAULT_VLESS_PADDING else padding).

(** Padding pieces read to the letter: the default padding stands in only
    for the empty string. *)
Definition paddingPiecesIfEmpty (padding : jsstring) : list jsstring :=
  pieces (match padding with [] => DEFAULT_VLESS_PADDING | _ => padding end).

(** Steps 1 to 4: the segments derived from the options alone. *)
Definition optionSegments (o : VlessBuilderOptions) (r : Role) : list jsstring :=
  [ orDefault (handshakeMethod o) DEFAULT_VLESS_HANDSHAKE;
    orDefault (encryptionMethod o) DEFAULT_VLESS_ENCRYPTION;
    orDefault (ticketOf o r) (match fallbackTicketOf r with Some t => t | None => [] end) ]
  ++ (if includeOf o r then paddingPieces (paddingOf o r) else []).

Definition toggleClientPadding (o : VlessBuilderOptions) : VlessBuilderOptions :=
  {| handshakeMethod := handshakeMethod o;
     encryptionMethod := encryptionMethod o;
     serverTicket := serverTicket o;
     clientTicket := clientTicket o;
     serverPadding := serverPadding o;
     clientPadding := clientPadding o;
     includeServerPadding := includeServerPadding o;
     includeClientPadding := negb (includeClientPadding o) |}.

(** The options of the documented example, the remaining fields free. *)
Definition exampleOptions (ct sp cp : jsstring) (isp icp : bool) : VlessBuilderOptions :=
  {| handshakeMethod := js "mlkem768x25519plus";
     encryptionMethod := js "native";
     serverTicket := js "600s";
     clientTicket := ct;
     serverPadding := sp;
     clientPadding := cp;
     includeServerPadding := isp;
     includeClientPadding := icp |}.

(** Keys whose server tokens are both the given one. *)
Definition serverToken (token ck mc : jsstring) : VlessKeys :=
  {| x25519ServerKey := token; x25519ClientKey := ck;
     mlkem768ServerKey := token; mlkem768ClientKey := mc |}.

(** The padding rule with the default standing in only for the empty
    string, as a statement about the encoder. *)
Definition padding_rule_if_empty : Prop :=
  forall o k v r,
    includeOf o r = true ->
    output (buildVlessResult o k) v r =
    join [dot] ([ orDefault (handshakeMethod o) DEFAULT_VLESS_HANDSHAKE;
                  orDefault (encryptionMethod o) DEFAULT_VLESS_ENCRYPTION;
                  orDefault (ticketOf o r) (match fallbackTicketOf r with Some t => t | None => [] end) ]
                ++ paddingPiecesIfEmpty (paddingOf o r) ++ [tokenOf k v r]).

(** "Toggling only includeClientPadding must change the encryption outputs
    of both variants", as a statement about the encoder. *)
Definition toggle_changes_both : Prop :=
  forall o k v,
    output (buildVlessResult (toggleClientPadding o) k) v Client
    <> output (buildVlessResult o k) v Client.

End Described.

(** ** The dialog as the specification describes it *)

Module Stated.

Import Dialog Json.

(** "On dialog close, the entire cache is cleared." *)
Definition cache_cleared_on_close : Prop :=
  forall w k, cached k (state (exec (cleanupOnClose false) w)) = None.

(** "Explicit regenerate always invokes generation", for every kind shown
    in the results dialog. *)
Definition regenerate_always_generates : Prop :=
  forall w k,
    resultType (state w) = Some k ->
    calls k (exec regenerateClick w) = S (calls k w).

(** The [inbounds] array of a document, if it has one. *)
Definition inboundsOf (doc : value) : option (list value) :=
  match doc with
  | JObject members =>
      match lookup (js "inbounds") members with
      | Some (JArray elems) => Some elems
      | _ => None
      end
  | _ => None
  end.

(** The [tag] field of an element, when it is a string. *)
Definition tagText (elem : value) : option jsstring :=
  match elem with
  | JObject members =>
      match lookup (js "tag") members with
      | Some (JString s) => Some s
      | _ => None
      end
  | _ => None
  end.

(** The tags that pass [keep], in document order. *)
Definition collectTags (keep : jsstring -> bool) (elems : list value) : list jsstring :=
  flat_map (fun elem => match tagText elem with
                        | Some s => if keep s then [s] else []
                        | None => []
                        end) elems.

Definition nonEmpty (s : jsstring) : bool := negb (JsString.eqb s []).

(** Extraction to the letter: every tag that is a non-empty string. *)
Definition tagsIfNonEmpty (text : jsstring) : list jsstring :=
  match parse text with
  | None => []
  | Some doc =>
      match inboundsOf doc with
      | Some elems => collectTags nonEmpty elems
      | None => []
      end
  end.

Definition extraction_keeps_non_empty_tags : Prop :=
  forall text w,
    inboundTags (state (exec (debouncedConfigChange text) w)) = tagsIfNonEmpty text.

(** The text of the documented example. *)
Definition exampleDocument : jsstring :=
  [123; 34] ++ js "inbounds" ++ [34; 58; 91;
   123; 34] ++ js "tag" ++ [34; 58; 34; 65; 34; 125; 44;
   123; 34] ++ js "tag" ++ [34; 58; 34; 34; 125; 44;
   123; 34] ++ js "notag" ++ [34; 58; 49; 125; 93; 125].

(** A platform to run examples on; its functions are placeholders of the
    right shape, not the cryptographic ones. *)
Definition examplePlatform : Platform :=
  {| scalarMultBase := fun secret => rev secret;
     deriveKeyPair := fun mlkemSeed => inr (firstn 32 mlkemSeed, skipn 32 mlkemSeed);
     generateMldsa65 := fun e => (inl NonError, e) |}.

(** A document whose only inbound has a single space as its tag, and one
    whose first inbound is [null]. *)
Definition blankTagDocument : jsstring :=
  [123; 34] ++ js "inbounds" ++ [34; 58; 91;
   123; 34] ++ js "tag" ++ [34; 58; 34; 32; 34; 125; 93; 125].

Definition nullElementDocument : jsstring :=
  [123; 34] ++ js "inbounds" ++ [34; 58; 91] ++ js "null" ++ [44;
   123; 34] ++ js "tag" ++ [34; 58; 34; 65; 34; 125; 93; 125].

(** A tag that is not blank: something is left after trimming. *)
Definition nonBlank (s : jsstring) : bool := negb (JsString.eqb (trim s) []).

(** A generated short identifier in the cache is never the empty string. *)
Definition shortIdPresent (w : World) : Prop :=
  generatedShortId (state w) <> Some [].

End Stated.

(** ** Further handlers of the dialog *)

Module Widgets.

Import Dialog Json.

(** The [onValueChange] of the selectors of the fallback and the excluded
    inbounds.  [fieldValue] is [field.value], an array or [undefined]; the
    result is the field value after the handler, unchanged where it does not
    call [field.onChange]. *)
Definition selectTag (fieldValue : option (list jsstring)) (value : jsstring)
  : option (list jsstring) :=
  match value with
  | [] => fieldValue
  | _ =>
      if JsString.eqb (trim value) [] then fieldValue
      else
        let currentValue := match fieldValue with Some l => l | None => [] end in
        if existsb (JsString.eqb value) currentValue then fieldValue
        else Some (currentValue ++ [value])
  end.

(** The [onClick] of the cross beside a selected tag:
    [(field.value || []).filter(t => t !== tag)]. *)
Definition removeTag (fieldValue : option (list jsstring)) (tag : jsstring)
  : option (list jsstring) :=
  let currentValue := match fieldValue with Some l => l | None => [] end in
  Some (filter (fun t => negb (JsString.eqb t tag)) currentValue).

(** A field of the results dialog: the translation key of its label and the
    text shown and copied. *)
Record DataField := {
  field_label : jsstring;
  field_value : jsstring
}.

(** [renderContent] of the results dialog: the fields shown, [None] where it
    renders nothing.  [resultData.publicKey || ''] and its like give the
    empty string when the payload has no such property. *)
Definition renderContent (s : State) (d : ResultData) (type : ResultType)
  : option (list DataField) :=
  match type with
  | keyPair =>
      Some [ {| field_label := js "coreConfigModal.publicKey";
                field_value := match d with DataKeyPair v => publicKey v | _ => [] end |};
             {| field_label := js "coreConfigModal.privateKey";
                field_value := match d with DataKeyPair v => privateKey v | _ => [] end |} ]
  | shortId =>
      Some [ {| field_label := js "coreConfigModal.shortId";
                field_value := match d with DataShortId v => v | _ => [] end |} ]
  | shadowsocksPassword =>
      Some [ {| field_label := js "coreConfigModal.shadowsocksPassword";
                field_value := match d with DataShadowsocks v => password v | _ => [] end |} ]
  | mldsa65 =>
      Some [ {| field_label := js "coreConfigModal.mldsa65Seed";
                field_value := match d with DataMldsa65 v => seed v | _ => [] end |};
             {| field_label := js "coreConfigModal.mldsa65Verify";
                field_value := match d with DataMldsa65 v => verify v | _ => [] end |} ]
  | vlessEncryption =>
      match d with
      | DataVless v =>
          let currentValues :=
            match selectedVlessVariant s with
            | x25519_variant => x25519 v
            | mlkem768_variant => mlkem768 v
            end in
          Some [ {| field_label := js "coreConfigModal.decryption";
                    field_value := decryption currentValues |};
                 {| field_label := js "coreConfigModal.encryption";
                    field_value := encryption currentValues |} ]
      | _ => None
      end
  end.

(** A [Dialog] element: its [open] attribute and its content. *)
Record DialogElement := {
  dialog_open : bool;
  dialog_content : option (list DataField)
}.

(** [renderResultDialog]: [null] unless a type and a payload are set, else
    the [Dialog], open as the cell says, around the content. *)
Definition renderResultDialog (s : State) : option DialogElement :=
  match resultType s, resultData s with
  | Some type, Some d =>
      Some {| dialog_open := isResultsDialogOpen s;
              dialog_content := renderContent s d type |}
  | _, _ => None
  end.

(** What a rendered [Dialog] puts on the screen: its content while it is
    open, nothing otherwise. *)
Definition onScreen (e : option DialogElement) : option (list DataField) :=
  match e with
  | Some d => if dialog_open d then dialog_content d else None
  | None => None
  end.

(** The tags a field holds, none when it is [undefined]. *)
Definition selected (fieldValue : option (list jsstring)) : list jsstring :=
  match fieldValue with Some l => l | None => [] end.

End Widgets.

(** ** The list of cores *)

Module Cores.

Definition comma : N := 44.

(** The fields of a core read here.  The type comes from the generated API
    client; [name] is read with [?.], [exclude_inbound_tags] is tested for
    presence. *)
Record CoreResponse := {
  core_id : N;
  core_name : option jsstring;
  exclude_inbound_tags : option (list jsstring)
}.

(** The [excluded_inbound_ids] that [handleEdit] puts into the form:
    [tags.join(',').split(',').map(id => id.trim()).filter(id => id.trim() !== '')],
    the empty list when the core has no tags. *)
Definition excludedInboundIds (core : CoreResponse) : list jsstring :=
  match exclude_inbound_tags core with
  | Some tags =>
      filter (fun id => negb (JsString.eqb (trim id) []))
             (map trim (split comma (join [comma] tags)))
  | None => []
  end.

Fixpoint startsWith (prefix s : jsstring) : bool :=
  match prefix, s with
  | [], _ => true
  | p :: prefix', c :: s' => (p =? c) && startsWith prefix' s'
  | _ :: _, [] => false
  end.

(** [s.includes(q)] *)
Fixpoint includes (s q : jsstring) : bool :=
  startsWith q s
  || match s with
     | [] => false
     | _ :: s' => includes s' q
     end.

(** [filteredCores].  [toLowerCase] is the built-in of strings; it is an
    argument, nothing is assumed of it. *)
Definition filteredCores (toLowerCase : jsstring -> jsstring)
    (coresList : list CoreResponse) (searchQuery : jsstring) : list CoreResponse :=
  match trim searchQuery with
  | [] => coresList
  | _ =>
      let query := trim (toLowerCase searchQuery) in
      filter (fun core =>
                match core_name core with
                | Some name => includes (toLowerCase name) query
                | None => false
                end) coresList
  end.

End Cores.

(** A piece that is kept: nothing to trim, something left, no separator. *)
Definition cleanPiece (sep : N) (p : jsstring) : Prop :=
  trim p = p /\ p <> [] /\ ~ In sep p.

(** ** Decoders, to state round trips

    The dialog only encodes; these inverses say what its encodings carry. *)

Module Decoding.

Import Base64.

Definition isLowerHex (c : N) : bool :=
  ((48 <=? c) && (c <=? 57)) || ((97 <=? c) && (c <=? 102)).

Definition lowerHexValue (c : N) : option N :=
  if (48 <=? c) && (c <=? 57) then Some (c - 48)
  else if (97 <=? c) && (c <=? 102) then Some (c - 87)
  else None.

(** Two lowercase hexadecimal digits per byte. *)
Fixpoint hexDecode (s : jsstring) : option (list byte) :=
  match s with
  | [] => Some []
  | hi :: lo :: rest =>
      match lowerHexValue hi, lowerHexValue lo, hexDecode rest with
      | Some h, Some l, Some bytes =>
          match Byte.of_N (h * 16 + l) with
          | Some b => Some (b :: bytes)
          | None => None
          end
      | _, _, _ => None
      end
  | [_] => None
  end.

(** Base64 without padding over a given alphabet (RFC 4648, section 3.2). *)
Fixpoint decodeUnpadded (alphabet : jsstring) (s : jsstring) : option (list N) :=
  let d c := indexOf c alphabet in
  match s with
  | [] => Some []
  | [a; b] =>
      match d a, d b with
      | Some x, Some y => Some [x * 4 + y / 16]
      | _, _ => None
      end
  | [a; b; c] =>
      match d a, d b, d c with
      | Some x, Some y, Some z => Some [x * 4 + y / 16; (y mod 16) * 16 + z / 4]
      | _, _, _ => None
      end
  | a :: b :: c :: e :: rest =>
      match d a, d b, d c, d e, decodeUnpadded alphabet rest with
      | Some x, Some y, Some z, Some w, Some tl =>
          Some (x * 4 + y / 16 :: (y mod 16) * 16 + z / 4 :: (z mod 4) * 64 + w :: tl)
      | _, _, _, _, _ => None
      end
  | [_] => None
  end.

(** The text of a key as the dialog shows it: URL-safe, padding removed. *)
Definition keyText (bytes : list byte) : jsstring :=
  removeAll 61 (encodeURLSafe bytes).

(** The key material behind each token of a VLESS result. *)
Definition material (p : Dialog.Platform) (secret mlkemSeed client : list byte)
    (v : VlessVariant) (r : Described.Role) : list byte :=
  match v, r with
  | x25519_variant, Described.Server => secret
  | x25519_variant, Described.Client => Dialog.scalarMultBase p secret
  | mlkem768_variant, Described.Server => mlkemSeed
  | mlkem768_variant, Described.Client => client
  end.

End Decoding.

(** ** What the reachable states keep *)

Module Invariants.

Import Dialog Widgets Decoding.

(** The values the results dialog shows for a payload, for the selected
    variant. *)
Definition shownValues (v : VlessVariant) (d : ResultData) : list jsstring :=
  match d with
  | DataKeyPair kp => [publicKey kp; privateKey kp]
  | DataShortId id => [id]
  | DataShadowsocks ss => [password ss]
  | DataMldsa65 keys => [seed keys; verify keys]
  | DataVless res => [Described.output res v Described.Server;
                      Described.output res v Described.Client]
  end.

(** Where a cached value comes from: the random bytes, and for keys the
    platform of the moment, that its generator turned into it. *)
Definition wellFormed (d : ResultData) : Prop :=
  match d with
  | DataKeyPair kp =>
      exists p secret,
        List.length secret = 32%nat
        /\ privateKey kp = keyText secret
        /\ publicKey kp = keyText (scalarMultBase p secret)
  | DataShortId id =>
      exists bytes, List.length bytes = 8%nat /\ id = Hex.hexOfBytes bytes
  | DataShadowsocks ss =>
      exists m bytes,
        In m SHADOWSOCKS_ENCRYPTION_METHODS
        /\ List.length bytes = ss_length m
        /\ ss_encryptionMethod ss = ss_label m
        /\ password ss = Base64.encode Base64.stdAlphabet (Base64.fromCharCode bytes)
  | DataMldsa65 _ => True
  | DataVless res =>
      exists o p secret mlkemSeed client other,
        List.length secret = 32%nat
        /\ List.length mlkemSeed = 64%nat
        /\ deriveKeyPair p mlkemSeed = inr (client, other)
        /\ res = buildVlessResult o
                   {| x25519ServerKey := keyText secret;
                      x25519ClientKey := keyText (scalarMultBase p secret);
                      mlkem768ServerKey := keyText mlkemSeed;
                      mlkem768ClientKey := keyText client |}
  end.

(** The state after an event that is no generation and shows nothing: the
    cache, the type and payload of the results dialog and the in-progress
    flags are as before. *)
Definition quiet (s s' : State) : Prop :=
  (forall k, cached k s' = cached k s)
  /\ resultType s' = resultType s
  /\ resultData s' = resultData s
  /\ (forall k, generating k s' = generating k s).

(** The results dialog holds nothing, or a payload under the type of its
    kind that is the value cached for that kind. *)
Definition resultsAgree (s : State) : Prop :=
  match resultData s with
  | None => resultType s = None
  | Some d => resultType s = Some (kindOf d) /\ cached (kindOf d) s = Some d
  end.

(** Every cached value is well formed. *)
Definition cacheWellFormed (s : State) : Prop :=
  forall k d, cached k s = Some d -> wellFormed d.

End Invariants.

(** * Properties *)

(** ** Facts about trimming, splitting and joining *)

Section TextFacts.

Lemma dropWhile_app {A} (f : A -> bool) (s t : list A) :
  dropWhile f (s ++ t) = if forallb f s then dropWhile f t else dropWhile f s ++ t.
Proof.
  induction s as [|c s IH]; simpl; [reflexivity|].
  destruct (f c); simpl; [exact IH | reflexivity].
Qed.

Lemma trim_cons_ws c s : isWhiteSpace c = true -> trim (c :: s) = trim s.
Proof. intros Hc. unfold trim, trimStart. simpl. now rewrite Hc. Qed.

Lemma trimEnd_snoc_ws c s : isWhiteSpace c = true -> trimEnd (s ++ [c]) = trimEnd s.
Proof. intros Hc. unfold trimEnd. rewrite rev_app_distr. simpl. now rewrite Hc. Qed.

Lemma trimEnd_snoc_other c s : isWhiteSpace c = false -> trimEnd (s ++ [c]) = s ++ [c].
Proof.
  intros Hc. unfold trimEnd. rewrite rev_app_distr. simpl. rewrite Hc.
  simpl. now rewrite rev_involutive.
Qed.

Lemma trim_snoc_ws c s : isWhiteSpace c = true -> trim (s ++ [c]) = trim s.
Proof.
  intros Hc. unfold trim, trimStart. rewrite dropWhile_app.
  destruct (forallb isWhiteSpace s) eqn:Hall.
  - simpl. rewrite Hc.
    assert (Hnil : dropWhile isWhiteSpace s = []).
    { clear -Hall. induction s as [|x s IH]; simpl in *; [reflexivity|].
      apply andb_prop in Hall as [Hx Hs]. rewrite Hx. auto. }
    now rewrite Hnil.
  - now apply trimEnd_snoc_ws.
Qed.

(** Trimming leaves nothing exactly when every code unit is white space. *)
Lemma trim_nil_iff s : trim s = [] <-> forallb isWhiteSpace s = true.
Proof.
  unfold trim, trimStart. split.
  - induction s as [|c s IH]; simpl; [reflexivity|].
    destruct (isWhiteSpace c) eqn:Hc; simpl; [exact IH|].
    intros H. exfalso. revert H.
    assert (Hne : forall t, trimEnd (c :: t) <> []).
    { intros t. induction t as [|x t IHt] using rev_ind.
      - unfold trimEnd. simpl. now rewrite Hc.
      - change (c :: t ++ [x]) with ((c :: t) ++ [x]).
        destruct (isWhiteSpace x) eqn:Hx.
        + now rewrite trimEnd_snoc_ws.
        + rewrite trimEnd_snoc_other by assumption. now destruct t. }
    apply Hne.
  - induction s as [|c s IH]; simpl; [reflexivity|].
    intros H. apply andb_prop in H as [Hc Hs]. rewrite Hc. auto.
Qed.

Lemma split_not_nil sep s : split sep s <> [].
Proof.
  destruct s as [|c s]; simpl; [discriminate|].
  destruct (c =? sep); [discriminate|]. now destruct (split sep s).
Qed.

Lemma split_cons_other sep c s :
  (c =? sep) = false ->
  exists p ps, split sep s = p :: ps /\ split sep (c :: s) = (c :: p) :: ps.
Proof.
  intros Hc. simpl. rewrite Hc.
  destruct (split sep s) as [|p ps] eqn:E.
  - now apply split_not_nil in E.
  - now exists p, ps.
Qed.

Lemma split_snoc_other sep c s :
  (c =? sep) = false ->
  exists ps p, split sep s = ps ++ [p] /\ split sep (s ++ [c]) = ps ++ [p ++ [c]].
Proof.
  intros Hc. induction s as [|x s (ps & p & E1 & E2)]; simpl.
  - rewrite Hc. now exists [], [].
  - rewrite E1, E2. destruct (x =? sep).
    + now exists ([] :: ps), p.
    + destruct ps as [|q qs]; simpl.
      * now exists [], (x :: p).
      * now exists ((x :: q) :: qs), p.
Qed.

Lemma ws_not_dot c : isWhiteSpace c = true -> (c =? dot) = false.
Proof.
  intros Hc. destruct (N.eqb_spec c dot) as [->|]; [discriminate | reflexivity].
Qed.

Lemma sanitizeSegments_cons_ws c s :
  isWhiteSpace c = true -> sanitizeSegments (c :: s) = sanitizeSegments s.
Proof.
  intros Hc. unfold sanitizeSegments.
  destruct (split_cons_other dot c s (ws_not_dot c Hc)) as (p & ps & E1 & E2).
  rewrite E1, E2. simpl. now rewrite (trim_cons_ws c p Hc).
Qed.

Lemma sanitizeSegments_snoc_ws c s :
  isWhiteSpace c = true -> sanitizeSegments (s ++ [c]) = sanitizeSegments s.
Proof.
  intros Hc. unfold sanitizeSegments.
  destruct (split_snoc_other dot c s (ws_not_dot c Hc)) as (ps & p & E1 & E2).
  rewrite E1, E2, !map_app, !filter_app. simpl. now rewrite (trim_snoc_ws c p Hc).
Qed.

Lemma sanitizeSegments_trimStart s : sanitizeSegments (trimStart s) = sanitizeSegments s.
Proof.
  unfold trimStart. induction s as [|c s IH]; simpl; [reflexivity|].
  destruct (isWhiteSpace c) eqn:Hc; [|reflexivity].
  now rewrite IH, sanitizeSegments_cons_ws.
Qed.

Lemma sanitizeSegments_trimEnd s : sanitizeSegments (trimEnd s) = sanitizeSegments s.
Proof.
  induction s as [|c s IH] using rev_ind; [reflexivity|].
  destruct (isWhiteSpace c) eqn:Hc.
  - now rewrite trimEnd_snoc_ws, sanitizeSegments_snoc_ws.
  - now rewrite trimEnd_snoc_other.
Qed.

(** Trimming the whole string first does not change the sanitized pieces. *)
Lemma sanitizeSegments_trim s : sanitizeSegments (trim s) = sanitizeSegments s.
Proof.
  unfold trim. now rewrite sanitizeSegments_trimEnd, sanitizeSegments_trimStart.
Qed.

Lemma normalizeOption_Some v fallback :
  normalizeOption (Some v) fallback = match trim v with [] => fallback | t => t end.
Proof.
  destruct v as [|c v]; [reflexivity|].
  unfold normalizeOption. now destruct (trim (c :: v)).
Qed.


Lemma join_cons sep p q rest : join sep (p :: q :: rest) = p ++ sep ++ join sep (q :: rest).
Proof. reflexivity. Qed.

Lemma join_app_last sep xs y :
  xs <> [] -> join sep (xs ++ [y]) = join sep xs ++ sep ++ y.
Proof.
  induction xs as [|x xs IH]; [congruence|]. intros _.
  destruct xs as [|x' xs]; [reflexivity|].
  change ((x :: x' :: xs) ++ [y]) with (x :: x' :: (xs ++ [y])).
  rewrite !join_cons. change (x' :: xs ++ [y]) with ((x' :: xs) ++ [y]).
  rewrite IH by discriminate. now rewrite <- !app_assoc.
Qed.

Lemma join_app sep xs ys :
  xs <> [] -> ys <> [] -> join sep (xs ++ ys) = join sep xs ++ sep ++ join sep ys.
Proof.
  intros Hx Hy. revert xs Hx. induction ys as [|y ys IH] using rev_ind; [congruence|].
  intros xs Hx. destruct ys as [|y' ys].
  - simpl. now apply join_app_last.
  - rewrite app_assoc, join_app_last by now destruct xs.
    rewrite IH by (discriminate || assumption).
    rewrite (join_app_last sep (y' :: ys) y) by discriminate.
    now rewrite <- !app_assoc.
Qed.

End TextFacts.

(** ** The parameter encoder *)

Section EncoderFacts.

Import Described.

Lemma blank_trim s : blank s = true <-> trim s = [].
Proof. unfold blank. symmetry. apply trim_nil_iff. Qed.

Lemma normalizeOption_orDefault s fallback :
  normalizeOption (Some s) fallback = orDefault s fallback.
Proof.
  rewrite normalizeOption_Some. unfold orDefault.
  destruct (blank s) eqn:B.
  - apply blank_trim in B. now rewrite B.
  - destruct (trim s) eqn:E; [|reflexivity].
    apply blank_trim in E. congruence.
Qed.

Lemma pieces_sanitizeSegments s : sanitizeSegments s = pieces s.
Proof.
  unfold sanitizeSegments, pieces. apply filter_ext. now intros [|c p].
Qed.

Lemma default_padding_not_blank : blank DEFAULT_VLESS_PADDING = false.
Proof. reflexivity. Qed.

(** The padding segments of the code are the pieces of the padding string,
    or of the default padding when the string is blank. *)
Lemma sanitize_normalized_padding padding :
  sanitizeSegments (normalizeOption (Some padding) DEFAULT_VLESS_PADDING) = paddingPieces padding.
Proof.
  rewrite normalizeOption_orDefault. unfold orDefault, paddingPieces.
  destruct (blank padding).
  - apply pieces_sanitizeSegments.
  - rewrite sanitizeSegments_trim. apply pieces_sanitizeSegments.
Qed.

Lemma buildConfig_segments h e a :
  buildConfig h e a =
  join [dot] ([h; e; orDefault (ticketValue a) (fallbackTicket a)]
              ++ (if includePadding a then paddingPieces (paddingValue a) else [])
              ++ [authParam a]).
Proof.
  unfold buildConfig. rewrite normalizeOption_orDefault, sanitize_normalized_padding.
  destruct (includePadding a); [|reflexivity].
  now rewrite <- app_assoc.
Qed.

(** Over any enumeration, every output of the encoder is the two methods,
    the normalized ticket of its role, the padding pieces if included and
    the token, joined by dots; the client's ticket falls back to the first
    value of the enumeration. *)
Lemma output_segments_over resumeOptions o k v r :
  output (buildVlessResultOver resumeOptions o k) v r =
  join [dot] ([ orDefault (handshakeMethod o) DEFAULT_VLESS_HANDSHAKE;
                orDefault (encryptionMethod o) DEFAULT_VLESS_ENCRYPTION;
                normalizeOption (Some (ticketOf o r))
                  (match r with
                   | Server => DEFAULT_VLESS_SERVER_TICKET
                   | Client => firstValue resumeOptions
                   end) ]
              ++ (if includeOf o r then paddingPieces (paddingOf o r) else [])
              ++ [tokenOf k v r]).
Proof.
  destruct v, r; unfold output, buildVlessResultOver;
    cbv beta zeta iota delta [x25519 mlkem768 decryption encryption];
    rewrite buildConfig_segments, !normalizeOption_orDefault; reflexivity.
Qed.

(** Every output of the encoder is the option-derived segments of its role
    followed by its token, joined by dots. *)
Lemma output_segments o k v r :
  output (buildVlessResult o k) v r = join [dot] (optionSegments o r ++ [tokenOf k v r]).
Proof.
  unfold buildVlessResult. rewrite output_segments_over, normalizeOption_orDefault.
  unfold optionSegments. rewrite <- app_assoc. now destruct r.
Qed.

Lemma optionSegments_not_nil o r : optionSegments o r <> [].
Proof. discriminate. Qed.

Lemma join_extra_differs (xs ps : list jsstring) (t : jsstring) :
  xs <> [] -> ps <> [] -> join [dot] (xs ++ ps ++ [t]) <> join [dot] (xs ++ [t]).
Proof.
  intros Hx Hp E.
  rewrite join_app in E by (assumption || now destruct ps).
  rewrite (join_app_last [dot] ps t Hp) in E.
  rewrite (join_app_last [dot] xs t Hx) in E.
  apply (f_equal (@List.length N)) in E.
  rewrite !length_app in E. simpl in E. lia.
Qed.

End EncoderFacts.

Section EncoderClaims.

Import Described.

(** C2. With handshake method mlkem768x25519plus, encryption method native,
    server ticket 600s, server padding not included and server token ABC,
    the decryption string of either variant is
    mlkem768x25519plus.native.600s.ABC, that is the segments handshake,
    encryption, ticket and token in this order joined by dots, whatever the
    remaining options and keys. *)
Theorem C2_decryption_example :
  forall ct sp cp icp ck mc v,
    let res := buildVlessResult (exampleOptions ct sp cp false icp) (serverToken (js "ABC") ck mc) in
    output res v Server = js "mlkem768x25519plus.native.600s.ABC"
    /\ output res v Server =
       join [dot] [js "mlkem768x25519plus"; js "native"; js "600s"; js "ABC"].
Proof.
  intros ct sp cp icp ck mc v res. split; destruct v; reflexivity.
Qed.

(** C3, the claim as stated fails: with the server padding a single space
    and its inclusion switched on, the code inserts the pieces of the
    default padding, while a default that stands in only for the empty
    string would insert nothing. *)
Lemma C3_padding_if_empty_fails : ~ padding_rule_if_empty.
Proof.
  intros H.
  specialize (H (exampleOptions [] (js " ") [] true false)
                (serverToken (js "ABC") [] []) x25519_variant Server eq_refl).
  vm_compute in H. discriminate H.
Qed.

(** What the code yields there, and what the rule to the letter would. *)
Example blank_padding_uses_default :
  output (buildVlessResult (exampleOptions [] (js " ") [] true false)
                           (serverToken (js "ABC") [] [])) x25519_variant Server
  = js "mlkem768x25519plus.native.600s.100-111-1111.75-0-111.50-0-3333.ABC"
  /\ paddingPiecesIfEmpty (js " ") = [].
Proof. split; reflexivity. Qed.

(** C3, amended.  For all options, keys, variants and roles the output is
    the three leading segments, then, if the padding of the role is
    included, the pieces of its padding string (of the default padding when
    that string is empty or white space only) obtained by splitting on dots,
    trimming each piece and dropping the empty ones, in order, then the
    token.  With the padding not included there is no padding segment,
    whatever the padding string.  The documented example with server
    padding 10-20.30-40 included gives
    mlkem768x25519plus.native.600s.10-20.30-40.ABC. *)
Theorem C3_padding_segments :
  forall o k v r,
    let lead := [ orDefault (handshakeMethod o) DEFAULT_VLESS_HANDSHAKE;
                  orDefault (encryptionMethod o) DEFAULT_VLESS_ENCRYPTION;
                  orDefault (ticketOf o r)
                    (match fallbackTicketOf r with Some t => t | None => [] end) ] in
    output (buildVlessResult o k) v r =
      join [dot] (lead
                  ++ (if includeOf o r
                      then filter (fun p => negb (JsString.eqb p []))
                             (map trim (split dot (if blank (paddingOf o r)
                                                   then DEFAULT_VLESS_PADDING
                                                   else paddingOf o r)))
                      else [])
                  ++ [tokenOf k v r])
    /\ (forall ct cp icp ck mc,
          output (buildVlessResult (exampleOptions ct (js "10-20.30-40") cp true icp)
                                   (serverToken (js "ABC") ck mc)) v Server
          = js "mlkem768x25519plus.native.600s.10-20.30-40.ABC").
Proof.
  intros o k v r lead. split.
  - rewrite output_segments. unfold optionSegments. now rewrite <- app_assoc.
  - intros. destruct v; reflexivity.
Qed.

(** C4. Over every enumeration of resumption options that has a first
    element, a ticket that is absent, empty or white space only is replaced
    by the default of its role: 600s for the server, and for the client the
    value of the first element of the enumeration, whichever value that is.
    The third segment of every output is the ticket so normalized, so the
    default itself when the ticket is blank.  With the enumeration of the
    source the client's default is 0rtt, it is what [DEFAULT_VLESS_RESUME]
    holds, and the segment is never empty. *)
Theorem C4_ticket_fallback :
  forall resumeOptions first rest,
    resumeOptions = first :: rest ->
    forall r,
      let fallback := match r with Server => js "600s" | Client => opt_value first end in
      (forall ticket,
          ticket = None \/ (exists s, ticket = Some s /\ blank s = true) ->
          normalizeOption ticket fallback = fallback)
      /\ (forall o k v,
            output (buildVlessResultOver resumeOptions o k) v r =
            join [dot] ([ orDefault (handshakeMethod o) DEFAULT_VLESS_HANDSHAKE;
                          orDefault (encryptionMethod o) DEFAULT_VLESS_ENCRYPTION;
                          normalizeOption (Some (ticketOf o r)) fallback ]
                        ++ (if includeOf o r then paddingPieces (paddingOf o r) else [])
                        ++ [tokenOf k v r]))
      /\ (forall o k v,
            blank (ticketOf o r) = true ->
            output (buildVlessResultOver resumeOptions o k) v r =
            join [dot] ([ orDefault (handshakeMethod o) DEFAULT_VLESS_HANDSHAKE;
                          orDefault (encryptionMethod o) DEFAULT_VLESS_ENCRYPTION;
                          fallback ]
                        ++ (if includeOf o r then paddingPieces (paddingOf o r) else [])
                        ++ [tokenOf k v r]))
      /\ (resumeOptions = VLESS_RESUME_OPTIONS ->
          (forall o k, buildVlessResult o k = buildVlessResultOver resumeOptions o k)
          /\ fallbackTicketOf r = Some fallback
          /\ fallback <> []
          /\ opt_value first = js "0rtt"
          /\ DEFAULT_VLESS_RESUME = opt_value first).
Proof.
  intros resumeOptions first rest -> r fallback.
  assert (Hblank : forall s, blank s = true -> normalizeOption (Some s) fallback = fallback).
  { intros s Hs. rewrite normalizeOption_orDefault. unfold orDefault. now rewrite Hs. }
  assert (Hout : forall o k v,
             output (buildVlessResultOver (first :: rest) o k) v r =
             join [dot] ([ orDefault (handshakeMethod o) DEFAULT_VLESS_HANDSHAKE;
                           orDefault (encryptionMethod o) DEFAULT_VLESS_ENCRYPTION;
                           normalizeOption (Some (ticketOf o r)) fallback ]
                         ++ (if includeOf o r then paddingPieces (paddingOf o r) else [])
                         ++ [tokenOf k v r])).
  { intros o k v. rewrite output_segments_over. now destruct r. }
  split; [|split; [exact Hout|split]].
  - intros ticket [->|(s & -> & Hs)]; [reflexivity | now apply Hblank].
  - intros o k v Hs. rewrite Hout. now rewrite (Hblank _ Hs).
  - intros E. injection E as -> _.
    split; [reflexivity|]. split; [now destruct r|]. split; [now destruct r|].
    now split.
Qed.

Lemma C4_ticket_fallback_witness :
  let swapped :=
    [ {| opt_value := js "1rtt"; opt_label := js "1rtt";
         opt_translationKey := js "coreConfigModal.vlessResumeOption1rtt" |};
      {| opt_value := js "0rtt"; opt_label := js "0rtt";
         opt_translationKey := js "coreConfigModal.vlessResumeOption0rtt" |} ] in
  let o := exampleOptions (js "  ") [] [] false false in
  let k := serverToken (js "ABC") (js "DEF") (js "GHI") in
  output (buildVlessResultOver swapped o k) mlkem768_variant Client
    = js "mlkem768x25519plus.native.1rtt.GHI"
  /\ output (buildVlessResult o k) mlkem768_variant Client
     = js "mlkem768x25519plus.native.0rtt.GHI"
  /\ output (buildVlessResult
               {| handshakeMethod := js "mlkem768x25519plus"; encryptionMethod := js "native";
                  serverTicket := js " "; clientTicket := js "1rtt";
                  serverPadding := []; clientPadding := [];
                  includeServerPadding := false; includeClientPadding := false |} k)
            x25519_variant Server
     = js "mlkem768x25519plus.native.600s.ABC".
Proof.
  intros swapped o k. split; [|split].
  - destruct (C4_ticket_fallback swapped _ _ eq_refl Client) as (_ & _ & H & _).
    rewrite H by reflexivity. reflexivity.
  - destruct (C4_ticket_fallback VLESS_RESUME_OPTIONS _ _ eq_refl Client) as (_ & _ & H & Hsrc).
    destruct (Hsrc eq_refl) as (Hb & _).
    rewrite Hb, H by reflexivity. reflexivity.
  - destruct (C4_ticket_fallback VLESS_RESUME_OPTIONS _ _ eq_refl Server) as (_ & _ & H & Hsrc).
    destruct (Hsrc eq_refl) as (Hb & _).
    rewrite Hb, H by reflexivity. reflexivity.
Defined.

(** C5, the claim as stated fails: with a client padding that is a single
    dot there is no padding piece, and toggling its inclusion changes
    neither encryption string. *)
Lemma C5_toggle_without_pieces : ~ toggle_changes_both.
Proof.
  intros H.
  apply (H (exampleOptions (js "0rtt") [] (js ".") false false)
           (serverToken (js "ABC") (js "DEF") (js "GHI")) x25519_variant).
  vm_compute. reflexivity.
Qed.

Example toggle_without_pieces_run :
  forall icp v,
    paddingPieces (js ".") = []
    /\ output (buildVlessResult (exampleOptions (js "0rtt") [] (js ".") false icp)
                 (serverToken (js "ABC") (js "DEF") (js "GHI"))) v Client
       = match v with
         | x25519_variant => js "mlkem768x25519plus.native.0rtt.DEF"
         | mlkem768_variant => js "mlkem768x25519plus.native.0rtt.GHI"
         end.
Proof. intros [|] [|]; vm_compute; split; reflexivity. Qed.

(** C5, amended.  Both variants are computed from the one options value:
    for each role the outputs of the two variants are the same
    option-derived segments followed by the variant's own token.  Toggling
    only the inclusion of the client padding leaves both decryption strings
    as they were, adds to or removes from both encryption strings the same
    padding pieces, and changes the encryption string of one variant
    exactly when it changes that of the other: both change when the client
    padding has at least one piece, neither does when it has none. *)
Theorem C5_no_variant_drift :
  forall o k,
    let res := buildVlessResult o k in
    let res' := buildVlessResult (toggleClientPadding o) k in
    options res = o
    /\ (forall v r, output res v r = join [dot] (optionSegments o r ++ [tokenOf k v r]))
    /\ (forall v, output res' v Server = output res v Server)
    /\ (forall v, output res' v Client =
                  join [dot] (optionSegments (toggleClientPadding o) Client ++ [tokenOf k v Client]))
    /\ (if includeClientPadding o
        then optionSegments o Client =
             optionSegments (toggleClientPadding o) Client ++ paddingPieces (clientPadding o)
        else optionSegments (toggleClientPadding o) Client =
             optionSegments o Client ++ paddingPieces (clientPadding o))
    /\ (output res' x25519_variant Client <> output res x25519_variant Client
        <-> output res' mlkem768_variant Client <> output res mlkem768_variant Client)
    /\ (paddingPieces (clientPadding o) <> [] ->
        forall v, output res' v Client <> output res v Client)
    /\ (paddingPieces (clientPadding o) = [] ->
        forall v, output res' v Client = output res v Client).
Proof.
  intros o k res res'.
  assert (Hshape : if includeClientPadding o
        then optionSegments o Client =
             optionSegments (toggleClientPadding o) Client ++ paddingPieces (clientPadding o)
        else optionSegments (toggleClientPadding o) Client =
             optionSegments o Client ++ paddingPieces (clientPadding o)).
  { unfold optionSegments. simpl. destruct (includeClientPadding o); simpl; reflexivity. }
  assert (Hchange : forall v, paddingPieces (clientPadding o) <> [] ->
                              output res' v Client <> output res v Client).
  { intros v Hne. unfold res, res'. rewrite !output_segments.
    destruct (includeClientPadding o).
    - rewrite Hshape, <- app_assoc. intros E. symmetry in E. revert E.
      apply join_extra_differs; [apply optionSegments_not_nil | assumption].
    - rewrite Hshape, <- app_assoc.
      apply join_extra_differs; [apply optionSegments_not_nil | assumption]. }
  assert (Hsame : forall v, paddingPieces (clientPadding o) = [] ->
                            output res' v Client = output res v Client).
  { intros v He. unfold res, res'. rewrite !output_segments.
    destruct (includeClientPadding o); rewrite Hshape, He, app_nil_r; reflexivity. }
  split; [reflexivity|]. repeat split.
  - intros v r. apply output_segments.
  - intros v. unfold res, res'. now rewrite !output_segments.
  - intros v. apply output_segments.
  - exact Hshape.
  - intros Hx. destruct (paddingPieces (clientPadding o)) eqn:E.
    + exfalso. apply Hx. now apply Hsame.
    + apply Hchange. discriminate.
  - intros Hm. destruct (paddingPieces (clientPadding o)) eqn:E.
    + exfalso. apply Hm. now apply Hsame.
    + apply Hchange. discriminate.
  - intros Hne v. now apply Hchange.
  - intros He v. now apply Hsame.
Qed.

Lemma C5_no_variant_drift_witness :
  paddingPieces (clientPadding createDefaultVlessOptions) <> []
  /\ forall v,
       output (buildVlessResult (toggleClientPadding createDefaultVlessOptions)
                 (serverToken (js "ABC") (js "DEF") (js "GHI"))) v Client
       <> output (buildVlessResult createDefaultVlessOptions
                    (serverToken (js "ABC") (js "DEF") (js "GHI"))) v Client.
Proof.
  split; [discriminate|].
  apply (C5_no_variant_drift createDefaultVlessOptions
           (serverToken (js "ABC") (js "DEF") (js "GHI"))).
  discriminate.
Defined.

End EncoderClaims.

(** ** Base64 *)

Section Base64Facts.

Import Base64.

Lemma sextets_checked :
  forallb (fun n => match decodeSextet (encodeSextet stdAlphabet n) with
                    | Some m => (m =? n) && negb (encodeSextet stdAlphabet n =? pad)
                    | None => false
                    end)
          (map N.of_nat (seq 0 64)) = true.
Proof. vm_compute. reflexivity. Qed.

(** A sextet survives encoding and decoding, and is never written as the
    padding character. *)
Lemma sextet_roundtrip n :
  n < 64 ->
  decodeSextet (encodeSextet stdAlphabet n) = Some n
  /\ (encodeSextet stdAlphabet n =? pad) = false.
Proof.
  intros Hn.
  pose proof (proj1 (forallb_forall _ _) sextets_checked n) as H.
  assert (Hin : In n (map N.of_nat (seq 0 64))).
  { apply in_map_iff. exists (N.to_nat n). split; [apply N2Nat.id|].
    apply in_seq. lia. }
  specialize (H Hin). cbv beta in H. revert H.
  destruct (decodeSextet (encodeSextet stdAlphabet n)) as [m|]; [|discriminate].
  intros H. apply andb_prop in H as [H1 H2]. apply N.eqb_eq in H1. subst m.
  split; [reflexivity|]. now apply negb_true_iff in H2.
Qed.

Lemma list_ind3 {A} (P : list A -> Prop) :
  P [] -> (forall a, P [a]) -> (forall a b, P [a; b]) ->
  (forall a b c l, P l -> P (a :: b :: c :: l)) ->
  forall l, P l.
Proof.
  intros H0 H1 H2 H3.
  fix IH 1. intros [|a [|b [|c l]]];
    [exact H0 | exact (H1 a) | exact (H2 a b) | exact (H3 a b c l (IH l))].
Qed.

Lemma octets_arith a b c :
  a < 256 -> b < 256 -> c < 256 ->
  a / 4 < 64 /\ (a mod 4) * 16 + b / 16 < 64 /\ (b mod 16) * 4 + c / 64 < 64 /\ c mod 64 < 64
  /\ (a mod 4) * 16 < 64 /\ (b mod 16) * 4 < 64
  /\ a / 4 * 4 + ((a mod 4) * 16 + b / 16) / 16 = a
  /\ (((a mod 4) * 16 + b / 16) mod 16) * 16 + ((b mod 16) * 4 + c / 64) / 4 = b
  /\ (((b mod 16) * 4 + c / 64) mod 4) * 64 + c mod 64 = c
  /\ a / 4 * 4 + ((a mod 4) * 16) / 16 = a
  /\ (((a mod 4) * 16 + b / 16) mod 16) * 16 + ((b mod 16) * 4) / 4 = b.
Proof.
  intros Ha Hb Hc.
  pose proof (N.div_mod a 4 ltac:(discriminate)).
  pose proof (N.mod_lt a 4 ltac:(discriminate)).
  pose proof (N.div_mod b 16 ltac:(discriminate)).
  pose proof (N.mod_lt b 16 ltac:(discriminate)).
  pose proof (N.div_mod c 64 ltac:(discriminate)).
  pose proof (N.mod_lt c 64 ltac:(discriminate)).
  set (qa := a / 4) in *. set (ra := a mod 4) in *.
  set (qb := b / 16) in *. set (rb := b mod 16) in *.
  set (qc := c / 64) in *. set (rc := c mod 64) in *.
  clearbody qa ra qb rb qc rc.
  assert (E1 : (ra * 16 + qb) / 16 = ra).
  { rewrite N.add_comm, N.div_add by discriminate.
    rewrite N.div_small by lia. reflexivity. }
  assert (E2 : (ra * 16 + qb) mod 16 = qb).
  { rewrite N.add_comm, N.Div0.mod_add. apply N.mod_small. lia. }
  assert (E3 : (rb * 4 + qc) / 4 = rb).
  { rewrite N.add_comm, N.div_add by discriminate.
    rewrite N.div_small by lia. reflexivity. }
  assert (E4 : (rb * 4 + qc) mod 4 = qc).
  { rewrite N.add_comm, N.Div0.mod_add. apply N.mod_small. lia. }
  assert (E5 : (ra * 16) / 16 = ra) by (apply N.div_mul; discriminate).
  assert (E6 : (rb * 4) / 4 = rb) by (apply N.div_mul; discriminate).
  rewrite E1, E2, E3, E4, E5, E6.
  repeat split; lia.
Qed.

(** Decoding undoes the standard encoding of any octets. *)
Lemma decode_encode data :
  Forall (fun x => x < 256) data -> decode (encode stdAlphabet data) = Some data.
Proof.
  induction data as [|a|a b|a b c rest IH] using list_ind3; intros Hall.
  - reflexivity.
  - inversion_clear Hall as [|? ? Ha _].
    destruct (octets_arith a 0 0 Ha eq_refl eq_refl)
      as (S0 & _ & _ & _ & S1 & _ & _ & _ & _ & E & _).
    destruct (sextet_roundtrip _ S0) as [D0 _].
    destruct (sextet_roundtrip _ S1) as [D1 _].
    cbn [encode decode]. rewrite D0, D1, N.eqb_refl. cbn [andb]. now rewrite E.
  - inversion_clear Hall as [|? ? Ha Hall']. inversion_clear Hall' as [|? ? Hb _].
    destruct (octets_arith a b 0 Ha Hb eq_refl)
      as (S0 & S1 & _ & _ & _ & S2 & E1 & _ & _ & _ & E2).
    destruct (sextet_roundtrip _ S0) as [D0 _].
    destruct (sextet_roundtrip _ S1) as [D1 _].
    destruct (sextet_roundtrip _ S2) as [D2 P2].
    cbn [encode decode]. rewrite D0, D1, D2, P2, N.eqb_refl. cbn [andb]. now rewrite E1, E2.
  - inversion_clear Hall as [|? ? Ha Hall']. inversion_clear Hall' as [|? ? Hb Hall''].
    inversion_clear Hall'' as [|? ? Hc Hrest].
    destruct (octets_arith a b c Ha Hb Hc)
      as (S0 & S1 & S2 & S3 & _ & _ & E1 & E2 & E3 & _ & _).
    destruct (sextet_roundtrip _ S0) as [D0 _].
    destruct (sextet_roundtrip _ S1) as [D1 _].
    destruct (sextet_roundtrip _ S2) as [D2 P2].
    destruct (sextet_roundtrip _ S3) as [D3 P3].
    cbn [encode decode]. rewrite D0, D1, D2, D3, P2, P3, (IH Hrest). cbn [andb].
    now rewrite E1, E2, E3.
Qed.

Lemma bytes_are_octets (bytes : list byte) : Forall (fun x => x < 256) (fromCharCode bytes).
Proof.
  apply Forall_forall. intros x Hx. apply in_map_iff in Hx as (b & <- & _).
  pose proof (Byte.to_N_bounded b). lia.
Qed.

(** [btoa] never throws on the characters of a byte array. *)
Lemma btoa_bytes (bytes : list byte) :
  btoa (fromCharCode bytes) = Some (encode stdAlphabet (fromCharCode bytes)).
Proof.
  unfold btoa.
  assert (H : forallb (fun c => c <? 256) (fromCharCode bytes) = true).
  { apply forallb_forall. intros x Hx. apply N.ltb_lt.
    exact (proj1 (Forall_forall _ _) (bytes_are_octets bytes) x Hx). }
  now rewrite H.
Qed.

End Base64Facts.

(** ** The dialog *)

Import Dialog Json Stated.

Arguments js : simpl never.

(** Unfolds the statement combinators and the handlers, leaving the
    decisions on the environment to be split on. *)
Ltac unfold_monad :=
  cbv beta iota zeta delta
    [exec call bind ret throw return_ get update toast invoked tryCatchFinally tryCatch
     showResultDialog getRandomValues generateKeyPair awaitGenerateMldsa65 awaitDeriveKeyPair
     generate view tryBlock catchBlock
     generatePrivateAndPublicKey generatePrivateAndPublicKey_try
     generateShortId generateShortId_try
     generateShadowsocksPassword generateShadowsocksPassword_try
     handleGenerateMldsa65 handleGenerateMldsa65_try handleGenerateMldsa65_catch
     generateVLESSEncryption generateVLESSEncryption_try
     viewKeyPair viewShortId viewShadowsocksPassword viewMldsa65 viewVLESS
     regenerateClick cleanupOnClose fst snd].

(** Reads fields off updated worlds. *)
Ltac world_simpl :=
  cbn [state entropy toasts generationCalls platform mapState setEntropy addToast addCall] in *.

(** Splits on the decisions a handler takes. *)
Ltac decide_run :=
  repeat match goal with
         | |- context [if ?c then _ else _] => destruct c eqn:?
         | |- context [match find ?f ?l with _ => _ end] => destruct (find f l) eqn:?
         | |- context [match Base64.btoa ?x with _ => _ end] => destruct (Base64.btoa x) eqn:?
         | |- context [match generateMldsa65 ?p ?e with _ => _ end] =>
             destruct (generateMldsa65 p e) as [[?|?] ?] eqn:?
         | |- context [match deriveKeyPair ?p ?e with _ => _ end] =>
             destruct (deriveKeyPair p e) as [?|[? ?]] eqn:?
         end.

Section DialogFacts.

(** A generation handler is its three blocks behind the call counter. *)
Lemma generate_blocks k w :
  generate k w =
  (invoked k ;; tryCatchFinally (tryBlock k) (catchBlock k) (update (setGenerating k false))) w.
Proof. destruct k; reflexivity. Qed.

(** A [try] block that ends abruptly has only raised the in-progress flag
    and consumed random bytes. *)
Lemma tryBlock_abrupt k w c w1 :
  tryBlock k w = (c, w1) ->
  (forall u, c <> Normal u) ->
  state w1 = setGenerating k true (state w)
  /\ toasts w1 = toasts w
  /\ generationCalls w1 = generationCalls w
  /\ platform w1 = platform w.
Proof.
  intros Hrun Hc. revert Hrun. destruct k; unfold_monad; world_simpl; decide_run;
    intros Hrun; injection Hrun as <- <-; world_simpl;
    try (exfalso; eapply Hc; reflexivity); repeat split.
Qed.

(** A [try] block that completes has stored and shown one fresh value of
    its kind and announced it. *)
Lemma tryBlock_normal k w u w1 :
  tryBlock k w = (Normal u, w1) ->
  exists d,
    kindOf d = k
    /\ state w1 = shown d (store d (setGenerating k true (state w)))
    /\ toasts w1 = toasts w ++ [successToast k]
    /\ generationCalls w1 = generationCalls w
    /\ platform w1 = platform w.
Proof.
  destruct k; unfold_monad; world_simpl; decide_run; intros Hrun;
    try discriminate Hrun; injection Hrun as <- <-; world_simpl;
    match goal with |- context [setResultData (Some ?d)] => exists d end;
    repeat split.
Qed.

(** The whole run of a generation handler, by the completion of its
    [try] block. *)
Lemma generate_run k w :
  match tryBlock k (addCall k w) with
  | (Normal _, _) =>
      exists d,
        kindOf d = k
        /\ generate k w =
           (Normal tt,
            {| state := setGenerating k false (shown d (store d (state w)));
               entropy := entropy (snd (tryBlock k (addCall k w)));
               toasts := toasts w ++ [successToast k];
               generationCalls := generationCalls w ++ [k];
               platform := platform w |})
  | (Returned, _) =>
      generate k w =
      (Returned,
       {| state := setGenerating k false (state w);
          entropy := entropy (snd (tryBlock k (addCall k w)));
          toasts := toasts w;
          generationCalls := generationCalls w ++ [k];
          platform := platform w |})
  | (Thrown e, _) =>
      exists m,
        generate k w =
        (Normal tt,
         {| state := setGenerating k false (state w);
            entropy := entropy (snd (tryBlock k (addCall k w)));
            toasts := toasts w ++ [toast_error m];
            generationCalls := generationCalls w ++ [k];
            platform := platform w |})
  end.
Proof.
  rewrite generate_blocks.
  destruct (tryBlock k (addCall k w)) as [c w1] eqn:Hrun.
  destruct c as [u| |e].
  - destruct (tryBlock_normal _ _ _ _ Hrun) as (d & Hk & Hs & Ht & Hc & Hp).
    exists d. split; [exact Hk|].
    cbv beta iota zeta delta [bind invoked tryCatchFinally update]. rewrite Hrun.
    destruct w1 as [s1 e1 t1 c1 p1]. world_simpl. subst.
    destruct u. f_equal. f_equal. now destruct d.
  - destruct (tryBlock_abrupt _ _ _ _ Hrun ltac:(discriminate)) as (Hs & Ht & Hc & Hp).
    cbv beta iota zeta delta [bind invoked tryCatchFinally update]. rewrite Hrun.
    destruct w1 as [s1 e1 t1 c1 p1]. world_simpl. subst.
    f_equal. f_equal. now destruct k.
  - destruct (tryBlock_abrupt _ _ _ _ Hrun ltac:(discriminate)) as (Hs & Ht & Hc & Hp).
    destruct w1 as [s1 e1 t1 c1 p1]. world_simpl. subst.
    assert (Hcatch : exists m, catchBlock k e =
                               toast (toast_error m)).
    { destruct k; eexists; reflexivity. }
    destruct Hcatch as [m Hm]. exists m.
    cbv beta iota zeta delta [bind invoked tryCatchFinally update]. rewrite Hrun, Hm.
    cbv beta iota zeta delta [toast]. world_simpl.
    f_equal. f_equal. now destruct k.
Qed.

Lemma cached_setGenerating k k' b s : cached k' (setGenerating k b s) = cached k' s.
Proof. now destruct k, k'. Qed.

Lemma cached_shown k d s : cached k (shown d s) = cached k s.
Proof. now destruct k. Qed.

Lemma cached_store_same d s : cached (kindOf d) (store d s) = Some d.
Proof. now destruct d. Qed.

Lemma cached_store_other k d s : k <> kindOf d -> cached k (store d s) = cached k s.
Proof. destruct k, d; simpl; congruence. Qed.

Lemma cached_kind k s d : cached k s = Some d -> kindOf d = k.
Proof.
  destruct k; simpl;
    [destruct (generatedKeyPair s) | destruct (generatedShortId s)
    | destruct (generatedShadowsocksPassword s) | destruct (generatedMldsa65 s)
    | destruct (generatedVLESS s)]; simpl; intros H; inversion H; reflexivity.
Qed.

Lemma generating_setGenerating k b s : generating k (setGenerating k b s) = b.
Proof. now destruct k. Qed.

Lemma kind_eq_dec (k k' : ResultType) : {k = k'} + {k <> k'}.
Proof. decide equality. Defined.

Lemma calls_app k w k' :
  forall w', generationCalls w' = generationCalls w ++ [k'] ->
             calls k w' = if kind_eq_dec k k' then S (calls k w) else calls k w.
Proof.
  intros w' H. unfold calls. rewrite H, filter_app, length_app. simpl.
  destruct (kind_eq_dec k k') as [<-|Hne].
  - destruct k; simpl; lia.
  - destruct k, k'; simpl; try lia; congruence.
Qed.

Lemma calls_same k w w' : generationCalls w' = generationCalls w -> calls k w' = calls k w.
Proof. intros H. unfold calls. now rewrite H. Qed.

(** What every run of a generation handler does, whatever its outcome. *)
Lemma generate_always k w :
  (forall e, fst (generate k w) <> Thrown e)
  /\ generating k (state (exec (generate k) w)) = false
  /\ generationCalls (exec (generate k) w) = generationCalls w ++ [k]
  /\ platform (exec (generate k) w) = platform w
  /\ (forall k', k' <> k -> cached k' (state (exec (generate k) w)) = cached k' (state w)).
Proof.
  pose proof (generate_run k w) as H. unfold exec.
  destruct (tryBlock k (addCall k w)) as [[u| |e] w1].
  - destruct H as (d & Hk & ->). cbn [fst snd state generationCalls platform].
    repeat split; try discriminate.
    + apply generating_setGenerating.
    + intros k' Hne. rewrite cached_setGenerating, cached_shown.
      apply cached_store_other. congruence.
  - rewrite H. cbn [fst snd state generationCalls platform].
    repeat split; try discriminate.
    + apply generating_setGenerating.
    + intros k' _. apply cached_setGenerating.
  - destruct H as (m & ->). cbn [fst snd state generationCalls platform].
    repeat split; try discriminate.
    + apply generating_setGenerating.
    + intros k' _. apply cached_setGenerating.
Qed.


(** *** Views and the regenerate button *)

Lemma view_cached k w d :
  shortIdPresent w ->
  cached k (state w) = Some d ->
  view k w = (Normal tt, mapState (shown d) w).
Proof.
  unfold shortIdPresent. intros Hinv Hc. revert Hc.
  destruct k; unfold_monad; world_simpl; unfold cached;
    [destruct (generatedKeyPair (state w)) | destruct (generatedShortId (state w)) as [[|c v]|]
    | destruct (generatedShadowsocksPassword (state w)) | destruct (generatedMldsa65 (state w))
    | destruct (generatedVLESS (state w))]; cbn [option_map]; intros Hc;
    try discriminate Hc; try (exfalso; apply Hinv; reflexivity);
    injection Hc as <-; reflexivity.
Qed.

Lemma view_empty k w :
  k <> vlessEncryption ->
  cached k (state w) = None ->
  view k w = (Normal tt, exec (generate k) w).
Proof.
  intros Hk Hc. revert Hc.
  destruct k; try congruence; unfold view, cached;
    [unfold viewKeyPair; destruct (generatedKeyPair (state w)) eqn:E
    | unfold viewShortId; destruct (generatedShortId (state w)) as [[|c v]|] eqn:E
    | unfold viewShadowsocksPassword; destruct (generatedShadowsocksPassword (state w)) eqn:E
    | unfold viewMldsa65; destruct (generatedMldsa65 (state w)) eqn:E];
    simpl; intros Hc; try discriminate Hc;
    cbv beta iota zeta delta [bind get]; rewrite E; reflexivity.
Qed.

Lemma viewVLESS_empty w :
  cached vlessEncryption (state w) = None ->
  view vlessEncryption w = (Normal tt, mapState (setIsVlessAdvancedModalOpen true) w).
Proof.
  unfold view, cached, viewVLESS. cbv beta iota zeta delta [bind get].
  destruct (generatedVLESS (state w)); [discriminate | reflexivity].
Qed.

Lemma regenerate_kind k w :
  k <> vlessEncryption ->
  resultType (state w) = Some k ->
  regenerateClick w = (Normal tt, exec (generate k) w).
Proof.
  intros Hk Hr. unfold regenerateClick. cbv beta iota zeta delta [bind get]. rewrite Hr.
  destruct k; try congruence; reflexivity.
Qed.

Lemma regenerate_vless w :
  resultType (state w) = Some vlessEncryption ->
  regenerateClick w =
  (Normal tt, mapState (fun s => setIsResultsDialogOpen false (setIsVlessAdvancedModalOpen true s)) w).
Proof.
  intros Hr. unfold regenerateClick. cbv beta iota zeta delta [bind get]. rewrite Hr.
  reflexivity.
Qed.

(** *** Short identifiers *)

Lemma join_empty_separator p rest : join [] (p :: rest) = p ++ join [] rest.
Proof. destruct rest; simpl; [now rewrite app_nil_r | reflexivity]. Qed.

Lemma hexOfBytes_length bytes : List.length (Hex.hexOfBytes bytes) = (2 * List.length bytes)%nat.
Proof.
  unfold Hex.hexOfBytes. induction bytes as [|b bytes IH]; [reflexivity|].
  cbn [map]. rewrite join_empty_separator, length_app, IH.
  assert (H2 : List.length (padStart 2 48 (Hex.toString16 b)) = 2%nat).
  { unfold padStart, Hex.toString16. destruct (Byte.to_N b <? 16); reflexivity. }
  rewrite H2. simpl. lia.
Qed.

Lemma generate_keeps_shortId k w : shortIdPresent w -> shortIdPresent (exec (generate k) w).
Proof.
  unfold shortIdPresent. intros Hinv.
  destruct (kind_eq_dec k shortId) as [->|Hne].
  - unfold_monad; world_simpl.
    destruct (8 <=? List.length (entropy w))%nat eqn:E; world_simpl;
      cbv beta iota delta [generatedShortId setGeneratedShortId setIsGeneratingShortId
                           setResultType setResultData setIsResultsDialogOpen];
      [|exact Hinv].
    intros H.
    apply (f_equal (fun o => match o with Some v => List.length v | None => 0%nat end)) in H.
    cbv beta iota in H. rewrite hexOfBytes_length, length_firstn in H.
    apply Nat.leb_le in E. cbn [List.length] in H. lia.
  - destruct (generate_always k w) as (_ & _ & _ & _ & Hother).
    specialize (Hother shortId ltac:(congruence)). unfold cached in Hother.
    destruct (generatedShortId (state (exec (generate k) w))) as [v|];
      destruct (generatedShortId (state w)) as [v0|]; simpl in Hother; congruence.
Qed.

(** *** The inbound tags *)


Lemma filter_tags elems :
  ~ In JNull elems ->
  exists kept,
    filterAccess hasTag elems = Got kept
    /\ map tagOf kept = collectTags nonBlank elems.
Proof.
  induction elems as [|x elems IH]; intros Hnull.
  - now exists [].
  - destruct IH as (kept & Hk & Ht); [intros H; apply Hnull; now right|].
    assert (Hx : x <> JNull) by (intros ->; apply Hnull; now left).
    cbn [filterAccess collectTags flat_map]. rewrite Hk.
    fold (collectTags nonBlank elems). rewrite <- Ht.
    unfold hasTag, tagText, getProperty.
    destruct x as [| | | | |members]; try congruence; try (exists kept; now split).
    destruct (lookup (js "tag") members) as [[| | |s| |]|] eqn:E; try (exists kept; now split).
    fold (nonBlank s). destruct (nonBlank s).
    + exists (JObject members :: kept). split; [reflexivity|].
      cbn [map]. unfold tagOf at 1, getProperty. now rewrite E.
    + exists kept. now split.
Qed.

Lemma getProperty_inbounds doc :
  match getProperty doc (js "inbounds") with
  | TypeError => inboundsOf doc = None
  | Got v =>
      if toBoolean v && isArray v
      then exists elems, v = Some (JArray elems) /\ inboundsOf doc = Some elems
      else inboundsOf doc = None
  end.
Proof.
  destruct doc as [| | | | |members]; try reflexivity.
  unfold getProperty, inboundsOf.
  destruct (lookup (js "inbounds") members) as [[| | | |elems|]|]; simpl;
    try reflexivity; try (now rewrite andb_false_r).
  now exists elems.
Qed.

(** A change of the document only ever replaces the tag list, and never
    throws. *)
Lemma configChange_run text w :
  exists tags,
    debouncedConfigChange text w = (Normal tt, mapState (setInboundTags tags) w)
    /\ (parse text = None -> tags = [])
    /\ (forall doc, parse text = Some doc -> inboundsOf doc = None -> tags = [])
    /\ (forall doc elems,
          parse text = Some doc -> inboundsOf doc = Some elems -> ~ In JNull elems ->
          tags = collectTags nonBlank elems).
Proof.
  unfold debouncedConfigChange, tryCatch, JSON_parse.
  destruct (parse text) as [doc|] eqn:Hp.
  - cbv beta iota zeta delta [bind ret liftAccess].
    pose proof (getProperty_inbounds doc) as Hg.
    destruct (getProperty doc (js "inbounds")) as [v|].
    + cbv beta iota zeta delta [ret]. destruct (toBoolean v && isArray v).
      * destruct Hg as (elems & -> & Hin).
        cbv beta iota zeta delta [bind liftAccess].
        destruct (filterAccess hasTag elems) as [kept|] eqn:Hf.
        -- exists (map tagOf kept). split; [reflexivity|].
           split; [discriminate|]. split.
           ++ intros doc' Hd. injection Hd as <-. congruence.
           ++ intros doc' elems' Hd Hi Hnull. injection Hd as <-.
              rewrite Hin in Hi. injection Hi as <-.
              destruct (filter_tags elems Hnull) as (kept' & Hk & Ht). congruence.
        -- exists []. split; [reflexivity|].
           split; [discriminate|]. split; [reflexivity|].
           intros doc' elems' Hd Hi Hnull. injection Hd as <-.
           rewrite Hin in Hi. injection Hi as <-.
           destruct (filter_tags elems Hnull) as (kept' & Hk & Ht). congruence.
      * exists []. split; [reflexivity|]. split; [reflexivity|]. split; [reflexivity|].
        intros doc' elems' Hd Hi. injection Hd as <-. congruence.
    + exists []. split; [reflexivity|]. split; [reflexivity|]. split; [reflexivity|].
      intros doc' elems' Hd Hi. injection Hd as <-. congruence.
  - exists []. split; [reflexivity|]. split; [reflexivity|]. split; discriminate.
Qed.

(** The tag list depends on the text only. *)
Lemma configChange_pure text w w0 :
  inboundTags (state (exec (debouncedConfigChange text) w)) =
  inboundTags (state (exec (debouncedConfigChange text) w0)).
Proof.
  unfold exec, debouncedConfigChange, tryCatch, JSON_parse.
  destruct (parse text) as [doc|]; [|reflexivity].
  cbv beta iota zeta delta [bind ret liftAccess].
  destruct (getProperty doc (js "inbounds")) as [v|]; [|reflexivity].
  cbv beta iota zeta delta [ret]. destruct (toBoolean v && isArray v); [|reflexivity].
  destruct v as [[| | | |elems|]|]; try reflexivity.
  cbv beta iota zeta delta [bind liftAccess].
  destruct (filterAccess hasTag elems); reflexivity.
Qed.

(** *** Reachable worlds *)

(** A validation pass replaces the validation cell; the other cells stay. *)
Lemma validation_state formConfig markers w :
  exists v,
    state (exec (handleEditorValidation formConfig markers) w) = setValidation v (state w).
Proof.
  unfold exec, handleEditorValidation. destruct markers as [|first rest].
  - unfold tryCatch, JSON_parse.
    destruct (parse formConfig);
      cbv beta iota zeta delta [bind ret throw update toast fst snd]; world_simpl;
      eexists; reflexivity.
  - cbv beta iota zeta delta [bind ret update toast fst snd]. world_simpl.
    eexists; reflexivity.
Qed.

Lemma step_keeps_shortId a w : shortIdPresent w -> shortIdPresent (step a w).
Proof.
  intros Hinv.
  destruct a as [| | | | | | | |sel|variant|o|open|isOpen|text|e p|open| |editor|formConfig markers];
    unfold step.
  - destruct (cached keyPair (state w)) as [d|] eqn:E.
    + unfold exec. change viewKeyPair with (view keyPair).
      now rewrite (view_cached _ _ _ Hinv E).
    + unfold exec. change viewKeyPair with (view keyPair).
      rewrite (view_empty keyPair w ltac:(discriminate) E). now apply generate_keeps_shortId.
  - destruct (cached mldsa65 (state w)) as [d|] eqn:E.
    + unfold exec. change viewMldsa65 with (view mldsa65).
      now rewrite (view_cached _ _ _ Hinv E).
    + unfold exec. change viewMldsa65 with (view mldsa65).
      rewrite (view_empty mldsa65 w ltac:(discriminate) E). now apply generate_keeps_shortId.
  - destruct (cached shortId (state w)) as [d|] eqn:E.
    + unfold exec. change viewShortId with (view shortId).
      now rewrite (view_cached _ _ _ Hinv E).
    + unfold exec. change viewShortId with (view shortId).
      rewrite (view_empty shortId w ltac:(discriminate) E). now apply generate_keeps_shortId.
  - destruct (cached shadowsocksPassword (state w)) as [d|] eqn:E.
    + unfold exec. change viewShadowsocksPassword with (view shadowsocksPassword).
      now rewrite (view_cached _ _ _ Hinv E).
    + unfold exec. change viewShadowsocksPassword with (view shadowsocksPassword).
      rewrite (view_empty shadowsocksPassword w ltac:(discriminate) E). now apply generate_keeps_shortId.
  - destruct (cached vlessEncryption (state w)) as [d|] eqn:E.
    + unfold exec. change viewVLESS with (view vlessEncryption).
      now rewrite (view_cached _ _ _ Hinv E).
    + unfold exec. change viewVLESS with (view vlessEncryption).
      now rewrite (viewVLESS_empty _ E).
  - unfold exec. destruct (resultType (state w)) as [k|] eqn:E.
    + destruct (kind_eq_dec k vlessEncryption) as [->|Hne].
      * now rewrite (regenerate_vless _ E).
      * rewrite (regenerate_kind _ _ Hne E). now apply generate_keeps_shortId.
    + unfold regenerateClick. cbv beta iota zeta delta [bind get]. now rewrite E.
  - now apply (generate_keeps_shortId vlessEncryption).
  - exact Hinv.
  - exact Hinv.
  - unfold exec, handleVlessVariantChange.
    destruct (JsString.eqb variant (js "x25519")); [exact Hinv|].
    destruct (JsString.eqb variant (js "mlkem768")); exact Hinv.
  - exact Hinv.
  - exact Hinv.
  - destruct isOpen; exact Hinv.
  - unfold exec, configEffect. destruct text as [|c text]; [exact Hinv|].
    destruct (configChange_run (c :: text) w) as (tags & -> & _). exact Hinv.
  - exact Hinv.
  - exact Hinv.
  - exact Hinv.
  - exact Hinv.
  - destruct (validation_state formConfig markers w) as (v & Hv).
    unfold shortIdPresent. rewrite Hv. exact Hinv.
Qed.

Lemma reachable_shortId w : reachable w -> shortIdPresent w.
Proof.
  induction 1 as [e p|a w _ IH].
  - discriminate.
  - now apply step_keeps_shortId.
Qed.


Lemma eqb_eq (a b : jsstring) : JsString.eqb a b = true <-> a = b.
Proof.
  revert b. induction a as [|x a IH]; intros [|y b]; simpl; split; try easy.
  - intros H. apply andb_prop in H as [H1 H2]. apply N.eqb_eq in H1. apply IH in H2.
    now subst.
  - intros H. injection H as -> ->. rewrite N.eqb_refl. now apply IH.
Qed.

Lemma find_unknown_method value :
  ~ In value (map ss_value SHADOWSOCKS_ENCRYPTION_METHODS) ->
  find (fun m => JsString.eqb (ss_value m) value) SHADOWSOCKS_ENCRYPTION_METHODS = None.
Proof.
  intros Hnot.
  destruct (find _ SHADOWSOCKS_ENCRYPTION_METHODS) as [m|] eqn:E; [|reflexivity].
  apply find_some in E as [Hin Heq]. apply eqb_eq in Heq. subst value.
  exfalso. apply Hnot. now apply in_map.
Qed.

Lemma find_known_method m :
  In m SHADOWSOCKS_ENCRYPTION_METHODS ->
  find (fun m' => JsString.eqb (ss_value m') (ss_value m)) SHADOWSOCKS_ENCRYPTION_METHODS = Some m.
Proof.
  intros [<-|[<-|[]]]; vm_compute; reflexivity.
Qed.

(** A run that announces success has stored the value it shows, and would
    have stored the same had the entry been empty before. *)
Lemma generate_success k w :
  toasts (exec (generate k) w) = toasts w ++ [successToast k] ->
  exists d,
    kindOf d = k
    /\ cached k (state (exec (generate k) w)) = Some d
    /\ resultData (state (exec (generate k) w)) = Some d
    /\ cached k (state (exec (generate k) (mapState (forget k) w))) = Some d.
Proof.
  destruct k; unfold_monad; world_simpl;
    try change (selectedEncryptionMethod (forget shadowsocksPassword (state w)))
      with (selectedEncryptionMethod (state w));
    try change (vlessOptions (forget vlessEncryption (state w))) with (vlessOptions (state w));
    decide_run; world_simpl; intros Hs;
    repeat match goal with
           | H1 : ?x = _, H2 : ?x = _ |- _ =>
               rewrite H1 in H2; first [discriminate H2 | injection H2 as <- | clear H2]
           end;
    try (exfalso; apply (f_equal (@List.length Toast)) in Hs;
         rewrite ?length_app in Hs; simpl in Hs; lia);
    try (exfalso; apply app_inv_head in Hs; discriminate Hs);
    match goal with |- context [setResultData (Some ?d)] => exists d end;
    repeat split.
Qed.

End DialogFacts.

Section DialogClaims.

(** C1, the claim as stated fails: a short identifier generated in one
    editing session is still in the cache after the dialog has closed. *)
Lemma C1_cache_survives_close : ~ cache_cleared_on_close.
Proof.
  intros H.
  specialize (H (exec generateShortId (initialWorld (repeat x00 8) examplePlatform)) shortId).
  vm_compute in H. discriminate H.
Qed.

Example short_id_cached_after_close :
  cached shortId
    (state (exec (cleanupOnClose false)
              (exec generateShortId (initialWorld (repeat x00 8) examplePlatform))))
  = Some (DataShortId (js "0000000000000000")).
Proof. vm_compute. reflexivity. Qed.

(** The events cover the dialog with its editor mounted, in full screen
    and with a text that failed validation, a short identifier shown and a
    method selected that is not of the list. *)
Example mounted_editor_is_reachable :
  exists w,
    reachable w
    /\ isEditorReady (state w) = true
    /\ editorInstance (state w) = Some 0%nat
    /\ isEditorFullscreen (state w) = true
    /\ isValid (validation (state w)) = false
    /\ selectedEncryptionMethod (state w) = js "aes-256-gcm"
    /\ isResultsDialogOpen (state w) = true
    /\ generatedShortId (state w) = Some (js "0000000000000000").
Proof.
  exists (step ClickViewShortId
            (step (SelectEncryptionMethod (js "aes-256-gcm"))
               (step (EditorValidation (js "{") [])
                  (step ToggleFullscreen
                     (step (EditorDidMount 0%nat)
                        (initialWorld (repeat x00 8) examplePlatform)))))).
  split; [do 5 apply reachable_step; apply reachable_initial|].
  vm_compute. repeat split.
Qed.

(** C1, amended.  Closing the dialog resets the results dialog (type,
    payload, open flag), the selected variant, the VLESS options, the
    validation, the editor handle and its flags, and nothing else: the
    cached value of every kind is as it was, the generated values being kept
    for reuse, and so are the inbound tags, the selected Shadowsocks method,
    the open flag of the options dialog and the five in-progress flags; no
    notification is shown, nothing is generated and no random byte is drawn.
    So a view after the close shows the earlier value without generating, in
    every reachable world and in any world whose cached short identifier is
    not the empty string.  Nothing happens while the dialog is open. *)
Theorem C1_close_keeps_cache :
  forall w,
    let w' := exec (cleanupOnClose false) w in
    (forall k, cached k (state w') = cached k (state w))
    /\ resultType (state w') = None
    /\ resultData (state w') = None
    /\ isResultsDialogOpen (state w') = false
    /\ selectedVlessVariant (state w') = x25519_variant
    /\ vlessOptions (state w') = createDefaultVlessOptions
    /\ validation (state w') = {| isValid := true; error := None |}
    /\ editorInstance (state w') = None
    /\ isEditorReady (state w') = false
    /\ isEditorFullscreen (state w') = false
    /\ inboundTags (state w') = inboundTags (state w)
    /\ selectedEncryptionMethod (state w') = selectedEncryptionMethod (state w)
    /\ isVlessAdvancedModalOpen (state w') = isVlessAdvancedModalOpen (state w)
    /\ (forall k, generating k (state w') = generating k (state w))
    /\ toasts w' = toasts w
    /\ generationCalls w' = generationCalls w
    /\ entropy w' = entropy w
    /\ platform w' = platform w
    /\ exec (cleanupOnClose true) w = w
    /\ (forall k d,
          reachable w \/ shortIdPresent w -> cached k (state w) = Some d ->
          view k w' = (Normal tt, mapState (shown d) w')).
Proof.
  intros w w'.
  assert (Hc : forall k, cached k (state w') = cached k (state w)) by now destruct k.
  assert (Hg : forall k, generating k (state w') = generating k (state w)) by now destruct k.
  repeat split; try reflexivity; try exact Hc; try exact Hg.
  intros k d Hw Hd. apply view_cached.
  - destruct Hw as [Hr|Hi]; [apply reachable_shortId in Hr; exact Hr | exact Hi].
  - now rewrite Hc.
Qed.

Lemma C1_close_keeps_cache_witness :
  let w := step ClickViewShortId
             (step (EditorDidMount 0%nat) (initialWorld (repeat x00 8) examplePlatform)) in
  let w' := exec (cleanupOnClose false) w in
  reachable w
  /\ cached shortId (state w) = Some (DataShortId (js "0000000000000000"))
  /\ view shortId w' = (Normal tt, mapState (shown (DataShortId (js "0000000000000000"))) w').
Proof.
  intros w w'.
  assert (Hr : reachable w) by (do 2 apply reachable_step; apply reachable_initial).
  assert (Hc : cached shortId (state w) = Some (DataShortId (js "0000000000000000")))
    by (vm_compute; reflexivity).
  split; [exact Hr|]. split; [exact Hc|].
  destruct (C1_close_keeps_cache w)
    as (_ & _ & _ & _ & _ & _ & _ & _ & _ & _ & _ & _ & _ & _ & _ & _ & _ & _ & _ & Hview).
  exact (Hview shortId _ (or_introl Hr) Hc).
Defined.




(** C7, the claim as stated fails: with a VLESS result on display, the
    regenerate button closes it and opens the options dialog; no generation
    is invoked and the cached result stays. *)
Lemma C7_regenerate_vless_opens_options : ~ regenerate_always_generates.
Proof.
  intros H.
  specialize (H (step ClickGenerateVLESS (initialWorld (repeat x00 96) examplePlatform))
                vlessEncryption eq_refl).
  vm_compute in H. discriminate H.
Qed.

Example regenerate_vless_run :
  let w := step ClickGenerateVLESS (initialWorld (repeat x00 96) examplePlatform) in
  resultType (state w) = Some vlessEncryption
  /\ calls vlessEncryption w = 1%nat
  /\ calls vlessEncryption (exec regenerateClick w) = 1%nat
  /\ isVlessAdvancedModalOpen (state (exec regenerateClick w)) = true
  /\ isResultsDialogOpen (state (exec regenerateClick w)) = false
  /\ generatedVLESS (state (exec regenerateClick w)) = generatedVLESS (state w).
Proof. vm_compute. repeat split. Qed.

(** C7, amended.  In every reachable world, and in any world whose cached
    short identifier is not the empty string, for every kind a view with
    a cached value shows that value and invokes no generation.  With an
    empty entry, the view of a key pair, short identifier, Shadowsocks
    password or ML-DSA-65 pair runs the generation handler, once; the VLESS
    view opens the options dialog instead.  The regenerate button runs the
    generation handler of those four kinds, once, and for a VLESS result
    closes the results dialog and opens the options dialog.  A generation
    that announces success has put into the cache the value it shows,
    whatever the entry held before.  After one generation that leaves a
    value in the cache, two views add no further call: the count has grown
    by exactly one. *)
Theorem C7_view_and_regenerate :
  forall w,
    reachable w \/ shortIdPresent w ->
    (forall k d,
        cached k (state w) = Some d ->
        view k w = (Normal tt, mapState (shown d) w)
        /\ generationCalls (exec (view k) w) = generationCalls w)
    /\ (forall k,
          k <> vlessEncryption -> cached k (state w) = None ->
          exec (view k) w = exec (generate k) w
          /\ calls k (exec (view k) w) = S (calls k w))
    /\ (cached vlessEncryption (state w) = None ->
        exec (view vlessEncryption) w = mapState (setIsVlessAdvancedModalOpen true) w)
    /\ (forall k,
          k <> vlessEncryption -> resultType (state w) = Some k ->
          exec regenerateClick w = exec (generate k) w
          /\ calls k (exec regenerateClick w) = S (calls k w))
    /\ (resultType (state w) = Some vlessEncryption ->
        exec regenerateClick w =
        mapState (fun s => setIsResultsDialogOpen false (setIsVlessAdvancedModalOpen true s)) w)
    /\ (forall k,
          toasts (exec (generate k) w) = toasts w ++ [successToast k] ->
          exists d,
            kindOf d = k
            /\ cached k (state (exec (generate k) w)) = Some d
            /\ resultData (state (exec (generate k) w)) = Some d
            /\ cached k (state (exec (generate k) (mapState (forget k) w))) = Some d)
    /\ (forall k,
          cached k (state (exec (generate k) w)) <> None ->
          calls k (exec (view k) (exec (view k) (exec (generate k) w))) = S (calls k w)).
Proof.
  intros w Hw.
  assert (Hinv : shortIdPresent w)
    by (destruct Hw as [Hr|Hi]; [now apply reachable_shortId | exact Hi]).
  split; [|split; [|split; [|split; [|split; [|split]]]]].
  - intros k d Hd. unfold exec. rewrite (view_cached k w d Hinv Hd). now split.
  - intros k Hk Hn. unfold exec at 1 3. rewrite (view_empty k w Hk Hn). cbn [snd].
    split; [reflexivity|].
    destruct (generate_always k w) as (_ & _ & Hc & _).
    rewrite (calls_app k w k _ Hc). now destruct (kind_eq_dec k k).
  - intros Hn. unfold exec. now rewrite (viewVLESS_empty w Hn).
  - intros k Hk Ht. unfold exec at 1 3. rewrite (regenerate_kind k w Hk Ht). cbn [snd].
    split; [reflexivity|].
    destruct (generate_always k w) as (_ & _ & Hc & _).
    rewrite (calls_app k w k _ Hc). now destruct (kind_eq_dec k k).
  - intros Ht. unfold exec. now rewrite (regenerate_vless w Ht).
  - intros k Hs. apply generate_success. exact Hs.
  - intros k Hc.
    pose proof (generate_keeps_shortId k w Hinv) as Hinv1.
    destruct (cached k (state (exec (generate k) w))) as [d|] eqn:Hd; [|congruence].
    destruct (generate_always k w) as (_ & _ & Hcalls & _).
    set (w1 := exec (generate k) w) in *.
    assert (E1 : exec (view k) w1 = mapState (shown d) w1).
    { unfold exec. now rewrite (view_cached k w1 d Hinv1 Hd). }
    assert (Hd2 : cached k (state (mapState (shown d) w1)) = Some d).
    { cbn [state mapState]. now rewrite cached_shown. }
    assert (E2 : exec (view k) (mapState (shown d) w1) =
                 mapState (shown d) (mapState (shown d) w1)).
    { unfold exec. now rewrite (view_cached k (mapState (shown d) w1) d Hinv1 Hd2). }
    rewrite E1, E2.
    rewrite (calls_same k w1 (mapState (shown d) (mapState (shown d) w1)) eq_refl).
    rewrite (calls_app k w k w1 Hcalls). now destruct (kind_eq_dec k k).
Qed.


Lemma C7_view_and_regenerate_witness :
  let w := step (EditorValidation (js "{") [])
             (step ToggleFullscreen
                (step (EditorDidMount 0%nat) (initialWorld (repeat x00 32) examplePlatform))) in
  reachable w
  /\ cached keyPair (state (exec (generate keyPair) w)) <> None
  /\ calls keyPair (exec (view keyPair) (exec (view keyPair) (exec (generate keyPair) w))) = 1%nat.
Proof.
  intros w.
  assert (Hr : reachable w) by (do 3 apply reachable_step; apply reachable_initial).
  assert (Hc : cached keyPair (state (exec (generate keyPair) w)) <> None)
    by (vm_compute; discriminate).
  split; [exact Hr|]. split; [exact Hc|].
  destruct (C7_view_and_regenerate w (or_introl Hr)) as (_ & _ & _ & _ & _ & _ & Hcount).
  exact (Hcount keyPair Hc).
Defined.

(** C8, the claim as stated fails: a tag that is a single space is a
    non-empty string, yet it is not collected. *)
Lemma C8_blank_tag_dropped : ~ extraction_keeps_non_empty_tags.
Proof.
  intros H.
  specialize (H blankTagDocument (initialWorld [] examplePlatform)).
  vm_compute in H. discriminate H.
Qed.

Example blank_tag_run :
  forall w,
    inboundTags (state (exec (debouncedConfigChange blankTagDocument) w)) = []
    /\ tagsIfNonEmpty blankTagDocument = [js " "].
Proof.
  intros w. split.
  - rewrite (configChange_pure blankTagDocument w (initialWorld [] examplePlatform)).
    vm_compute. reflexivity.
  - vm_compute. reflexivity.
Qed.

(** C8, amended.  The tag list after a change of the document depends on
    the text alone, the rest of the world is untouched and nothing is
    thrown.  It is empty when the text is not JSON and when the document has
    no inbounds array; when it has one, none of whose elements is null, it
    is the tags, in document order, of the elements whose tag is a string
    that is not empty after trimming.  The documented example yields
    exactly the one tag A. *)
Theorem C8_inbound_tags :
  forall text,
    exists tags,
      (forall w, debouncedConfigChange text w = (Normal tt, mapState (setInboundTags tags) w))
      /\ (forall w, inboundTags (state (exec (debouncedConfigChange text) w)) = tags)
      /\ (parse text = None -> tags = [])
      /\ (forall doc, parse text = Some doc -> inboundsOf doc = None -> tags = [])
      /\ (forall doc elems,
            parse text = Some doc -> inboundsOf doc = Some elems -> ~ In JNull elems ->
            tags = collectTags nonBlank elems)
      /\ (forall w, inboundTags (state (exec (debouncedConfigChange exampleDocument) w)) = [js "A"]).
Proof.
  intros text.
  destruct (configChange_run text (initialWorld [] examplePlatform))
    as (tags & Hrun & Hnone & Hno & Helems).
  assert (Hall : forall w, debouncedConfigChange text w =
                           (Normal tt, mapState (setInboundTags tags) w)).
  { intros w. destruct (configChange_run text w) as (tags' & Hrun' & Hnone' & Hno' & Helems').
    rewrite Hrun'. f_equal. f_equal. f_equal.
    destruct (parse text) as [doc|] eqn:Hp.
    - pose proof (configChange_pure text w (initialWorld [] examplePlatform)) as Hpure.
      unfold exec in Hpure. rewrite Hrun, Hrun' in Hpure. exact Hpure.
    - now rewrite Hnone, Hnone'. }
  exists tags.
  split; [exact Hall|]. split; [|split; [exact Hnone|split; [exact Hno|split; [exact Helems|]]]].
  - intros w. unfold exec. now rewrite Hall.
  - intros w.
    pose proof (configChange_pure exampleDocument w (initialWorld [] examplePlatform)) as Hpure.
    rewrite Hpure. vm_compute. reflexivity.
Qed.

Lemma C8_inbound_tags_witness :
  exists tags,
    parse exampleDocument <> None
    /\ (forall w, inboundTags (state (exec (debouncedConfigChange exampleDocument) w)) = tags)
    /\ tags = collectTags nonBlank
                [JObject [(js "tag", JString [65])]; JObject [(js "tag", JString [])];
                 JObject [(js "notag", JNumber {| num_neg := false; num_mantissa := 1;
                                                  num_exp10 := 0 |})]].
Proof.
  destruct (C8_inbound_tags exampleDocument) as (tags & _ & Htags & _ & _ & Helems & _).
  exists tags. split; [vm_compute; discriminate|]. split; [exact Htags|].
  eapply Helems.
  - vm_compute. reflexivity.
  - vm_compute. reflexivity.
  - intros [H|[H|[H|[]]]]; discriminate H.
Defined.

(** A [null] among the inbounds makes the filter throw; the catch empties
    the list although a later element carries a tag. *)
Example null_element_empties_tags :
  forall w, inboundTags (state (exec (debouncedConfigChange nullElementDocument) w)) = [].
Proof.
  intros w.
  rewrite (configChange_pure nullElementDocument w (initialWorld [] examplePlatform)).
  vm_compute. reflexivity.
Qed.

(** C9. No run of a generation handler throws, and each ends with the
    in-progress flag of its kind cleared.  When the try block throws, the
    cache is, at the throw and at the end, what it was before the call, for
    every kind; the state differs from the one before at most in the
    cleared flag; and exactly one error notification has been added. *)
Theorem C9_failure_is_atomic :
  forall k w,
    (forall e, fst (generate k w) <> Thrown e)
    /\ generating k (state (exec (generate k) w)) = false
    /\ (forall e w1,
          tryBlock k (addCall k w) = (Thrown e, w1) ->
          (forall k', cached k' (state w1) = cached k' (state w))
          /\ fst (generate k w) = Normal tt
          /\ state (exec (generate k) w) = setGenerating k false (state w)
          /\ (forall k', cached k' (state (exec (generate k) w)) = cached k' (state w))
          /\ exists m, toasts (exec (generate k) w) = toasts w ++ [toast_error m]).
Proof.
  intros k w.
  destruct (generate_always k w) as (Hthrow & Hflag & _).
  split; [exact Hthrow|]. split; [exact Hflag|].
  intros e w1 Hrun.
  destruct (tryBlock_abrupt _ _ _ _ Hrun ltac:(discriminate)) as (Hs1 & _).
  pose proof (generate_run k w) as Hg. rewrite Hrun in Hg. destruct Hg as (m & Hg).
  unfold exec. rewrite Hg. cbn [fst snd state toasts].
  split; [|split; [|split; [|split]]].
  - intros k'. rewrite Hs1. apply cached_setGenerating.
  - reflexivity.
  - reflexivity.
  - intros k'. apply cached_setGenerating.
  - now exists m.
Qed.

Lemma C9_failure_is_atomic_witness :
  let w := initialWorld [] examplePlatform in
  exists e w1,
    tryBlock keyPair (addCall keyPair w) = (Thrown e, w1)
    /\ fst (generate keyPair w) = Normal tt
    /\ cached keyPair (state (exec (generate keyPair) w)) = cached keyPair (state w).
Proof.
  intros w.
  exists (JsError (js "random source unavailable")).
  eexists. split; [vm_compute; reflexivity|].
  destruct (C9_failure_is_atomic keyPair w) as (_ & _ & H).
  destruct (H _ _ ltac:(vm_compute; reflexivity)) as (_ & Hn & _ & Hc & _).
  split; [exact Hn | exact (Hc keyPair)].
Defined.

(** C10. Called with a method identifier outside the enumerated cipher
    set, the Shadowsocks password generator returns at once: the state is
    the one before with the in-progress flag cleared, so the cached password
    and the results dialog are as they were; no notification is shown, no
    random byte is drawn, and nothing is thrown. *)
Theorem C10_unknown_method_returns :
  forall value w,
    ~ In value (map ss_value SHADOWSOCKS_ENCRYPTION_METHODS) ->
    let w' := exec (generateShadowsocksPassword value) w in
    fst (generateShadowsocksPassword value w) = Returned
    /\ state w' = setIsGeneratingShadowsocksPassword false (state w)
    /\ generatedShadowsocksPassword (state w') = generatedShadowsocksPassword (state w)
    /\ (forall k, cached k (state w') = cached k (state w))
    /\ resultType (state w') = resultType (state w)
    /\ resultData (state w') = resultData (state w)
    /\ isResultsDialogOpen (state w') = isResultsDialogOpen (state w)
    /\ toasts w' = toasts w
    /\ entropy w' = entropy w
    /\ isGeneratingShadowsocksPassword (state w') = false.
Proof.
  intros value w Hnot w'.
  assert (Hrun : generateShadowsocksPassword value w =
                 (Returned,
                  addCall shadowsocksPassword
                    (mapState (setIsGeneratingShadowsocksPassword false) w))).
  { unfold generateShadowsocksPassword, generateShadowsocksPassword_try.
    rewrite (find_unknown_method value Hnot). reflexivity. }
  unfold w', exec. rewrite Hrun. cbn [fst snd]. world_simpl.
  repeat split.
Qed.

Lemma C10_unknown_method_returns_witness :
  let value := js "aes-256-gcm" in
  let w := initialWorld (repeat x00 64) examplePlatform in
  ~ In value (map ss_value SHADOWSOCKS_ENCRYPTION_METHODS)
  /\ fst (generateShadowsocksPassword value w) = Returned
  /\ toasts (exec (generateShadowsocksPassword value) w) = []
  /\ generatedShadowsocksPassword (state (exec (generateShadowsocksPassword value) w)) = None.
Proof.
  intros value w.
  assert (Hnot : ~ In value (map ss_value SHADOWSOCKS_ENCRYPTION_METHODS)).
  { intros [H|[H|[]]]; vm_compute in H; discriminate H. }
  split; [exact Hnot|].
  destruct (C10_unknown_method_returns value w Hnot) as (Hr & _ & Hg & _ & _ & _ & _ & Ht & _).
  split; [exact Hr|]. split; [exact Ht | exact Hg].
Defined.

End DialogClaims.



Import Described Widgets Cores Decoding Invariants.
(** * Further properties *)

(** ** More on trimming and splitting *)

Section MoreTextFacts.

Lemma trimEnd_idempotent s : trimEnd (trimEnd s) = trimEnd s.
Proof.
  induction s as [|c s IH] using rev_ind; [reflexivity|].
  destruct (isWhiteSpace c) eqn:Hc.
  - now rewrite trimEnd_snoc_ws.
  - now rewrite !trimEnd_snoc_other.
Qed.

Lemma trimEnd_keeps_head c t :
  isWhiteSpace c = false -> exists t', trimEnd (c :: t) = c :: t'.
Proof.
  intros Hc. induction t as [|x t (t' & IH)] using rev_ind.
  - exists []. unfold trimEnd. simpl. now rewrite Hc.
  - change (c :: t ++ [x]) with ((c :: t) ++ [x]).
    destruct (isWhiteSpace x) eqn:Hx.
    + rewrite trimEnd_snoc_ws by assumption. now exists t'.
    + rewrite trimEnd_snoc_other by assumption. now exists (t ++ [x]).
Qed.

Lemma trimStart_head s :
  trimStart s = [] \/ exists c t, trimStart s = c :: t /\ isWhiteSpace c = false.
Proof.
  unfold trimStart. induction s as [|c s IH]; simpl; [now left|].
  destruct (isWhiteSpace c) eqn:Hc; [exact IH|].
  right. now exists c, s.
Qed.

(** Trimming twice is trimming once. *)
Lemma trim_idempotent s : trim (trim s) = trim s.
Proof.
  change (trim s) with (trimEnd (trimStart s)).
  destruct (trimStart_head s) as [E|(c & t & E & Hc)]; rewrite E.
  - reflexivity.
  - destruct (trimEnd_keeps_head c t Hc) as (t' & Ht).
    pose proof (trimEnd_idempotent (c :: t)) as Hi. rewrite Ht in *.
    unfold trim, trimStart. simpl. rewrite Hc. exact Hi.
Qed.

Lemma In_dropWhile {A} (f : A -> bool) x l : In x (dropWhile f l) -> In x l.
Proof.
  induction l as [|y l IH]; simpl; [easy|].
  destruct (f y); [intros H; right; auto | easy].
Qed.

Lemma In_trim x s : In x (trim s) -> In x s.
Proof.
  unfold trim, trimEnd, trimStart. intros H.
  apply in_rev, In_dropWhile, in_rev in H. now apply In_dropWhile in H.
Qed.

(** No piece of a split holds the separator. *)
Lemma split_pieces_free sep s : Forall (fun p => ~ In sep p) (split sep s).
Proof.
  induction s as [|c s IH]; simpl.
  - constructor; [easy | constructor].
  - destruct (N.eqb_spec c sep) as [->|Hne].
    + constructor; [easy | exact IH].
    + destruct (split sep s) as [|p ps]; [constructor; [|constructor]|].
      * intros [H|[]]. congruence.
      * inversion_clear IH as [|? ? Hp Hps]. constructor; [|exact Hps].
        intros [H|H]; [congruence | now apply Hp].
Qed.

Lemma split_free sep s : ~ In sep s -> split sep s = [s].
Proof.
  induction s as [|c s IH]; intros Hn; [reflexivity|].
  simpl. destruct (N.eqb_spec c sep) as [->|Hne].
  - exfalso. apply Hn. now left.
  - rewrite IH; [reflexivity|]. intros H. apply Hn. now right.
Qed.

Lemma split_app_sep sep p t :
  ~ In sep p -> split sep (p ++ sep :: t) = p :: split sep t.
Proof.
  induction p as [|c p IH]; intros Hn; simpl.
  - now rewrite N.eqb_refl.
  - destruct (N.eqb_spec c sep) as [->|Hne].
    + exfalso. apply Hn. now left.
    + rewrite IH; [reflexivity|]. intros H. apply Hn. now right.
Qed.

(** Splitting undoes joining when no part holds the separator. *)
Lemma split_join sep parts :
  parts <> [] -> Forall (fun p => ~ In sep p) parts ->
  split sep (join [sep] parts) = parts.
Proof.
  induction parts as [|p parts IH]; [congruence|]. intros _ Hall.
  inversion_clear Hall as [|? ? Hp Hrest].
  destruct parts as [|q parts].
  - simpl. now apply split_free.
  - rewrite join_cons.
    change ([sep] ++ join [sep] (q :: parts)) with (sep :: join [sep] (q :: parts)).
    rewrite split_app_sep by assumption.
    rewrite IH; [reflexivity | discriminate | assumption].
Qed.

Lemma trimmed_pieces_clean sep s keep :
  (forall p, keep p = true -> p <> []) ->
  Forall (cleanPiece sep) (filter keep (map trim (split sep s))).
Proof.
  intros Hkeep. apply Forall_forall. intros p Hin.
  apply filter_In in Hin as [Hin Hk]. apply in_map_iff in Hin as (q & <- & Hq).
  pose proof (proj1 (Forall_forall _ _) (split_pieces_free sep s) q Hq) as Hfree.
  repeat split.
  - apply trim_idempotent.
  - now apply Hkeep.
  - intros H. apply Hfree. now apply In_trim.
Qed.

Lemma eqb_nil_false (p : jsstring) : negb (JsString.eqb p []) = true <-> p <> [].
Proof. destruct p; simpl; split; congruence. Qed.

End MoreTextFacts.

(** ** The encoder, further *)

Section EncoderExtras.

Lemma orDefault_clean s fallback :
  trim fallback = fallback -> fallback <> [] ->
  trim (orDefault s fallback) = orDefault s fallback /\ orDefault s fallback <> [].
Proof.
  intros Ht Hn. unfold orDefault. destruct (blank s) eqn:B.
  - now split.
  - split; [apply trim_idempotent|].
    intros E. apply blank_trim in E. congruence.
Qed.

Lemma orDefault_free s fallback :
  ~ In dot s -> ~ In dot fallback -> ~ In dot (orDefault s fallback).
Proof.
  intros Hs Hf. unfold orDefault. destruct (blank s); [exact Hf|].
  intros H. apply Hs. now apply In_trim.
Qed.

Lemma paddingPieces_clean padding : Forall (cleanPiece dot) (paddingPieces padding).
Proof.
  unfold paddingPieces, pieces. apply trimmed_pieces_clean.
  intros p. apply eqb_nil_false.
Qed.

Lemma fallbackTicket_clean r :
  exists t, fallbackTicketOf r = Some t /\ trim t = t /\ t <> [] /\ ~ In dot t.
Proof.
  destruct r; eexists; (split; [reflexivity|]); (split; [reflexivity|]);
    (split; [discriminate|]); vm_compute; intuition discriminate.
Qed.

(** X1. Whatever the options, the segments that the encoder derives from
    them are at least three, none is empty and none begins or ends with
    white space; those after the third, the padding pieces, hold no dot.
    The output is these segments and the token joined by dots. *)
Theorem X1_segments_are_clean :
  forall o k v r,
    output (buildVlessResult o k) v r = join [dot] (optionSegments o r ++ [tokenOf k v r])
    /\ (3 <= List.length (optionSegments o r))%nat
    /\ Forall (fun s => trim s = s /\ s <> []) (optionSegments o r)
    /\ Forall (cleanPiece dot) (skipn 3 (optionSegments o r)).
Proof.
  intros o k v r. split; [apply output_segments|].
  unfold optionSegments. split; [simpl; lia|]. split.
  - apply Forall_app. split.
    + destruct (fallbackTicket_clean r) as (t & -> & Ht & Hn & _).
      repeat constructor; try (apply orDefault_clean; (reflexivity || discriminate || assumption)).
    + destruct (includeOf o r); [|constructor].
      eapply Forall_impl; [|apply paddingPieces_clean].
      intros p (H1 & H2 & _). now split.
  - cbn [skipn app]. destruct (includeOf o r); [apply paddingPieces_clean | constructor].
Qed.

(** X2. When neither the two methods, the ticket of the role nor the
    token holds a dot, splitting the output on dots gives back exactly the
    segments and the token: the string reads back unambiguously. *)
Theorem X2_output_splits_back :
  forall o k v r,
    ~ In dot (handshakeMethod o) ->
    ~ In dot (encryptionMethod o) ->
    ~ In dot (ticketOf o r) ->
    ~ In dot (tokenOf k v r) ->
    split dot (output (buildVlessResult o k) v r) = optionSegments o r ++ [tokenOf k v r].
Proof.
  intros o k v r Hh He Ht Hk. rewrite output_segments.
  apply split_join; [now destruct (optionSegments o r)|].
  apply Forall_app. split; [|now repeat constructor].
  unfold optionSegments. apply Forall_app. split.
  - destruct (fallbackTicket_clean r) as (t & -> & _ & _ & Hf).
    repeat constructor; apply orDefault_free; try assumption;
      vm_compute; intuition discriminate.
  - destruct (includeOf o r); [|constructor].
    eapply Forall_impl; [|apply paddingPieces_clean].
    now intros p (_ & _ & H).
Qed.

Lemma X2_output_splits_back_witness :
  split dot (output (buildVlessResult
                       (exampleOptions (js "0rtt") (js "10-20. 30-40") [] true false)
                       (serverToken (js "ABC") (js "DEF") (js "GHI")))
                    x25519_variant Server)
  = [js "mlkem768x25519plus"; js "native"; js "600s"; js "10-20"; js "30-40"; js "ABC"].
Proof.
  rewrite X2_output_splits_back; [reflexivity| | | |];
    vm_compute; intuition discriminate.
Defined.

End EncoderExtras.

(** ** Encodings, further *)

Section EncodingExtras.

Import Base64 Hex Decoding.

Lemma url_sextets_checked :
  forallb (fun n => match indexOf (encodeSextet urlSafeAlphabet n) urlSafeAlphabet with
                    | Some m => (m =? n) && negb (encodeSextet urlSafeAlphabet n =? pad)
                    | None => false
                    end)
          (map N.of_nat (seq 0 64)) = true.
Proof. vm_compute. reflexivity. Qed.

Lemma url_sextet_roundtrip n :
  n < 64 ->
  indexOf (encodeSextet urlSafeAlphabet n) urlSafeAlphabet = Some n
  /\ (encodeSextet urlSafeAlphabet n =? pad) = false
  /\ In (encodeSextet urlSafeAlphabet n) urlSafeAlphabet.
Proof.
  intros Hn.
  pose proof (proj1 (forallb_forall _ _) url_sextets_checked n) as H.
  assert (Hin : In n (map N.of_nat (seq 0 64))).
  { apply in_map_iff. exists (N.to_nat n). split; [apply N2Nat.id|].
    apply in_seq. lia. }
  specialize (H Hin). cbv beta in H. revert H.
  destruct (indexOf (encodeSextet urlSafeAlphabet n) urlSafeAlphabet) as [m|]; [|discriminate].
  intros H. apply andb_prop in H as [H1 H2]. apply N.eqb_eq in H1. subst m.
  split; [reflexivity|]. split; [now apply negb_true_iff in H2|].
  unfold encodeSextet. apply nth_In.
  change (List.length urlSafeAlphabet) with 64%nat. lia.
Qed.

Lemma removeAll_cons_other c x s : (x =? c) = false -> removeAll c (x :: s) = x :: removeAll c s.
Proof. intros H. unfold removeAll. simpl. now rewrite H. Qed.

Lemma removeAll_cons_same c s : removeAll c (c :: s) = removeAll c s.
Proof. unfold removeAll. simpl. now rewrite N.eqb_refl. Qed.

(** The key text of any octets: it decodes back to them, every character is
    of the URL-safe alphabet, and its length is a third more, rounded up. *)
Lemma unpadded_url data :
  Forall (fun x => x < 256) data ->
  let text := removeAll pad (encode urlSafeAlphabet data) in
  decodeUnpadded urlSafeAlphabet text = Some data
  /\ Forall (fun c => In c urlSafeAlphabet) text
  /\ List.length text = ((4 * List.length data + 2) / 3)%nat.
Proof.
  induction data as [|a|a b|a b c rest IH] using list_ind3; intros Hall text; subst text.
  - repeat split. constructor.
  - inversion_clear Hall as [|? ? Ha _].
    destruct (octets_arith a 0 0 Ha eq_refl eq_refl)
      as (S0 & _ & _ & _ & S1 & _ & _ & _ & _ & E & _).
    destruct (url_sextet_roundtrip _ S0) as (D0 & P0 & I0).
    destruct (url_sextet_roundtrip _ S1) as (D1 & P1 & I1).
    cbn [encode]. rewrite !removeAll_cons_other, !removeAll_cons_same by assumption.
    change (removeAll pad []) with (@nil N).
    cbn [decodeUnpadded]. rewrite D0, D1, E.
    split; [reflexivity|]. split; [|reflexivity].
    repeat (apply Forall_cons; [assumption|]). apply Forall_nil.
  - inversion_clear Hall as [|? ? Ha Hall']. inversion_clear Hall' as [|? ? Hb _].
    destruct (octets_arith a b 0 Ha Hb eq_refl)
      as (S0 & S1 & _ & _ & _ & S2 & E1 & _ & _ & _ & E2).
    destruct (url_sextet_roundtrip _ S0) as (D0 & P0 & I0).
    destruct (url_sextet_roundtrip _ S1) as (D1 & P1 & I1).
    destruct (url_sextet_roundtrip _ S2) as (D2 & P2 & I2).
    cbn [encode]. rewrite !removeAll_cons_other, !removeAll_cons_same by assumption.
    change (removeAll pad []) with (@nil N).
    cbn [decodeUnpadded]. rewrite D0, D1, D2, E1, E2.
    split; [reflexivity|]. split; [|reflexivity].
    repeat (apply Forall_cons; [assumption|]). apply Forall_nil.
  - inversion_clear Hall as [|? ? Ha Hall']. inversion_clear Hall' as [|? ? Hb Hall''].
    inversion_clear Hall'' as [|? ? Hc Hrest].
    destruct (octets_arith a b c Ha Hb Hc)
      as (S0 & S1 & S2 & S3 & _ & _ & E1 & E2 & E3 & _ & _).
    destruct (url_sextet_roundtrip _ S0) as (D0 & P0 & I0).
    destruct (url_sextet_roundtrip _ S1) as (D1 & P1 & I1).
    destruct (url_sextet_roundtrip _ S2) as (D2 & P2 & I2).
    destruct (url_sextet_roundtrip _ S3) as (D3 & P3 & I3).
    destruct (IH Hrest) as (IHd & IHc & IHl).
    cbn [encode]. rewrite !removeAll_cons_other by assumption.
    cbn [decodeUnpadded]. rewrite D0, D1, D2, D3, IHd, E1, E2, E3.
    split; [reflexivity|].
    split; [repeat (apply Forall_cons; [assumption|]); exact IHc|].
    cbn [List.length]. rewrite IHl.
    replace (4 * S (S (S (List.length rest))) + 2)%nat
      with (4 * List.length rest + 2 + 4 * 3)%nat by lia.
    rewrite Nat.div_add by discriminate. lia.
Qed.

Lemma keyText_facts (bytes : list byte) :
  decodeUnpadded urlSafeAlphabet (keyText bytes) = Some (fromCharCode bytes)
  /\ Forall (fun c => In c urlSafeAlphabet) (keyText bytes)
  /\ List.length (keyText bytes) = ((4 * List.length bytes + 2) / 3)%nat.
Proof.
  destruct (unpadded_url (fromCharCode bytes) (bytes_are_octets bytes)) as (H1 & H2 & H3).
  repeat split; try assumption.
  change (keyText bytes) with (removeAll pad (encode urlSafeAlphabet (fromCharCode bytes))).
  rewrite H3.
  unfold fromCharCode. now rewrite length_map.
Qed.

Lemma removeAll_absent c s : ~ In c s -> removeAll c s = s.
Proof.
  intros Hn. unfold removeAll. induction s as [|x s IH]; [reflexivity|].
  simpl. destruct (N.eqb_spec x c) as [->|_].
  - exfalso. apply Hn. now left.
  - simpl. f_equal. apply IH. intros H. apply Hn. now right.
Qed.

Lemma url_alphabet_plain c :
  In c urlSafeAlphabet -> c <> 10 /\ c <> dot /\ c <> pad /\ c <> 43 /\ c <> 47.
Proof.
  intros H. vm_compute in H.
  repeat (destruct H as [<-|H]; [repeat split; discriminate|]). destruct H.
Qed.

Lemma keyText_free (bytes : list byte) c :
  c = 10 \/ c = dot \/ c = pad \/ c = 43 \/ c = 47 -> ~ In c (keyText bytes).
Proof.
  intros Hc Hin.
  destruct (keyText_facts bytes) as (_ & Hall & _).
  apply (proj1 (Forall_forall _ _) Hall) in Hin.
  destruct (url_alphabet_plain c Hin) as (H1 & H2 & H3 & H4 & H5).
  destruct Hc as [?|[?|[?|[?|?]]]]; congruence.
Qed.

(** The second replacement, of line feeds, never removes anything. *)
Lemma keyText_no_newline (bytes : list byte) : removeAll 10 (keyText bytes) = keyText bytes.
Proof. apply removeAll_absent, keyText_free. now left. Qed.

Lemma hex_pair_checked (b : byte) rest :
  forallb isLowerHex (padStart 2 48 (toString16 b)) = true
  /\ hexDecode (padStart 2 48 (toString16 b) ++ rest) =
     match hexDecode rest with Some bytes => Some (b :: bytes) | None => None end.
Proof. destruct b; split; reflexivity. Qed.

(** Hexadecimal text of bytes: lowercase digits only, and it decodes back. *)
Lemma hexOfBytes_facts bytes :
  forallb isLowerHex (hexOfBytes bytes) = true /\ hexDecode (hexOfBytes bytes) = Some bytes.
Proof.
  unfold hexOfBytes. induction bytes as [|b bytes [IH1 IH2]]; [now split|].
  cbn [map]. rewrite join_empty_separator.
  destruct (hex_pair_checked b (join [] (map (fun b => padStart 2 48 (toString16 b)) bytes)))
    as [H1 H2].
  split.
  - rewrite forallb_app, H1, IH1. reflexivity.
  - rewrite H2, IH2. reflexivity.
Qed.

End EncodingExtras.

(** ** Generation, further *)

Section GenerationExtras.

Import Base64 Hex Decoding.

(** X3. With eight random bytes at hand, the short identifier generated,
    cached and shown is their hexadecimal text: sixteen characters, each a
    digit or a letter from a to f, which decode back to those bytes; exactly
    eight bytes are drawn.  With fewer at hand nothing is cached and an
    error is reported. *)
Theorem X3_short_id :
  forall w,
    let bytes := firstn 8 (entropy w) in
    let w' := exec generateShortId w in
    ((8 <= List.length (entropy w))%nat ->
     generatedShortId (state w') = Some (hexOfBytes bytes)
     /\ resultData (state w') = Some (DataShortId (hexOfBytes bytes))
     /\ List.length (hexOfBytes bytes) = 16%nat
     /\ forallb isLowerHex (hexOfBytes bytes) = true
     /\ hexDecode (hexOfBytes bytes) = Some bytes
     /\ entropy w' = skipn 8 (entropy w)
     /\ toasts w' = toasts w ++ [successToast shortId])
    /\ ((List.length (entropy w) < 8)%nat ->
        generatedShortId (state w') = generatedShortId (state w)
        /\ entropy w' = entropy w
        /\ toasts w' =
           toasts w ++ [toast_error (T (js "coreConfigModal.shortIdGenerationFailed"))]).
Proof.
  intros w bytes w'. split; intros Hlen.
  - assert (Hrun : (8 <=? List.length (entropy w))%nat = true) by now apply Nat.leb_le.
    unfold w'. unfold_monad. world_simpl. rewrite Hrun. world_simpl. fold bytes.
    destruct (hexOfBytes_facts bytes) as [Hhex Hdec].
    repeat split; try assumption.
    rewrite hexOfBytes_length. unfold bytes. rewrite length_firstn. lia.
  - assert (Hrun : (8 <=? List.length (entropy w))%nat = false) by (apply Nat.leb_gt; lia).
    unfold w'. unfold_monad. world_simpl. rewrite Hrun. world_simpl. repeat split.
Qed.

Lemma X3_short_id_witness :
  let w := initialWorld [x00; x01; x0a; x10; x7f; x80; xab; xff] examplePlatform in
  generatedShortId (state (exec generateShortId w)) = Some (js "00010a107f80abff")
  /\ hexDecode (js "00010a107f80abff") = Some [x00; x01; x0a; x10; x7f; x80; xab; xff].
Proof.
  intros w.
  destruct (X3_short_id w) as [Hok _].
  destruct Hok as (Hg & _ & _ & _ & Hd & _); [vm_compute; lia|].
  split; [exact Hg | exact Hd].
Defined.

(** X4. With thirty-two random bytes at hand, the key pair generated is
    one pair: the private key is the text of those bytes and the public key
    the text of their base-point multiple, both in the URL-safe alphabet
    without padding.  The private key has 43 characters, none of them =, +,
    / or a line feed, and decodes back to the bytes drawn. *)
Theorem X4_key_pair :
  forall w,
    (32 <= List.length (entropy w))%nat ->
    let secret := firstn 32 (entropy w) in
    let w' := exec generatePrivateAndPublicKey w in
    generatedKeyPair (state w') =
      Some {| publicKey := keyText (scalarMultBase (platform w) secret);
              privateKey := keyText secret |}
    /\ List.length (keyText secret) = 43%nat
    /\ Forall (fun c => In c urlSafeAlphabet) (keyText secret)
    /\ (forall c, c = 61 \/ c = 43 \/ c = 47 \/ c = 10 -> ~ In c (keyText secret))
    /\ decodeUnpadded urlSafeAlphabet (keyText secret) = Some (fromCharCode secret)
    /\ decodeUnpadded urlSafeAlphabet (keyText (scalarMultBase (platform w) secret)) =
       Some (fromCharCode (scalarMultBase (platform w) secret))
    /\ entropy w' = skipn 32 (entropy w).
Proof.
  intros w Hlen secret w'.
  assert (Hrun : (32 <=? List.length (entropy w))%nat = true) by now apply Nat.leb_le.
  assert (Hstate : generatedKeyPair (state w') =
                   Some {| publicKey := removeAll 10 (keyText (scalarMultBase (platform w) secret));
                           privateKey := removeAll 10 (keyText secret) |}
                   /\ entropy w' = skipn 32 (entropy w)).
  { unfold w'. unfold_monad. world_simpl. rewrite Hrun. world_simpl. split; reflexivity. }
  destruct Hstate as [Hg He]. rewrite !keyText_no_newline in Hg.
  destruct (keyText_facts secret) as (Hd & Hc & Hl).
  destruct (keyText_facts (scalarMultBase (platform w) secret)) as (Hd' & _ & _).
  split; [exact Hg|]. split.
  - rewrite Hl. unfold secret. rewrite length_firstn.
    replace (Nat.min 32 (List.length (entropy w))) with 32%nat by lia. reflexivity.
  - split; [exact Hc|]. split; [|split; [exact Hd|split; [exact Hd'|exact He]]].
    intros c Hcase. apply keyText_free. unfold dot, pad. intuition.
Qed.

Lemma X4_key_pair_witness :
  let w := initialWorld (repeat xff 32) examplePlatform in
  generatedKeyPair (state (exec generatePrivateAndPublicKey w)) =
    Some {| publicKey := js "__________________________________________8";
            privateKey := js "__________________________________________8" |}
  /\ List.length (js "__________________________________________8") = 43%nat.
Proof.
  intros w.
  destruct (X4_key_pair w) as (Hg & Hl & _); [vm_compute; lia|].
  split; [exact Hg | exact Hl].
Defined.

(** X5. With ninety-six random bytes at hand and a seed the derivation
    accepts, a VLESS generation draws thirty-two bytes for the X25519 secret
    and then sixty-four for the ML-KEM-768 seed, and caches one result, built
    from the options of that moment.  In it each string is the segments of
    its role followed by a token, and the tokens are paired: for X25519 the
    server has the secret and the client its base-point multiple, for
    ML-KEM-768 the server has the seed itself and the client the key derived
    from that seed.  Every token decodes back to its key material. *)
Theorem X5_vless_tokens_are_paired :
  forall w client other,
    (96 <= List.length (entropy w))%nat ->
    let secret := firstn 32 (entropy w) in
    let mlkemSeed := firstn 64 (skipn 32 (entropy w)) in
    deriveKeyPair (platform w) mlkemSeed = inr (client, other) ->
    let w' := exec generateVLESSEncryption w in
    exists res,
      generatedVLESS (state w') = Some res
      /\ resultData (state w') = Some (DataVless res)
      /\ options res = vlessOptions (state w)
      /\ (forall v r,
            output res v r =
            join [dot] (optionSegments (vlessOptions (state w)) r
                        ++ [keyText (material (platform w) secret mlkemSeed client v r)]))
      /\ (forall v r,
            decodeUnpadded urlSafeAlphabet
              (keyText (material (platform w) secret mlkemSeed client v r)) =
            Some (fromCharCode (material (platform w) secret mlkemSeed client v r)))
      /\ entropy w' = skipn 96 (entropy w)
      /\ toasts w' = toasts w ++ [successToast vlessEncryption].
Proof.
  intros w client other Hlen secret mlkemSeed Hderive w'.
  assert (H32 : (32 <=? List.length (entropy w))%nat = true) by (apply Nat.leb_le; lia).
  assert (H64 : (64 <=? List.length (skipn 32 (entropy w)))%nat = true).
  { apply Nat.leb_le. rewrite length_skipn. lia. }
  exists (buildVlessResult (vlessOptions (state w))
            {| x25519ServerKey := keyText secret;
               x25519ClientKey := keyText (scalarMultBase (platform w) secret);
               mlkem768ServerKey := keyText mlkemSeed;
               mlkem768ClientKey := keyText client |}).
  assert (Hrun : generatedVLESS (state w') =
                 Some (buildVlessResult (vlessOptions (state w))
                         {| x25519ServerKey := keyText secret;
                            x25519ClientKey := keyText (scalarMultBase (platform w) secret);
                            mlkem768ServerKey := keyText mlkemSeed;
                            mlkem768ClientKey := keyText client |})
                 /\ resultData (state w') =
                    Some (DataVless (buildVlessResult (vlessOptions (state w))
                         {| x25519ServerKey := keyText secret;
                            x25519ClientKey := keyText (scalarMultBase (platform w) secret);
                            mlkem768ServerKey := keyText mlkemSeed;
                            mlkem768ClientKey := keyText client |}))
                 /\ entropy w' = skipn 64 (skipn 32 (entropy w))
                 /\ toasts w' = toasts w ++ [successToast vlessEncryption]).
  { unfold w'. unfold_monad. world_simpl. rewrite H32. world_simpl. rewrite H64. world_simpl.
    fold secret. fold mlkemSeed. rewrite Hderive. world_simpl. repeat split. }
  destruct Hrun as (Hg & Hr & He & Ht).
  split; [exact Hg|]. split; [exact Hr|]. split; [reflexivity|]. split; [|split; [|split]].
  - intros v r. rewrite output_segments. now destruct v, r.
  - intros v r. apply keyText_facts.
  - rewrite He, skipn_skipn. reflexivity.
  - exact Ht.
Qed.

Lemma X5_vless_tokens_are_paired_witness :
  let w := initialWorld (repeat x00 32 ++ repeat xff 64) examplePlatform in
  exists res,
    generatedVLESS (state (exec generateVLESSEncryption w)) = Some res
    /\ decryption (mlkem768 res) =
       js "mlkem768x25519plus.native.600s._____________________________________________________________________________________w"
    /\ entropy (exec generateVLESSEncryption w) = [].
Proof.
  intros w.
  destruct (X5_vless_tokens_are_paired w (repeat xff 32) (repeat xff 32))
    as (res & Hg & _ & _ & Hout & _ & He & _).
  - vm_compute. lia.
  - vm_compute. reflexivity.
  - exists res. split; [exact Hg|]. split; [|exact He].
    change (decryption (mlkem768 res)) with (output res mlkem768_variant Server).
    rewrite Hout. vm_compute. reflexivity.
Defined.

End GenerationExtras.

(** ** Tags: extraction, selection, the list of a core *)

Section TagExtras.

Lemma filterAccess_kept {A} (f : A -> access bool) l kept :
  filterAccess f l = Got kept -> forall x, In x kept -> In x l /\ f x = Got true.
Proof.
  revert kept. induction l as [|y l IH]; simpl; intros kept H x Hin.
  - injection H as <-. destruct Hin.
  - destruct (f y) as [keep|] eqn:Hy; [|discriminate].
    destruct (filterAccess f l) as [kept'|]; [|discriminate].
    injection H as <-. destruct keep.
    + destruct Hin as [<-|Hin]; [now split; [left|]|].
      destruct (IH kept' eq_refl x Hin). split; [now right | assumption].
    + destruct (IH kept' eq_refl x Hin). split; [now right | assumption].
Qed.

Lemma hasTag_true elem :
  hasTag elem = Got true -> nonBlank (tagOf elem) = true /\ tagText elem = Some (tagOf elem).
Proof.
  unfold hasTag, tagOf, tagText, getProperty.
  destruct elem as [| | | | |members]; try discriminate.
  destruct (lookup (js "tag") members) as [[| | |s| |]|]; try discriminate.
  intros H. injection H as H. now split.
Qed.

Lemma extracted_tag text w tag :
  In tag (inboundTags (state (exec (debouncedConfigChange text) w))) ->
  nonBlank tag = true
  /\ tag <> []
  /\ exists doc elems elem,
       parse text = Some doc /\ inboundsOf doc = Some elems
       /\ In elem elems /\ tagText elem = Some tag.
Proof.
  unfold exec, debouncedConfigChange, tryCatch, JSON_parse.
  destruct (parse text) as [doc|] eqn:Hp; [|intros []].
  cbv beta iota zeta delta [bind ret liftAccess].
  pose proof (getProperty_inbounds doc) as Hg.
  destruct (getProperty doc (js "inbounds")) as [v|]; [|intros []].
  cbv beta iota zeta delta [ret]. destruct (toBoolean v && isArray v); [|intros []].
  destruct Hg as (elems & -> & Hin).
  cbv beta iota zeta delta [bind liftAccess].
  destruct (filterAccess hasTag elems) as [kept|] eqn:Hf; [|intros []].
  cbn [snd update mapState state inboundTags setInboundTags]. intros Htag.
  apply in_map_iff in Htag as (elem & <- & Hk).
  destruct (filterAccess_kept _ _ _ Hf elem Hk) as [He Ht].
  destruct (hasTag_true elem Ht) as [Hnb Htext].
  split; [exact Hnb|]. split.
  - intros E. rewrite E in Hnb. discriminate Hnb.
  - now exists doc, elems, elem.
Qed.

(** X6. Whatever the text of the document, well formed or not, every tag
    in the list is a string with something other than white space in it, and
    is the tag of an element of the inbounds array of the document. *)
Theorem X6_tags_are_not_blank :
  forall text w tag,
    In tag (inboundTags (state (exec (debouncedConfigChange text) w))) ->
    nonBlank tag = true
    /\ tag <> []
    /\ exists doc elems elem,
         parse text = Some doc /\ inboundsOf doc = Some elems
         /\ In elem elems /\ tagText elem = Some tag.
Proof. intros text w tag. apply extracted_tag. Qed.

Lemma X6_tags_are_not_blank_witness :
  In (js "A") (inboundTags (state (exec (debouncedConfigChange exampleDocument)
                                     (initialWorld [] examplePlatform))))
  /\ nonBlank (js "A") = true.
Proof.
  assert (Hin : In (js "A") (inboundTags (state (exec (debouncedConfigChange exampleDocument)
                                                   (initialWorld [] examplePlatform)))))
    by (vm_compute; now left).
  split; [exact Hin|].
  exact (proj1 (X6_tags_are_not_blank _ _ _ Hin)).
Defined.

Lemma existsb_eqb value l : existsb (JsString.eqb value) l = true <-> In value l.
Proof.
  rewrite existsb_exists. split.
  - intros (x & Hin & He). apply eqb_eq in He. now subst.
  - intros Hin. exists value. split; [assumption | now apply eqb_eq].
Qed.

Lemma selectTag_In fieldValue value :
  nonBlank value = true -> In value (selected (selectTag fieldValue value)).
Proof.
  unfold selectTag, nonBlank. intros Hnb. apply negb_true_iff in Hnb.
  destruct value as [|c value]; [discriminate Hnb|]. cbv beta iota. rewrite Hnb.
  fold (selected fieldValue).
  destruct (existsb (JsString.eqb (c :: value)) (selected fieldValue)) eqn:Hin.
  - now apply existsb_eqb.
  - cbn [selected]. apply in_or_app. right. now left.
Qed.

(** X7. Selecting a tag never makes the list of selected tags hold a tag
    twice or hold a blank tag: a list without repetition stays so, a list of
    tags that are not blank stays so.  A tag that is not blank is in the list
    afterwards, the tags selected before keep their places before it, and
    selecting it once more changes nothing; a blank value changes nothing. *)
Theorem X7_select_tag :
  forall fieldValue value,
    let after := selectTag fieldValue value in
    (NoDup (selected fieldValue) -> NoDup (selected after))
    /\ (Forall (fun t => nonBlank t = true) (selected fieldValue) ->
        Forall (fun t => nonBlank t = true) (selected after))
    /\ (nonBlank value = true -> In value (selected after))
    /\ (nonBlank value = false -> after = fieldValue)
    /\ (exists added, selected after = selected fieldValue ++ added)
    /\ selectTag after value = after.
Proof.
  intros fieldValue value after.
  assert (Hsame : forall fv, nonBlank value = false -> selectTag fv value = fv).
  { intros fv. unfold selectTag, nonBlank. destruct value as [|c value]; [reflexivity|].
    intros H. apply negb_false_iff in H. now rewrite H. }
  assert (Hin : forall fv, In value (selected fv) -> selectTag fv value = fv).
  { intros fv H. unfold selectTag. destruct value as [|c value]; [reflexivity|].
    destruct (JsString.eqb (trim (c :: value)) []); [reflexivity|].
    fold (selected fv). apply existsb_eqb in H. now rewrite H. }
  assert (Hnew : nonBlank value = true -> ~ In value (selected fieldValue) ->
                 after = Some (selected fieldValue ++ [value])).
  { unfold after, selectTag, nonBlank. intros Hnb Hnot.
    destruct value as [|c value]; [discriminate Hnb|].
    apply negb_true_iff in Hnb. rewrite Hnb. fold (selected fieldValue).
    destruct (existsb (JsString.eqb (c :: value)) (selected fieldValue)) eqn:E;
      [|reflexivity].
    apply existsb_eqb in E. contradiction. }
  destruct (nonBlank value) eqn:Hnb.
  - destruct (in_dec (list_eq_dec N.eq_dec) value (selected fieldValue)) as [Hold|Hfresh].
    + unfold after. rewrite (Hin fieldValue Hold).
      repeat split; try easy.
      * exists []. now rewrite app_nil_r.
      * now apply Hin.
    + rewrite (Hnew eq_refl Hfresh). cbn [selected].
      split; [|split; [|split; [|split; [|split]]]].
      * intros Hnd. apply NoDup_app; [assumption | repeat constructor; easy|].
        intros x Hx [<-|[]]. contradiction.
      * intros Hall. apply Forall_app. split; [assumption|]. now repeat constructor.
      * intros _. apply in_or_app. right. now left.
      * discriminate.
      * now exists [value].
      * apply Hin. cbn [selected]. apply in_or_app. right. now left.
  - unfold after. rewrite (Hsame fieldValue eq_refl).
    repeat split; try easy.
    + exists []. now rewrite app_nil_r.
    + now apply Hsame.
Qed.

Lemma X7_select_tag_witness :
  NoDup (selected (Some [js "A"]))
  /\ NoDup (selected (selectTag (Some [js "A"]) (js "B")))
  /\ selectTag (Some [js "A"]) (js "B") = Some [js "A"; js "B"].
Proof.
  assert (Hnd : NoDup (selected (Some [js "A"]))) by (repeat constructor; intros []).
  split; [exact Hnd|]. split; [|reflexivity].
  exact (proj1 (X7_select_tag (Some [js "A"]) (js "B")) Hnd).
Defined.

Lemma filter_all {A} (f : A -> bool) l : (forall x, In x l -> f x = true) -> filter f l = l.
Proof.
  induction l as [|x l IH]; intros H; [reflexivity|].
  simpl. rewrite (H x (or_introl eq_refl)). f_equal. apply IH. intros y Hy. apply H. now right.
Qed.

(** X8. Removing a tag takes out every occurrence of it and nothing
    else: the tag is gone, every other selected tag stays, in the same order,
    and a list without repetition stays so.  Removing a tag that was just
    selected and was not selected before gives back the list as it was. *)
Theorem X8_remove_tag :
  forall fieldValue tag,
    ~ In tag (selected (removeTag fieldValue tag))
    /\ (forall t, t <> tag -> (In t (selected (removeTag fieldValue tag)) <-> In t (selected fieldValue)))
    /\ (NoDup (selected fieldValue) -> NoDup (selected (removeTag fieldValue tag)))
    /\ (nonBlank tag = true -> ~ In tag (selected fieldValue) ->
        removeTag (selectTag fieldValue tag) tag = Some (selected fieldValue)).
Proof.
  intros fieldValue tag. unfold removeTag. fold (selected fieldValue). cbn [selected].
  split; [|split; [|split]].
  - intros H. apply filter_In in H as [_ H]. apply negb_true_iff in H.
    assert (E : JsString.eqb tag tag = true) by now apply eqb_eq. congruence.
  - intros t Hne. rewrite filter_In. split; [now intros [H _]|].
    intros H. split; [assumption|]. apply negb_true_iff.
    destruct (JsString.eqb t tag) eqn:E; [|reflexivity]. apply eqb_eq in E. contradiction.
  - apply NoDup_filter.
  - intros Hnb Hnot.
    unfold selectTag. unfold nonBlank in Hnb. apply negb_true_iff in Hnb.
    destruct tag as [|c tag]; [discriminate Hnb|]. rewrite Hnb.
    fold (selected fieldValue).
    assert (Hex : existsb (JsString.eqb (c :: tag)) (selected fieldValue) = false).
    { destruct (existsb _ _) eqn:E; [|reflexivity]. apply existsb_eqb in E. contradiction. }
    rewrite Hex. f_equal. rewrite filter_app. cbn [filter].
    assert (E : JsString.eqb (c :: tag) (c :: tag) = true) by now apply eqb_eq.
    rewrite E. cbn [negb]. rewrite app_nil_r. apply filter_all.
    intros x Hx. apply negb_true_iff.
    destruct (JsString.eqb x (c :: tag)) eqn:Ex; [|reflexivity].
    apply eqb_eq in Ex. subst. contradiction.
Qed.

Lemma X8_remove_tag_witness :
  nonBlank (js "B") = true
  /\ ~ In (js "B") (selected (Some [js "A"]))
  /\ removeTag (selectTag (Some [js "A"]) (js "B")) (js "B") = Some [js "A"].
Proof.
  assert (Hnb : nonBlank (js "B") = true) by reflexivity.
  assert (Hnot : ~ In (js "B") (selected (Some [js "A"])))
    by (intros [H|[]]; discriminate H).
  split; [exact Hnb|]. split; [exact Hnot|].
  exact (proj2 (proj2 (proj2 (X8_remove_tag (Some [js "A"]) (js "B")))) Hnb Hnot).
Defined.

(** X9. Every tag that the document offers can be selected: the selector
    never turns down a tag of the extracted list. *)
Theorem X9_offered_tags_can_be_selected :
  forall text w fieldValue tag,
    In tag (inboundTags (state (exec (debouncedConfigChange text) w))) ->
    In tag (selected (selectTag fieldValue tag)).
Proof.
  intros text w fieldValue tag Hin.
  destruct (extracted_tag text w tag Hin) as (Hnb & _).
  now apply selectTag_In.
Qed.

Lemma X9_offered_tags_can_be_selected_witness :
  In (js "A") (selected (selectTag None (js "A"))).
Proof.
  apply (X9_offered_tags_can_be_selected exampleDocument (initialWorld [] examplePlatform)).
  vm_compute. now left.
Defined.

End TagExtras.

(** ** The list of cores *)

Section CoresExtras.

(** X10. The excluded inbound identifiers that opening a core for
    editing puts into the form are always well formed: none is empty, none
    begins or ends with white space, none holds a comma.  A core without tags
    gives the empty list; a list of tags that are well formed already is
    taken over as it is; and normalising a second time changes nothing. *)
Theorem X10_excluded_ids :
  forall core,
    Forall (cleanPiece comma) (excludedInboundIds core)
    /\ (exclude_inbound_tags core = None -> excludedInboundIds core = [])
    /\ (forall tags,
          exclude_inbound_tags core = Some tags -> Forall (cleanPiece comma) tags ->
          excludedInboundIds core = tags)
    /\ excludedInboundIds {| core_id := core_id core; core_name := core_name core;
                             exclude_inbound_tags := Some (excludedInboundIds core) |}
       = excludedInboundIds core.
Proof.
  assert (Hclean : forall core, Forall (cleanPiece comma) (excludedInboundIds core)).
  { intros core. unfold excludedInboundIds.
    destruct (exclude_inbound_tags core) as [tags|]; [|constructor].
    apply trimmed_pieces_clean. intros p Hp E. subst p. discriminate Hp. }
  assert (Hsame : forall core tags,
             exclude_inbound_tags core = Some tags -> Forall (cleanPiece comma) tags ->
             excludedInboundIds core = tags).
  { intros core tags Ht Hall. unfold excludedInboundIds. rewrite Ht.
    destruct tags as [|t tags]; [reflexivity|].
    rewrite split_join; [|discriminate|].
    - assert (Hmap : map trim (t :: tags) = t :: tags).
      { rewrite <- (map_id (t :: tags)) at 2. apply map_ext_in.
        intros p Hp. exact (proj1 (proj1 (Forall_forall _ _) Hall p Hp)). }
      rewrite Hmap. apply filter_all. intros p Hp.
      destruct (proj1 (Forall_forall _ _) Hall p Hp) as (Htrim & Hne & _).
      rewrite Htrim. now apply eqb_nil_false.
    - eapply Forall_impl; [|exact Hall]. now intros p (_ & _ & H). }
  intros core. split; [apply Hclean|]. split; [|split].
  - intros Hn. unfold excludedInboundIds. now rewrite Hn.
  - apply Hsame.
  - apply Hsame; [reflexivity | apply Hclean].
Qed.

Lemma X10_excluded_ids_witness :
  let core := {| core_id := 1; core_name := Some (js "main");
                 exclude_inbound_tags := Some [js "in-1"; js "in 2"] |} in
  Forall (cleanPiece comma) [js "in-1"; js "in 2"]
  /\ excludedInboundIds core = [js "in-1"; js "in 2"].
Proof.
  intros core.
  assert (Hall : Forall (cleanPiece comma) [js "in-1"; js "in 2"]).
  { repeat constructor; try discriminate; vm_compute; intuition discriminate. }
  split; [exact Hall|].
  exact (proj1 (proj2 (proj2 (X10_excluded_ids core))) _ eq_refl Hall).
Defined.

Lemma includes_here q b : startsWith q (q ++ b) = true.
Proof. induction q as [|c q IH]; [reflexivity|]. simpl. now rewrite N.eqb_refl. Qed.

Lemma includes_infix a q b : includes (a ++ q ++ b) q = true.
Proof.
  induction a as [|c a IH].
  - simpl app. destruct (q ++ b) eqn:E; simpl; rewrite <- E, includes_here; reflexivity.
  - simpl. rewrite IH. apply orb_true_r.
Qed.

Lemma dropWhile_suffix {A} (f : A -> bool) l : exists a, l = a ++ dropWhile f l.
Proof.
  induction l as [|x l (a & IH)]; [now exists []|].
  simpl. destruct (f x); [|now exists []].
  exists (x :: a). simpl. now f_equal.
Qed.

Lemma trim_infix s : exists a b, s = a ++ trim s ++ b.
Proof.
  unfold trim, trimEnd.
  destruct (dropWhile_suffix isWhiteSpace s) as (a & Ha).
  destruct (dropWhile_suffix isWhiteSpace (rev (trimStart s))) as (b & Hb).
  exists a, (rev b). rewrite <- rev_app_distr, <- Hb, rev_involutive. exact Ha.
Qed.

(** A string holds what is left of it after trimming. *)
Lemma includes_trim s : includes s (trim s) = true.
Proof.
  destruct (trim_infix s) as (a & b & E). rewrite E at 1. apply includes_infix.
Qed.

(** X11. The search of the list of cores only ever hides cores: the
    result holds no core that the list does not.  A query that is empty or
    white space hides nothing; any other query hides every core without a
    name; and the name of a core, typed as the query, never hides that core,
    whatever the lower-casing does. *)
Theorem X11_search :
  forall toLowerCase coresList searchQuery,
    (forall core, In core (filteredCores toLowerCase coresList searchQuery) -> In core coresList)
    /\ (blank searchQuery = true -> filteredCores toLowerCase coresList searchQuery = coresList)
    /\ (blank searchQuery = false ->
        forall core, In core (filteredCores toLowerCase coresList searchQuery) ->
                     core_name core <> None)
    /\ (forall core name,
          In core coresList -> core_name core = Some name ->
          In core (filteredCores toLowerCase coresList name)).
Proof.
  intros lower cores q. unfold filteredCores. split; [|split; [|split]].
  - intros core. destruct (trim q); [easy|]. intros H. now apply filter_In in H.
  - intros Hb. apply blank_trim in Hb. now rewrite Hb.
  - intros Hb core. destruct (trim q) eqn:E; [apply blank_trim in E; congruence|].
    intros H. apply filter_In in H as [_ H]. now destruct (core_name core).
  - intros core name Hin Hname. destruct (trim name); [exact Hin|].
    apply filter_In. split; [exact Hin|]. rewrite Hname. apply includes_trim.
Qed.

Lemma X11_search_witness :
  let a := {| core_id := 1; core_name := Some (js "Edge"); exclude_inbound_tags := None |} in
  let b := {| core_id := 2; core_name := None; exclude_inbound_tags := None |} in
  In a [a; b] /\ In a (filteredCores (fun s => s) [a; b] (js "Edge")).
Proof.
  intros a b.
  assert (Hin : In a [a; b]) by now left.
  split; [exact Hin|].
  exact (proj2 (proj2 (proj2 (X11_search (fun s => s) [a; b] (js "Edge")))) a _ Hin eq_refl).
Defined.

End CoresExtras.

(** ** Validation and the reachable states *)

Section StateExtras.

Import Base64 Hex.

(** X12. After a validation pass the configuration counts as valid
    exactly when the editor reported no marker and the text parses as JSON.
    A valid pass leaves no error text and shows nothing; an invalid one
    records one error text and shows it in one error notification, the text
    of the first marker when there is one.  The pass never throws and never
    touches the cache.  A text that does not parse is thus both refused here
    and left without inbound tags. *)
Theorem X12_validation :
  forall formConfig markers w,
    let w' := exec (handleEditorValidation formConfig markers) w in
    (isValid (validation (state w')) = true <-> markers = [] /\ parse formConfig <> None)
    /\ (isValid (validation (state w')) = true ->
        error (validation (state w')) = None /\ toasts w' = toasts w)
    /\ (isValid (validation (state w')) = false ->
        exists m, error (validation (state w')) = Some m
                  /\ toasts w' = toasts w ++ [toast_error (Literal m)])
    /\ (forall first rest, markers = first :: rest ->
                           error (validation (state w')) = Some (marker_message first))
    /\ (forall k, cached k (state w') = cached k (state w))
    /\ fst (handleEditorValidation formConfig markers w) = Normal tt
    /\ (parse formConfig = None ->
        isValid (validation (state w')) = false
        /\ inboundTags (state (exec (debouncedConfigChange formConfig) w)) = []).
Proof.
  intros formConfig markers w w'. unfold w', exec, handleEditorValidation.
  assert (Htags : parse formConfig = None ->
                  inboundTags (state (snd (debouncedConfigChange formConfig w))) = []).
  { intros Hp. destruct (configChange_run formConfig w) as (tags & Hrun & Hnone & _).
    rewrite Hrun. cbn [snd state mapState inboundTags setInboundTags]. now apply Hnone. }
  destruct markers as [|first rest].
  - unfold tryCatch, JSON_parse. destruct (parse formConfig) as [doc|] eqn:Hp.
    + cbv beta iota zeta delta [bind ret update toast fst snd]. world_simpl.
      cbn [validation setValidation isValid error].
      split; [split; [intros _; split; [reflexivity|discriminate]|reflexivity]|].
      split; [intros _; now split|]. split; [discriminate|]. split; [discriminate|].
      split; [intros k; now destruct k|]. split; [reflexivity|discriminate].
    + cbv beta iota zeta delta [bind ret throw update toast fst snd]. world_simpl.
      cbn [validation setValidation isValid error].
      split; [split; [discriminate|intros [_ H]; congruence]|].
      split; [discriminate|]. split; [intros _; eexists; split; reflexivity|].
      split; [discriminate|]. split; [intros k; now destruct k|].
      split; [reflexivity|]. intros _. split; [reflexivity|]. now apply Htags.
  - cbv beta iota zeta delta [bind ret update toast fst snd]. world_simpl.
    cbn [validation setValidation isValid error].
    split; [split; [discriminate|intros [H _]; discriminate H]|].
    split; [discriminate|]. split; [intros _; eexists; split; reflexivity|].
    split; [intros f r H; now injection H as <- _|]. split; [intros k; now destruct k|].
    split; [reflexivity|]. intros Hp. split; [reflexivity|]. now apply Htags.
Qed.

Lemma X12_validation_witness :
  let w := initialWorld [] examplePlatform in
  isValid (validation (state (exec (handleEditorValidation exampleDocument []) w))) = true
  /\ toasts (exec (handleEditorValidation exampleDocument []) w) = toasts w.
Proof.
  intros w.
  destruct (X12_validation exampleDocument [] w) as (Hiff & Hvalid & _).
  assert (Hv : isValid (validation (state (exec (handleEditorValidation exampleDocument []) w)))
               = true).
  { apply Hiff. split; [reflexivity|]. vm_compute. discriminate. }
  split; [exact Hv|]. exact (proj2 (Hvalid Hv)).
Defined.

(** *** What one event does to the state *)

Lemma generate_effect k w :
  state (exec (generate k) w) = setGenerating k false (state w)
  \/ exists d,
       kindOf d = k /\ wellFormed d
       /\ state (exec (generate k) w) = setGenerating k false (shown d (store d (state w))).
Proof.
  destruct k; unfold_monad; world_simpl; decide_run; world_simpl;
    try (left; reflexivity); right;
    match goal with |- context [setResultData (Some ?d)] => exists d end;
    (split; [reflexivity|]); (split; [|reflexivity]).
  - exists (platform w), (firstn 32 (entropy w)).
    split; [rewrite length_firstn; apply Nat.leb_le in Heqb; lia|].
    split; [exact (keyText_no_newline (firstn 32 (entropy w)))|].
    exact (keyText_no_newline (scalarMultBase (platform w) (firstn 32 (entropy w)))).
  - exists (firstn 8 (entropy w)). split; [|reflexivity].
    rewrite length_firstn. apply Nat.leb_le in Heqb. lia.
  - apply find_some in Heqo as [Hin _].
    exists s, (firstn (ss_length s) (entropy w)).
    split; [exact Hin|]. split; [|split; [reflexivity|]].
    + rewrite length_firstn. apply Nat.leb_le in Heqb. lia.
    + rewrite btoa_bytes in Heqo0. now injection Heqo0 as <-.
  - exact I.
  - exists (vlessOptions (state w)), (platform w), (firstn 32 (entropy w)),
      (firstn 64 (skipn 32 (entropy w))), l, l0.
    split; [|split; [|split; [assumption|reflexivity]]].
    + rewrite length_firstn. apply Nat.leb_le in Heqb. lia.
    + rewrite length_firstn. apply Nat.leb_le in Heqb0. lia.
Qed.

Lemma quiet_refl s : quiet s s.
Proof. repeat split. Qed.

(** Every event is a generation, the showing of a cached value, the
    cleanup on close, or quiet. *)
Lemma step_effect a w :
  reachable w ->
  (exists k, state (step a w) = state (exec (generate k) w))
  \/ (exists k d, cached k (state w) = Some d /\ state (step a w) = shown d (state w))
  \/ state (step a w) = state (exec (cleanupOnClose false) w)
  \/ quiet (state w) (state (step a w)).
Proof.
  intros Hr. pose proof (reachable_shortId w Hr) as Hinv.
  assert (Hview : forall k,
             (exists k', state (exec (view k) w) = state (exec (generate k') w))
             \/ (exists k' d, cached k' (state w) = Some d
                              /\ state (exec (view k) w) = shown d (state w))
             \/ state (exec (view k) w) = state (exec (cleanupOnClose false) w)
             \/ quiet (state w) (state (exec (view k) w))).
  { intros k. destruct (cached k (state w)) as [d|] eqn:E.
    - right. left. exists k, d. split; [exact E|].
      unfold exec. now rewrite (view_cached k w d Hinv E).
    - destruct (kind_eq_dec k vlessEncryption) as [->|Hne].
      + right. right. right. unfold exec. rewrite (viewVLESS_empty w E).
        repeat split.
      + left. exists k. unfold exec at 1. now rewrite (view_empty k w Hne E). }
  destruct a as [| | | | | | | |sel|variant|o|open|isOpen|text|e p|open| |editor|formConfig markers];
    unfold step.
  - apply (Hview keyPair).
  - apply (Hview mldsa65).
  - apply (Hview shortId).
  - apply (Hview shadowsocksPassword).
  - apply (Hview vlessEncryption).
  - unfold exec. destruct (resultType (state w)) as [k|] eqn:E.
    + destruct (kind_eq_dec k vlessEncryption) as [->|Hne].
      * right. right. right. rewrite (regenerate_vless w E). repeat split.
      * left. exists k. now rewrite (regenerate_kind k w Hne E).
    + right. right. right. unfold regenerateClick.
      cbv beta iota zeta delta [bind get]. rewrite E. apply quiet_refl.
  - left. now exists vlessEncryption.
  - right. right. right. repeat split.
  - right. right. right. repeat split.
  - right. right. right. unfold exec, handleVlessVariantChange.
    destruct (JsString.eqb variant (js "x25519")); [repeat split|].
    destruct (JsString.eqb variant (js "mlkem768")); repeat split.
  - right. right. right. repeat split.
  - right. right. right. repeat split.
  - destruct isOpen; [right; right; right; apply quiet_refl | right; right; now left].
  - right. right. right. unfold exec, configEffect.
    destruct text as [|c text]; [apply quiet_refl|].
    destruct (configChange_run (c :: text) w) as (tags & -> & _). repeat split.
  - right. right. right. apply quiet_refl.
  - right. right. right. repeat split.
  - right. right. right. repeat split.
  - right. right. right. repeat split.
  - right. right. right.
    destruct (validation_state formConfig markers w) as (v & ->). repeat split.
Qed.

End StateExtras.

Section ReachableExtras.

Import Base64 Hex.

Lemma cached_after_store k d s :
  cached k (setGenerating (kindOf d) false (shown d (store d s))) =
  if kind_eq_dec k (kindOf d) then Some d else cached k s.
Proof.
  destruct (kind_eq_dec k (kindOf d)) as [->|Hne].
  - now destruct d.
  - destruct k, d; simpl in *; congruence.
Qed.

(** The two properties are kept by every event. *)
Lemma step_keeps a w :
  reachable w ->
  resultsAgree (state w) /\ cacheWellFormed (state w) ->
  resultsAgree (state (step a w)) /\ cacheWellFormed (state (step a w)).
Proof.
  intros Hr (Hres & Hcache).
  destruct (step_effect a w Hr) as [(k & ->)|[(k & d & Hd & ->)|[->|Hq]]].
  - destruct (generate_effect k w) as [->|(d & <- & Hwf & ->)].
    + split.
      * unfold resultsAgree in *. destruct k; exact Hres.
      * intros k' d'. rewrite cached_setGenerating. apply Hcache.
    + split.
      * unfold resultsAgree. destruct d; split; reflexivity.
      * intros k' d'. rewrite cached_after_store.
        destruct (kind_eq_dec k' (kindOf d)); [intros H; now injection H as <-|apply Hcache].
  - pose proof (cached_kind k _ d Hd) as Hk. subst k.
    split.
    + unfold resultsAgree. split; [reflexivity|]. now rewrite cached_shown.
    + intros k' d'. rewrite cached_shown. apply Hcache.
  - split.
    + reflexivity.
    + intros k' d' H. apply (Hcache k' d'). now destruct k'.
  - destruct Hq as (Hc & Ht & Hdt & Hg).
    split.
    + unfold resultsAgree in *. rewrite Hdt, Ht.
      destruct (resultData (state w)) as [d|]; [|exact Hres].
      destruct Hres as [H1 H2]. split; [exact H1|]. now rewrite Hc.
    + intros k' d'. rewrite Hc. apply Hcache.
Qed.

Lemma reachable_keeps w :
  reachable w -> resultsAgree (state w) /\ cacheWellFormed (state w).
Proof.
  induction 1 as [e p|a w Hr IH].
  - split; [reflexivity|]. intros k d H; destruct k; discriminate H.
  - now apply step_keeps.
Qed.

(** X13. In every reachable state the results dialog and the cache
    agree: the dialog holds neither type nor payload and renders nothing, or
    its payload is of the kind its type names and is the very value cached
    for that kind.  While the dialog is open the screen then shows the
    fields of that value; for a VLESS result, the decryption and the
    encryption string of one and the same variant, the selected one.  While
    it is closed the screen shows none of them. *)
Theorem X13_results_dialog_shows_cache :
  forall w,
    reachable w ->
    match resultData (state w) with
    | None => resultType (state w) = None /\ renderResultDialog (state w) = None
    | Some d =>
        resultType (state w) = Some (kindOf d)
        /\ cached (kindOf d) (state w) = Some d
        /\ option_map (map field_value) (onScreen (renderResultDialog (state w))) =
           if isResultsDialogOpen (state w)
           then Some (shownValues (selectedVlessVariant (state w)) d)
           else None
    end.
Proof.
  intros w Hr. destruct (reachable_keeps w Hr) as (Hres & _).
  unfold resultsAgree in Hres. unfold renderResultDialog.
  destruct (resultData (state w)) as [d|].
  - destruct Hres as [Ht Hc]. rewrite Ht. split; [reflexivity|]. split; [exact Hc|].
    cbn [onScreen dialog_open dialog_content].
    destruct (isResultsDialogOpen (state w)); [|reflexivity].
    destruct d; cbn [kindOf renderContent shownValues option_map map field_value];
      reflexivity.
  - rewrite Hres. now split.
Qed.

Lemma X13_results_dialog_shows_cache_witness :
  let w := step (EditorDidMount 0%nat)
             (step ClickViewShortId (initialWorld (repeat xab 8) examplePlatform)) in
  reachable w
  /\ option_map (map field_value) (onScreen (renderResultDialog (state w)))
     = Some [js "abababababababab"]
  /\ option_map (map field_value) (onScreen (renderResultDialog (state (step CloseResults w))))
     = None.
Proof.
  intros w.
  assert (Hr : reachable w) by (do 2 apply reachable_step; apply reachable_initial).
  split; [exact Hr|]. split.
  - pose proof (X13_results_dialog_shows_cache w Hr) as H.
    assert (Hd : resultData (state w) = Some (DataShortId (js "abababababababab")))
      by (vm_compute; reflexivity).
    rewrite Hd in H. exact (proj2 (proj2 H)).
  - pose proof (X13_results_dialog_shows_cache (step CloseResults w)
                  (reachable_step CloseResults w Hr)) as H.
    assert (Hd : resultData (state (step CloseResults w))
                 = Some (DataShortId (js "abababababababab")))
      by (vm_compute; reflexivity).
    rewrite Hd in H. exact (proj2 (proj2 H)).
Defined.

(** X14. The method selector stores whatever value it is given.  With
    no password cached, a click on the view button then runs the generator
    with that value, once.  It shows exactly one notification when the value
    is one of the listed methods; when it is not, it returns silently: no
    notification, nothing cached, nothing drawn from the random source, the
    results dialog as it was. *)
Theorem X14_selected_method_decides :
  forall value w,
    generatedShadowsocksPassword (state w) = None ->
    let w1 := step (SelectEncryptionMethod value) w in
    let w2 := step ClickViewShadowsocksPassword w1 in
    selectedEncryptionMethod (state w1) = value
    /\ w2 = exec (generateShadowsocksPassword value) w1
    /\ calls shadowsocksPassword w2 = S (calls shadowsocksPassword w)
    /\ (In value (map ss_value SHADOWSOCKS_ENCRYPTION_METHODS) ->
        exists t, toasts w2 = toasts w ++ [t])
    /\ (~ In value (map ss_value SHADOWSOCKS_ENCRYPTION_METHODS) ->
        toasts w2 = toasts w
        /\ generatedShadowsocksPassword (state w2) = None
        /\ resultData (state w2) = resultData (state w)
        /\ isResultsDialogOpen (state w2) = isResultsDialogOpen (state w)
        /\ entropy w2 = entropy w).
Proof.
  intros value w Hnone w1 w2.
  assert (Hc : cached shadowsocksPassword (state w1) = None).
  { unfold cached, w1. cbn. now rewrite Hnone. }
  assert (Hw2 : w2 = exec (generateShadowsocksPassword value) w1).
  { unfold w2, step, exec at 1. change viewShadowsocksPassword with (view shadowsocksPassword).
    now rewrite (view_empty shadowsocksPassword w1 ltac:(discriminate) Hc). }
  split; [reflexivity|]. split; [exact Hw2|]. split; [|split].
  - destruct (generate_always shadowsocksPassword w1) as (_ & _ & Hcalls & _).
    rewrite Hw2.
    change (exec (generateShadowsocksPassword value) w1) with (exec (generate shadowsocksPassword) w1).
    rewrite (calls_app shadowsocksPassword w1 shadowsocksPassword _ Hcalls).
    destruct (kind_eq_dec shadowsocksPassword shadowsocksPassword); [|congruence].
    reflexivity.
  - intros Hin. apply in_map_iff in Hin as (m & Hv & Hin).
    pose proof (find_known_method m Hin) as Hfind. rewrite Hv in Hfind.
    rewrite Hw2. unfold w1, step. unfold_monad. world_simpl. rewrite Hfind.
    decide_run; world_simpl; now eexists.
  - intros Hnot. pose proof (find_unknown_method value Hnot) as Hfind.
    rewrite Hw2. unfold w1, step. unfold_monad. world_simpl. rewrite Hfind.
    world_simpl. cbn. now rewrite Hnone.
Qed.

Lemma X14_selected_method_decides_witness :
  let value := js "aes-256-gcm" in
  let w := step (EditorDidMount 0%nat) (initialWorld (repeat x00 64) examplePlatform) in
  let w2 := step ClickViewShadowsocksPassword (step (SelectEncryptionMethod value) w) in
  toasts w2 = [] /\ entropy w2 = repeat x00 64 /\ calls shadowsocksPassword w2 = 1%nat.
Proof.
  intros value w w2.
  destruct (X14_selected_method_decides value w eq_refl) as (_ & _ & Hcalls & _ & Hsilent).
  assert (Hnot : ~ In value (map ss_value SHADOWSOCKS_ENCRYPTION_METHODS)).
  { intros [H|[H|[]]]; vm_compute in H; discriminate H. }
  destruct (Hsilent Hnot) as (Ht & _ & _ & _ & He).
  split; [exact Ht|]. split; [exact He | exact Hcalls].
Defined.

(** X15. In every reachable state the cached credentials keep their
    shape.  A cached short identifier is sixteen lowercase hexadecimal
    characters that decode to eight bytes.  A cached Shadowsocks credential
    names a method of the list and its password decodes, as standard base64,
    to exactly as many bytes as that method's key length.  A cached key pair
    has a private key of 43 characters of the URL-safe alphabet. *)
Theorem X15_cached_credentials_keep_their_shape :
  forall w,
    reachable w ->
    (forall id,
        generatedShortId (state w) = Some id ->
        List.length id = 16%nat
        /\ forallb Decoding.isLowerHex id = true
        /\ exists bytes, Decoding.hexDecode id = Some bytes /\ List.length bytes = 8%nat)
    /\ (forall ss,
          generatedShadowsocksPassword (state w) = Some ss ->
          exists m octets,
            In m SHADOWSOCKS_ENCRYPTION_METHODS
            /\ ss_encryptionMethod ss = ss_label m
            /\ decode (password ss) = Some octets
            /\ List.length octets = ss_length m)
    /\ (forall kp,
          generatedKeyPair (state w) = Some kp ->
          List.length (privateKey kp) = 43%nat
          /\ Forall (fun c => In c urlSafeAlphabet) (privateKey kp)
          /\ Forall (fun c => In c urlSafeAlphabet) (publicKey kp)).
Proof.
  intros w Hr. destruct (reachable_keeps w Hr) as (_ & Hcache).
  split; [|split].
  - intros id Hid.
    destruct (Hcache shortId (DataShortId id)) as (bytes & Hlen & ->).
    { unfold cached. now rewrite Hid. }
    destruct (hexOfBytes_facts bytes) as [Hhex Hdec].
    split; [rewrite hexOfBytes_length; lia|]. split; [exact Hhex|]. now exists bytes.
  - intros ss Hss.
    destruct (Hcache shadowsocksPassword (DataShadowsocks ss)) as (m & bytes & Hin & Hlen & Hl & Hp).
    { unfold cached. now rewrite Hss. }
    exists m, (fromCharCode bytes). split; [exact Hin|]. split; [exact Hl|]. split.
    + rewrite Hp. apply decode_encode, bytes_are_octets.
    + unfold fromCharCode. now rewrite length_map.
  - intros kp Hkp.
    destruct (Hcache keyPair (DataKeyPair kp)) as (p & secret & Hlen & Hpriv & Hpub).
    { unfold cached. now rewrite Hkp. }
    destruct (keyText_facts secret) as (_ & Hc & Hl).
    destruct (keyText_facts (scalarMultBase p secret)) as (_ & Hc' & _).
    rewrite Hpriv, Hpub. split; [rewrite Hl, Hlen; reflexivity|]. now split.
Qed.

Lemma X15_cached_credentials_keep_their_shape_witness :
  let w := step (EditorValidation (js "{") [])
             (step ToggleFullscreen
                (step (EditorDidMount 0%nat)
                   (step ClickViewShortId (initialWorld (repeat xab 8) examplePlatform)))) in
  reachable w
  /\ isEditorReady (state w) = true
  /\ isEditorFullscreen (state w) = true
  /\ isValid (validation (state w)) = false
  /\ generatedShortId (state w) = Some (js "abababababababab")
  /\ List.length (js "abababababababab") = 16%nat.
Proof.
  intros w.
  assert (Hr : reachable w) by (do 4 apply reachable_step; apply reachable_initial).
  assert (Hid : generatedShortId (state w) = Some (js "abababababababab"))
    by (vm_compute; reflexivity).
  destruct (X15_cached_credentials_keep_their_shape w Hr) as (Hshort & _ & _).
  split; [exact Hr|]. split; [vm_compute; reflexivity|]. split; [vm_compute; reflexivity|].
  split; [vm_compute; reflexivity|]. split; [exact Hid|]. exact (proj1 (Hshort _ Hid)).
Defined.

End ReachableExtras.
